(** * Prompt assembly and character-card codec: a shallow embedding

  The development follows the TypeScript sources of the client:
  - [core/tokenizer]   (token estimate and context truncation),
  - [core/worldinfo]   (keyword matcher and scanner),
  - [core/prompt]      (prompt builder),
  - [core/character]   (card parser, PNG embedding),
  - [core/chat]        (chat manager over the SQLite adapter).

  JavaScript strings are sequences of UTF-16 code units and are modelled
  as lists of [N]; numbers are modelled by [Z] (the integer-valued
  doubles); a thrown exception is the [Throw] outcome of [result]. *)

From Stdlib Require Import String Ascii.
From Stdlib Require Import ZArith NArith QArith List Lia Bool.
From Stdlib Require DecimalN DecimalFacts DecimalPos.
From stdpp Require Import base list gmap.
Import ListNotations.

Local Open Scope Z_scope.

(** ** JavaScript strings *)

Abbreviation jsstring := (list N).

(** [js "abc"] is the string literal "abc" (one code unit per character). *)
Definition js (s : String.string) : jsstring :=
List.map Ascii.N_of_ascii (String.list_ascii_of_string s).

Arguments js s%_string.

(** [jsq "{'a':1}"] is the text with every apostrophe read as a double
    quote; it is used to write JSON texts. *)
Definition jsq (s : String.string) : jsstring :=
  List.map (fun c => if N.eqb c 39 then 34%N else c) (js s).

Arguments jsq s%_string.

Definition str_eqb (a b : jsstring) : bool := bool_decide (a = b).

(** ** Exceptions *)

Inductive exn : Type :=
| SyntaxError
| TypeError
| InvalidCharacterError
| Error (msg : jsstring)
| OutOfModel.

Inductive result (A : Type) : Type :=
| Ok (a : A)
| Throw (e : exn).
Arguments Ok {A} a.
Arguments Throw {A} e.

Definition rbind {A B} (r : result A) (k : A -> result B) : result B :=
match r with
| Ok a => k a
| Throw e => Throw e
end.

Notation "'do' x <- r ; k" := (rbind r (fun x => k))
(at level 10, x pattern, r at level 100, k at level 200).

(** ** JavaScript values

    The values that [JSON.parse] can return, and [undefined]. An object is
    the list of its own properties in enumeration order, without repeated
    keys. *)

#[local] Set Warnings "-register-all".

Inductive jsval : Type :=
| JUndefined
| JNull
| JBool (b : bool)
| JNum (n : Z)
| JStr (s : jsstring)
| JArr (l : list jsval)
| JObj (props : list (jsstring * jsval)).

(** ** String primitives of the platform *)

Module Str.

Fixpoint starts_with (p s : jsstring) : bool :=
  match p, s with
  | [], _ => true
  | a :: p', b :: s' => N.eqb a b && starts_with p' s'
  | _ :: _, [] => false
  end.

(** [s.includes(key)] *)
Fixpoint includes (s key : jsstring) : bool :=
  starts_with key s ||
  match s with
  | [] => false
  | _ :: s' => includes s' key
  end.

(** WhiteSpace and LineTerminator code points of ECMAScript, as used by
    [String.prototype.trim]. *)
Definition is_space (c : N) : bool :=
  existsb (N.eqb c)
    [9; 10; 11; 12; 13; 32; 160; 5760; 8232; 8233; 8239; 8287; 12288; 65279]%N
  || ((8192 <=? c) && (c <=? 8202))%N.

Fixpoint trim_start (s : jsstring) : jsstring :=
  match s with
  | c :: s' => if is_space c then trim_start s' else s
  | [] => []
  end.

Definition trim (s : jsstring) : jsstring :=
  rev (trim_start (rev (trim_start s))).

(** [arr.join(sep)] *)
Fixpoint join {A} (sep : list A) (l : list (list A)) : list A :=
  match l with
  | [] => []
  | [x] => x
  | x :: r => x ++ sep ++ join sep r
  end.

(** [s.split(sep)] for a separator of one code unit; [cur] holds the
    piece being read, reversed. *)
Fixpoint split_on (sep : N) (s : jsstring) (cur : jsstring) : list jsstring :=
  match s with
  | [] => [rev cur]
  | c :: s' => if N.eqb c sep then rev cur :: split_on sep s' [] else split_on sep s' (c :: cur)
  end.

Definition split (sep : N) (s : jsstring) : list jsstring := split_on sep s [].

(** [s.replace(pat, '')] for a string pattern: the first occurrence of
    [pat] is removed. *)
Fixpoint remove_first (pat s : jsstring) : jsstring :=
  if starts_with pat s then skipn (length pat) s
  else match s with
       | [] => []
       | c :: s' => c :: remove_first pat s'
       end.

(** ASCII case folding, the effect of the [i] flag on ASCII letters. *)
Definition ascii_lower (c : N) : N :=
  if ((65 <=? c) && (c <=? 90))%N then (c + 32)%N else c.

Definition starts_with_ci (p s : jsstring) : bool :=
  starts_with (List.map ascii_lower p) (List.map ascii_lower (firstn (length p) s)).

End Str.

(** ** Regular expressions and case mapping of the platform

    [RegExp] and the Unicode case mapping are supplied by the JavaScript
    engine; the sources use them through the operations below. *)

Class Engine := {
  RegExp : Type;
  (** [new RegExp(pattern, flags)]; [None] when the constructor throws a
      SyntaxError. *)
  regexp_new : jsstring -> jsstring -> option RegExp;
  (** [regex.test(text)] on a regular expression that was just built *)
  regexp_test : RegExp -> jsstring -> bool;
  (** [text.match(regex)]: the matched text [m[0]] of the first match *)
  regexp_match0 : RegExp -> jsstring -> option jsstring;
  (** [text.toLowerCase()] *)
  toLowerCase : jsstring -> jsstring
}.

(** ** JSON.stringify and JSON.parse

    The two built-ins, after ECMA-262: [stringify] is
    SerializeJSONProperty with the gap of the third argument and no
    replacer; [parse] reads the JSON grammar, in two passes (code units to
    tokens, tokens to a value). Numbers are the integers of absolute value
    at most 2^53 - 1: the lexer reports a fraction, an exponent or a larger
    literal as [OutOfModel]. *)

Module JSON.

Definition max_safe_integer : Z := 9007199254740991.

(** *** stringify *)

Definition hex_digit (n : N) : N :=
  if (n <? 10)%N then (48 + n)%N else (87 + n)%N.

(** [\uXXXX], lower-case digits *)
Definition unicode_escape (c : N) : jsstring :=
  [92; 117; hex_digit ((c / 4096) mod 16); hex_digit ((c / 256) mod 16);
   hex_digit ((c / 16) mod 16); hex_digit (c mod 16)]%N.

Definition is_high_surrogate (c : N) : bool := ((55296 <=? c) && (c <=? 56319))%N.
Definition is_low_surrogate (c : N) : bool := ((56320 <=? c) && (c <=? 57343))%N.

(** One code unit that is not a surrogate, inside a quoted string. *)
Definition quote_unit (c : N) : jsstring :=
  if (c =? 8)%N then [92; 98]%N
  else if (c =? 9)%N then [92; 116]%N
  else if (c =? 10)%N then [92; 110]%N
  else if (c =? 12)%N then [92; 102]%N
  else if (c =? 13)%N then [92; 114]%N
  else if (c =? 34)%N then [92; 34]%N
  else if (c =? 92)%N then [92; 92]%N
  else if (c <? 32)%N then unicode_escape c
  else [c].

(** QuoteJSONString walks the code points: a surrogate pair is copied, a
    lone surrogate is escaped. *)
Fixpoint quote_body (s : jsstring) : jsstring :=
  match s with
  | [] => []
  | c :: s' =>
    if is_high_surrogate c then
      match s' with
      | d :: s'' =>
        if is_low_surrogate d then c :: d :: quote_body s''
        else unicode_escape c ++ quote_body s'
      | [] => unicode_escape c
      end
    else if is_low_surrogate c then unicode_escape c ++ quote_body s'
    else quote_unit c ++ quote_body s'
  end.

Definition quote (s : jsstring) : jsstring := [34%N] ++ quote_body s ++ [34%N].

Fixpoint uint_codes (d : Decimal.uint) : jsstring :=
  match d with
  | Decimal.Nil => []
  | Decimal.D0 d => 48%N :: uint_codes d
  | Decimal.D1 d => 49%N :: uint_codes d
  | Decimal.D2 d => 50%N :: uint_codes d
  | Decimal.D3 d => 51%N :: uint_codes d
  | Decimal.D4 d => 52%N :: uint_codes d
  | Decimal.D5 d => 53%N :: uint_codes d
  | Decimal.D6 d => 54%N :: uint_codes d
  | Decimal.D7 d => 55%N :: uint_codes d
  | Decimal.D8 d => 56%N :: uint_codes d
  | Decimal.D9 d => 57%N :: uint_codes d
  end.

(** Number::toString for an integer *)
Definition number_to_string (n : Z) : jsstring :=
  if n <? 0 then 45%N :: uint_codes (N.to_uint (Z.abs_N n))
  else uint_codes (N.to_uint (Z.to_N n)).

(** The text of an array or object from the texts of its parts. *)
Definition wrap (opening closing : N) (gap stepback indent : jsstring)
           (partial : list jsstring) : jsstring :=
  match partial with
  | [] => [opening; closing]
  | _ =>
    match gap with
    | [] => [opening] ++ Str.join [44%N] partial ++ [closing]
    | _ => [opening; 10%N] ++ indent ++ Str.join ([44%N; 10%N] ++ indent) partial
           ++ [10%N] ++ stepback ++ [closing]
    end
  end.

Definition member (gap key str : jsstring) : jsstring :=
  quote key ++ [58%N] ++ (match gap with [] => [] | _ => [32%N] end) ++ str.

(** SerializeJSONProperty; [None] is the result [undefined]. *)
Fixpoint serialize (gap indent : jsstring) (v : jsval) : option jsstring :=
  match v with
  | JUndefined => None
  | JNull => Some (js "null")
  | JBool true => Some (js "true")
  | JBool false => Some (js "false")
  | JNum n => Some (number_to_string n)
  | JStr s => Some (quote s)
  | JArr l =>
    let partial :=
      List.map (fun x => match serialize gap (indent ++ gap) x with
                         | Some str => str
                         | None => js "null"
                         end) l in
    Some (wrap 91 93 gap indent (indent ++ gap) partial)
  | JObj props =>
    let partial :=
      flat_map (fun kv => match serialize gap (indent ++ gap) (snd kv) with
                          | Some str => [member gap (fst kv) str]
                          | None => []
                          end) props in
    Some (wrap 123 125 gap indent (indent ++ gap) partial)
  end.

(** [JSON.stringify(value, null, space)] where [gap] is the text of
    [space] ([[]] when the argument is left out, two spaces for [2]). *)
Definition stringify (v : jsval) (gap : jsstring) : option jsstring :=
  serialize gap [] v.

(** *** parse: code units to tokens *)

Inductive token : Type :=
| TLBrace | TRBrace | TLBracket | TRBracket | TColon | TComma
| TString (s : jsstring)
| TNumber (n : Z)
| TTrue | TFalse | TNull.

(** Where the lexer is; the accumulators are reversed. *)
Inductive mode : Type :=
| MDefault
| MString (acc : jsstring)
| MEscape (acc : jsstring)
| MUnicode (acc : jsstring) (remaining : nat) (code : N)
| MMinus
| MNumber (neg : bool) (acc : Decimal.uint)
| MLiteral (rest : jsstring) (tok : token).

Definition is_ws (c : N) : bool :=
  ((c =? 32) || (c =? 9) || (c =? 10) || (c =? 13))%N.

Definition digit_of (c : N) : option (Decimal.uint -> Decimal.uint) :=
  if (c =? 48)%N then Some Decimal.D0
  else if (c =? 49)%N then Some Decimal.D1
  else if (c =? 50)%N then Some Decimal.D2
  else if (c =? 51)%N then Some Decimal.D3
  else if (c =? 52)%N then Some Decimal.D4
  else if (c =? 53)%N then Some Decimal.D5
  else if (c =? 54)%N then Some Decimal.D6
  else if (c =? 55)%N then Some Decimal.D7
  else if (c =? 56)%N then Some Decimal.D8
  else if (c =? 57)%N then Some Decimal.D9
  else None.

Definition hex_value (c : N) : option N :=
  if ((48 <=? c) && (c <=? 57))%N then Some (c - 48)%N
  else if ((97 <=? c) && (c <=? 102))%N then Some (c - 87)%N
  else if ((65 <=? c) && (c <=? 70))%N then Some (c - 55)%N
  else None.

(** The digits read so far make a number token: no leading zero (the
    digits are their own normal form), and the value within the modelled
    range. *)
Definition finish_number (neg : bool) (acc : Decimal.uint) : result token :=
  let d := Decimal.rev acc in
  if Decimal.uint_beq (Decimal.unorm d) d then
    let n := Z.of_N (N.of_uint d) in
    if n <=? max_safe_integer then Ok (TNumber (if neg then - n else n))
    else Throw OutOfModel
  else Throw SyntaxError.

Definition default_step (c : N) (out : list token) : result (mode * list token) :=
  if is_ws c then Ok (MDefault, out)
  else if (c =? 123)%N then Ok (MDefault, TLBrace :: out)
  else if (c =? 125)%N then Ok (MDefault, TRBrace :: out)
  else if (c =? 91)%N then Ok (MDefault, TLBracket :: out)
  else if (c =? 93)%N then Ok (MDefault, TRBracket :: out)
  else if (c =? 58)%N then Ok (MDefault, TColon :: out)
  else if (c =? 44)%N then Ok (MDefault, TComma :: out)
  else if (c =? 34)%N then Ok (MString [], out)
  else if (c =? 45)%N then Ok (MMinus, out)
  else if (c =? 116)%N then Ok (MLiteral (js "rue") TTrue, out)
  else if (c =? 102)%N then Ok (MLiteral (js "alse") TFalse, out)
  else if (c =? 110)%N then Ok (MLiteral (js "ull") TNull, out)
  else match digit_of c with
       | Some dk => Ok (MNumber false (dk Decimal.Nil), out)
       | None => Throw SyntaxError
       end.

Definition unescape (c : N) : option N :=
  if (c =? 34)%N then Some 34%N
  else if (c =? 92)%N then Some 92%N
  else if (c =? 47)%N then Some 47%N
  else if (c =? 98)%N then Some 8%N
  else if (c =? 102)%N then Some 12%N
  else if (c =? 110)%N then Some 10%N
  else if (c =? 114)%N then Some 13%N
  else if (c =? 116)%N then Some 9%N
  else None.

Definition step (st : mode * list token) (c : N) : result (mode * list token) :=
  let '(m, out) := st in
  match m with
  | MDefault => default_step c out
  | MString acc =>
    if (c =? 34)%N then Ok (MDefault, TString (rev acc) :: out)
    else if (c =? 92)%N then Ok (MEscape acc, out)
    else if (c <? 32)%N then Throw SyntaxError
    else Ok (MString (c :: acc), out)
  | MEscape acc =>
    if (c =? 117)%N then Ok (MUnicode acc 3 0%N, out)
    else match unescape c with
         | Some u => Ok (MString (u :: acc), out)
         | None => Throw SyntaxError
         end
  | MUnicode acc remaining code =>
    match hex_value c with
    | Some h =>
      let code' := (code * 16 + h)%N in
      match remaining with
      | O => Ok (MString (code' :: acc), out)
      | S remaining' => Ok (MUnicode acc remaining' code', out)
      end
    | None => Throw SyntaxError
    end
  | MMinus =>
    match digit_of c with
    | Some dk => Ok (MNumber true (dk Decimal.Nil), out)
    | None => Throw SyntaxError
    end
  | MNumber neg acc =>
    match digit_of c with
    | Some dk => Ok (MNumber neg (dk acc), out)
    | None =>
      if ((c =? 46) || (c =? 101) || (c =? 69))%N then Throw OutOfModel
      else do t <- finish_number neg acc; default_step c (t :: out)
    end
  | MLiteral rest tok =>
    match rest with
    | [] => Throw SyntaxError
    | e :: rest' =>
      if (c =? e)%N then
        match rest' with
        | [] => Ok (MDefault, tok :: out)
        | _ => Ok (MLiteral rest' tok, out)
        end
      else Throw SyntaxError
    end
  end.

Definition finish (st : mode * list token) : result (list token) :=
  let '(m, out) := st in
  match m with
  | MDefault => Ok (rev out)
  | MNumber neg acc => do t <- finish_number neg acc; Ok (rev (t :: out))
  | _ => Throw SyntaxError
  end.

Fixpoint lex_from (s : jsstring) (st : mode * list token) : result (list token) :=
  match s with
  | [] => finish st
  | c :: s' => do st' <- step st c; lex_from s' st'
  end.

Definition lex (s : jsstring) : result (list token) := lex_from s (MDefault, []).

(** *** parse: tokens to a value *)

(** CreateDataProperty on the object under construction: a repeated key
    takes the new value and keeps its place. *)
Fixpoint set_prop (k : jsstring) (v : jsval) (props : list (jsstring * jsval))
  : list (jsstring * jsval) :=
  match props with
  | [] => [(k, v)]
  | (k', v') :: rest =>
    if str_eqb k k' then (k, v) :: rest else (k', v') :: set_prop k v rest
  end.

Definition build_object (members : list (jsstring * jsval)) : list (jsstring * jsval) :=
  fold_left (fun props kv => set_prop (fst kv) (snd kv) props) members [].

(** Recursive descent; every call uses up one unit of [fuel], and the
    number of tokens plus one is enough. *)
Fixpoint parse_value (fuel : nat) (ts : list token) : result (jsval * list token) :=
  match fuel with
  | O => Throw OutOfModel
  | S fuel' =>
    match ts with
    | TNull :: r => Ok (JNull, r)
    | TTrue :: r => Ok (JBool true, r)
    | TFalse :: r => Ok (JBool false, r)
    | TNumber n :: r => Ok (JNum n, r)
    | TString s :: r => Ok (JStr s, r)
    | TLBracket :: TRBracket :: r => Ok (JArr [], r)
    | TLBracket :: r =>
      do (v, r1) <- parse_value fuel' r;
      do (vs, r2) <- parse_elements fuel' r1;
      Ok (JArr (v :: vs), r2)
    | TLBrace :: TRBrace :: r => Ok (JObj [], r)
    | TLBrace :: r =>
      do (ms, r1) <- parse_members fuel' r;
      Ok (JObj (build_object ms), r1)
    | _ => Throw SyntaxError
    end
  end
with parse_elements (fuel : nat) (ts : list token) : result (list jsval * list token) :=
  match fuel with
  | O => Throw OutOfModel
  | S fuel' =>
    match ts with
    | TRBracket :: r => Ok ([], r)
    | TComma :: r =>
      do (v, r1) <- parse_value fuel' r;
      do (vs, r2) <- parse_elements fuel' r1;
      Ok (v :: vs, r2)
    | _ => Throw SyntaxError
    end
  end
with parse_members (fuel : nat) (ts : list token)
  : result (list (jsstring * jsval) * list token) :=
  match fuel with
  | O => Throw OutOfModel
  | S fuel' =>
    match ts with
    | TString k :: TColon :: r =>
      do (v, r1) <- parse_value fuel' r;
      match r1 with
      | TRBrace :: r2 => Ok ([(k, v)], r2)
      | TComma :: r2 =>
        do (ms, r3) <- parse_members fuel' r2;
        Ok ((k, v) :: ms, r3)
      | _ => Throw SyntaxError
      end
    | _ => Throw SyntaxError
    end
  end.

Definition parse (text : jsstring) : result jsval :=
  do ts <- lex text;
  do (v, rest) <- parse_value (S (length ts)) ts;
  match rest with
  | [] => Ok v
  | _ => Throw SyntaxError
  end.

(** *** The values that survive a round trip *)

Fixpoint nodup_keys (keys : list jsstring) : bool :=
  match keys with
  | [] => true
  | k :: rest => negb (existsb (str_eqb k) rest) && nodup_keys rest
  end.

(** A value as [JSON.parse] returns it: no [undefined] inside, numbers
    within the modelled range, no repeated key. *)
Fixpoint is_json (v : jsval) : bool :=
  match v with
  | JUndefined => false
  | JNull | JBool _ | JStr _ => true
  | JNum n => (Z.abs n <=? max_safe_integer)
  | JArr l => forallb is_json l
  | JObj props =>
    nodup_keys (List.map fst props) && forallb (fun kv => is_json (snd kv)) props
  end.

(** Like [is_json], with [undefined] allowed: a value that can be handed
    to [stringify]. *)
Fixpoint storable (v : jsval) : bool :=
  match v with
  | JUndefined | JNull | JBool _ | JStr _ => true
  | JNum n => (Z.abs n <=? max_safe_integer)
  | JArr l => forallb storable l
  | JObj props =>
    nodup_keys (List.map fst props) && forallb (fun kv => storable (snd kv)) props
  end.

(** What [stringify] keeps of a value: a property whose value is
    [undefined] is left out, an [undefined] array element becomes [null]. *)
Fixpoint normalize (v : jsval) : jsval :=
  match v with
  | JArr l =>
    JArr (List.map (fun x => match x with
                             | JUndefined => JNull
                             | _ => normalize x
                             end) l)
  | JObj props =>
    JObj (flat_map (fun kv => match snd kv with
                              | JUndefined => []
                              | _ => [(fst kv, normalize (snd kv))]
                              end) props)
  | _ => v
  end.

(** The tokens of the text of a value. *)
Fixpoint rest_tokens (closing : token) (parts : list (list token)) : list token :=
  match parts with
  | [] => [closing]
  | p :: ps => TComma :: p ++ rest_tokens closing ps
  end.

Definition sep_tokens (closing : token) (parts : list (list token)) : list token :=
  match parts with
  | [] => [closing]
  | p :: ps => p ++ rest_tokens closing ps
  end.

Fixpoint tokens (v : jsval) : list token :=
  match v with
  | JUndefined | JNull => [TNull]
  | JBool true => [TTrue]
  | JBool false => [TFalse]
  | JNum n => [TNumber n]
  | JStr s => [TString s]
  | JArr l => TLBracket :: sep_tokens TRBracket (List.map tokens l)
  | JObj props =>
    TLBrace :: sep_tokens TRBrace
      (List.map (fun kv => TString (fst kv) :: TColon :: tokens (snd kv)) props)
  end.

(** A text may follow a number when it does not go on with a digit, a
    fraction or an exponent. *)
Definition delimited (rest : jsstring) : Prop :=
  match rest with
  | [] => True
  | c :: _ => digit_of c = None /\ c <> 46%N /\ c <> 101%N /\ c <> 69%N
  end.

(** The text of a part of an array or object. *)
Definition text_of (gap indent : jsstring) (v : jsval) : jsstring :=
  match serialize gap indent v with
  | Some str => str
  | None => js "null"
  end.

(** The texts of the parts with the tokens each of them lexes to. *)
Definition lexes_to (part : jsstring * list token) : Prop :=
  forall rest out, delimited rest ->
    lex_from (fst part ++ rest) (MDefault, out) =
    lex_from rest (MDefault, rev (snd part) ++ out).

Definition member_tokens (kv : jsstring * jsval) : list token :=
  TString (fst kv) :: TColon :: tokens (snd kv).

(** What the parser is known to do on the tokens of a value. *)
Definition parses (v : jsval) : Prop :=
  forall fuel rest, (length (tokens v) <= fuel)%nat ->
    parse_value fuel (tokens v ++ rest) = Ok (v, rest).

(** The properties that [stringify] keeps. *)
Definition kept (props : list (jsstring * jsval)) : list (jsstring * jsval) :=
  flat_map (fun kv => match snd kv with
                      | JUndefined => []
                      | _ => [(fst kv, normalize (snd kv))]
                      end) props.

End JSON.

(** ** btoa and atob

    The two built-ins, after the HTML standard: [btoa] refuses a string
    with a code unit above 255 and encodes the others as bytes; [atob] is
    the forgiving-base64 decoder. *)

Module Base64.

(** The alphabet: index to code unit and back. *)
Definition b64_char (i : N) : N :=
  if (i <? 26)%N then (65 + i)%N
  else if (i <? 52)%N then (97 + (i - 26))%N
  else if (i <? 62)%N then (48 + (i - 52))%N
  else if (i =? 62)%N then 43%N
  else 47%N.

(** A code unit of the alphabet. *)
Definition in_alphabet (c : N) : Prop := exists i, c = b64_char i.

Definition b64_val (c : N) : option N :=
  if ((65 <=? c) && (c <=? 90))%N then Some (c - 65)%N
  else if ((97 <=? c) && (c <=? 122))%N then Some (c - 97 + 26)%N
  else if ((48 <=? c) && (c <=? 57))%N then Some (c - 48 + 52)%N
  else if (c =? 43)%N then Some 62%N
  else if (c =? 47)%N then Some 63%N
  else None.

(** The characters for a sequence of bytes, without the padding. *)
Fixpoint encode (s : jsstring) : jsstring :=
  match s with
  | [] => []
  | [x] => [b64_char (x / 4); b64_char ((x mod 4) * 16)]
  | [x; y] =>
    [b64_char (x / 4); b64_char ((x mod 4) * 16 + y / 16); b64_char ((y mod 16) * 4)]
  | x :: y :: z :: rest =>
    b64_char (x / 4) :: b64_char ((x mod 4) * 16 + y / 16)
      :: b64_char ((y mod 16) * 4 + z / 64) :: b64_char (z mod 64) :: encode rest
  end%N.

Definition padding (len : nat) : jsstring :=
  match (len mod 3)%nat with
  | 1%nat => [61; 61]%N
  | 2%nat => [61%N]
  | _ => []
  end.

Definition btoa (s : jsstring) : result jsstring :=
  if existsb (fun c => (255 <? c)%N) s then Throw InvalidCharacterError
  else Ok (encode s ++ padding (length s)).

Definition is_ascii_ws (c : N) : bool :=
  ((c =? 9) || (c =? 10) || (c =? 12) || (c =? 13) || (c =? 32))%N.

(** "If the length divides by 4, remove one or two trailing [=]." *)
Definition strip_padding (s : jsstring) : jsstring :=
  if Nat.eqb (length s mod 4) 0 then
    match rev s with
    | a :: b :: r => if (a =? 61)%N then (if (b =? 61)%N then rev r else rev (b :: r)) else s
    | _ => s
    end
  else s.

(** The bytes for a sequence of alphabet values; the bits left over at the
    end are dropped. *)
Fixpoint decode (vals : list N) : jsstring :=
  match vals with
  | a :: b :: c :: d :: rest =>
    (a * 4 + b / 16) :: ((b mod 16) * 16 + c / 4) :: ((c mod 4) * 64 + d) :: decode rest
  | [a; b; c] => [a * 4 + b / 16; (b mod 16) * 16 + c / 4]
  | [a; b] => [a * 4 + b / 16]
  | _ => []
  end%N.

Fixpoint values (s : jsstring) : option (list N) :=
  match s with
  | [] => Some []
  | c :: rest =>
    match b64_val c, values rest with
    | Some v, Some vs => Some (v :: vs)
    | _, _ => None
    end
  end.

Definition atob (s : jsstring) : result jsstring :=
  let data := strip_padding (List.filter (fun c => negb (is_ascii_ws c)) s) in
  if Nat.eqb (length data mod 4) 1 then Throw InvalidCharacterError
  else match values data with
       | Some vals => Ok (decode vals)
       | None => Throw InvalidCharacterError
       end.

End Base64.

(** ** types/index.ts *)

Module Types.

Inductive Role := RUser | RAssistant | RSystem.

Definition role_str (r : Role) : jsstring :=
  match r with
  | RUser => js "user"
  | RAssistant => js "assistant"
  | RSystem => js "system"
  end.

(** [Partial<GenerationConfig>]: every field is optional; the fractional
    sampling parameters are rationals. *)
Record GenerationConfig := {
  gc_model : option jsstring;
  gc_maxTokens : option Z;
  gc_temperature : option Q;
  gc_topP : option Q;
  gc_topK : option Z;
  gc_repetitionPenalty : option Q;
  gc_presencePenalty : option Q;
  gc_frequencyPenalty : option Q;
  gc_stopSequences : option (list jsstring);
  gc_stream : option bool
}.

Record ChatMessage := {
  msg_id : jsstring;
  msg_role : Role;
  msg_content : jsstring;
  msg_timestamp : Z;
  msg_swipes : option (list jsstring);
  msg_swipeIndex : option Z;
  msg_tokenCount : option Z;
  msg_isEdited : option bool;
  msg_generationConfig : option GenerationConfig
}.

Record ChatMetadata := {
  md_authorsNote : option jsstring;
  md_authorsNotePosition : option Z;
  md_authorsNoteDepth : option Z;
  md_worldInfoBooks : option (list jsstring);
  md_personaId : option jsstring;
  md_instructTemplate : option jsstring
}.

Record ChatSession := {
  cs_id : jsstring;
  cs_characterId : jsstring;
  cs_groupId : option jsstring;
  cs_messages : list ChatMessage;
  cs_metadata : ChatMetadata;
  cs_createdAt : Z;
  cs_updatedAt : Z
}.

(** [{ role: string; content: string }] *)
Record PromptMessage := {
  pm_role : jsstring;
  pm_content : jsstring
}.

Record CharacterData := {
  cd_name : jsstring;
  cd_description : jsstring;
  cd_personality : jsstring;
  cd_scenario : jsstring;
  cd_first_mes : jsstring;
  cd_mes_example : jsstring;
  cd_creator_notes : option jsstring;
  cd_system_prompt : option jsstring;
  cd_post_history_instructions : option jsstring;
  cd_alternate_greetings : option (list jsstring);
  cd_tags : option (list jsstring);
  cd_creator : option jsstring;
  cd_character_version : option jsstring;
  cd_extensions : option jsval
}.

(** [Character extends CharacterData] *)
Record Character := {
  ch_data : CharacterData;
  ch_id : jsstring;
  ch_avatar : option jsstring;
  ch_createdAt : Z;
  ch_updatedAt : Z;
  ch_isFavorite : bool;
  ch_chatCount : Z
}.

Inductive WorldInfoPosition :=
| before_char | after_char | before_example | after_example | depth.

(** The optional boolean flags are only ever tested for truth; an absent
    flag is [false]. *)
Record WorldInfoEntry := {
  wi_id : jsstring;
  wi_keys : list jsstring;
  wi_secondaryKeys : option (list jsstring);
  wi_content : jsstring;
  wi_comment : option jsstring;
  wi_enabled : bool;
  wi_constant : bool;
  wi_selective : bool;
  wi_position : WorldInfoPosition;
  wi_depth : option Z;
  wi_caseSensitive : bool;
  wi_matchWholeWords : bool;
  wi_useRegex : bool;
  wi_order : Z;
  wi_priority : option Z;
  wi_tokenBudget : option Z
}.

Record WorldInfoBook := {
  wb_id : jsstring;
  wb_name : jsstring;
  wb_description : option jsstring;
  wb_entries : list WorldInfoEntry;
  wb_createdAt : Z;
  wb_updatedAt : Z
}.

Record Persona := {
  pe_id : jsstring;
  pe_name : jsstring;
  pe_description : jsstring;
  pe_avatar : option jsstring;
  pe_isDefault : bool;
  pe_createdAt : Z;
  pe_updatedAt : Z
}.

Record InstructTemplate := {
  it_id : jsstring;
  it_name : jsstring;
  it_systemPromptPrefix : jsstring;
  it_systemPromptSuffix : jsstring;
  it_userPrefix : jsstring;
  it_userSuffix : jsstring;
  it_assistantPrefix : jsstring;
  it_assistantSuffix : jsstring;
  it_stopSequences : list jsstring;
  it_wrapInNewlines : bool
}.

Inductive NotePosition := note_before_char | note_after_char | note_in_chat.

Record AuthorsNote := {
  an_content : jsstring;
  an_position : NotePosition;
  an_depth : Z;
  an_role : Role
}.

Record PromptContext := {
  pc_character : CharacterData;
  pc_chatHistory : list ChatMessage;
  pc_worldInfo : option (list WorldInfoBook);
  pc_persona : option Persona;
  pc_authorsNote : option AuthorsNote;
  pc_systemPrompt : option jsstring;
  pc_instructTemplate : option InstructTemplate;
  pc_maxContextTokens : Z
}.

Record PromptResult := {
  res_messages : list PromptMessage;
  res_tokenCount : Z;
  res_truncated : bool
}.

End Types.

(** ** Operations of the language on values *)

Module JsValue.

(** [typeof v === 'object'] *)
Definition typeof_object (v : jsval) : bool :=
  match v with
  | JNull | JArr _ | JObj _ => true
  | _ => false
  end.

(** ToBoolean *)
Definition truthy (v : jsval) : bool :=
  match v with
  | JUndefined | JNull => false
  | JBool b => b
  | JNum n => negb (n =? 0)
  | JStr s => negb (Nat.eqb (length s) 0)
  | JArr _ | JObj _ => true
  end.

(** First property with the given key. *)
Fixpoint lookup (k : jsstring) (props : list (jsstring * jsval)) : jsval :=
  match props with
  | [] => JUndefined
  | (k', v) :: rest => if str_eqb k k' then v else lookup k rest
  end.

(** The index a key denotes in an array or string of the given length. *)
Definition index_of_key (k : jsstring) (len : nat) : option nat :=
  List.find (fun i => str_eqb k (JSON.number_to_string (Z.of_nat i))) (seq 0 len).

(** [v[k]] for a receiver that is neither [null] nor [undefined]. The
    keys looked up in this development are never inherited ones. *)
Definition get_prop (k : jsstring) (v : jsval) : jsval :=
  match v with
  | JObj props => lookup k props
  | JArr l =>
    if str_eqb k (js "length") then JNum (Z.of_nat (length l))
    else match index_of_key k (length l) with
         | Some i => nth i l JUndefined
         | None => JUndefined
         end
  | JStr s =>
    if str_eqb k (js "length") then JNum (Z.of_nat (length s))
    else match index_of_key k (length s) with
         | Some i => JStr (firstn 1 (skipn i s))
         | None => JUndefined
         end
  | _ => JUndefined
  end.

(** [k in v] for an object or array [v] *)
Definition has_prop (k : jsstring) (v : jsval) : bool :=
  match v with
  | JObj props => existsb (fun kv => str_eqb k (fst kv)) props
  | JArr l =>
    str_eqb k (js "length") ||
    match index_of_key k (length l) with Some _ => true | None => false end
  | _ => false
  end.

(** [v || ''] *)
Definition or_empty (v : jsval) : jsval := if truthy v then v else JStr [].

(** [String(v)] *)
Fixpoint to_string (v : jsval) : jsstring :=
  match v with
  | JUndefined => js "undefined"
  | JNull => js "null"
  | JBool true => js "true"
  | JBool false => js "false"
  | JNum n => JSON.number_to_string n
  | JStr s => s
  | JArr l =>
    Str.join [44%N] (List.map (fun x => match x with
                                        | JUndefined | JNull => []
                                        | _ => to_string x
                                        end) l)
  | JObj _ => js "[object Object]"
  end.

End JsValue.

(** ** core/character/parser *)

Module Parser.
Import JsValue.

(** The [data] object of a card as the parser builds it: the type
    annotations are erased at run time, so a field holds whatever value the
    input had. An absent property is [JUndefined]. *)
Record CardData := {
  name : jsval;
  description : jsval;
  personality : jsval;
  scenario : jsval;
  first_mes : jsval;
  mes_example : jsval;
  creator_notes : jsval;
  system_prompt : jsval;
  post_history_instructions : jsval;
  alternate_greetings : jsval;
  tags : jsval;
  creator : jsval;
  character_version : jsval;
  extensions : jsval
}.

Record CharacterCard := {
  spec : jsstring;
  spec_version : jsstring;
  data : CardData
}.

Definition isV2Card (data : jsval) : bool :=
  typeof_object data &&
  negb (match data with JNull => true | _ => false end) &&
  has_prop (js "spec") data &&
  match get_prop (js "spec") data with
  | JStr s => str_eqb s (js "chara_card_v2")
  | _ => false
  end.

Definition isV1Card (data : jsval) : bool :=
  typeof_object data &&
  negb (match data with JNull => true | _ => false end) &&
  has_prop (js "name") data &&
  has_prop (js "description") data &&
  has_prop (js "first_mes") data &&
  negb (has_prop (js "spec") data).

Definition convertV1ToV2 (v1Card : jsval) : CharacterCard :=
  {| spec := js "chara_card_v2";
     spec_version := js "2.0";
     data := {|
       name := or_empty (get_prop (js "name") v1Card);
       description := or_empty (get_prop (js "description") v1Card);
       personality := or_empty (get_prop (js "personality") v1Card);
       scenario := or_empty (get_prop (js "scenario") v1Card);
       first_mes := or_empty (get_prop (js "first_mes") v1Card);
       mes_example := or_empty (get_prop (js "mes_example") v1Card);
       creator_notes := JUndefined;
       system_prompt := JUndefined;
       post_history_instructions := JUndefined;
       alternate_greetings := JUndefined;
       tags := JUndefined;
       creator := JUndefined;
       character_version := JUndefined;
       extensions := JUndefined |} |}.

(** [x ? String(x) : undefined] *)
Definition string_or_undefined (x : jsval) : jsval :=
  if truthy x then JStr (to_string x) else JUndefined.

(** [Array.isArray(x) ? x.map(String) : undefined] *)
Definition strings_or_undefined (x : jsval) : jsval :=
  match x with
  | JArr l => JArr (List.map (fun e => JStr (to_string e)) l)
  | _ => JUndefined
  end.

Definition extractCharacterData (obj : jsval) : CardData :=
  {| name := JStr (to_string (or_empty (get_prop (js "name") obj)));
     description := JStr (to_string (or_empty (get_prop (js "description") obj)));
     personality := JStr (to_string (or_empty (get_prop (js "personality") obj)));
     scenario := JStr (to_string (or_empty (get_prop (js "scenario") obj)));
     first_mes :=
       JStr (to_string
               (if truthy (get_prop (js "first_mes") obj) then get_prop (js "first_mes") obj
                else or_empty (get_prop (js "first_message") obj)));
     mes_example :=
       JStr (to_string
               (if truthy (get_prop (js "mes_example") obj) then get_prop (js "mes_example") obj
                else or_empty (get_prop (js "example_dialogue") obj)));
     creator_notes := string_or_undefined (get_prop (js "creator_notes") obj);
     system_prompt := string_or_undefined (get_prop (js "system_prompt") obj);
     post_history_instructions :=
       string_or_undefined (get_prop (js "post_history_instructions") obj);
     alternate_greetings := strings_or_undefined (get_prop (js "alternate_greetings") obj);
     tags := strings_or_undefined (get_prop (js "tags") obj);
     creator := string_or_undefined (get_prop (js "creator") obj);
     character_version := string_or_undefined (get_prop (js "character_version") obj);
     extensions := get_prop (js "extensions") obj |}.

Definition validateV2Card (card : jsval) : result CharacterCard :=
  let d := get_prop (js "data") card in
  if negb (truthy d) then Throw (Error (js "V2 card missing data field"))
  else if negb (truthy (get_prop (js "name") d))
  then Throw (Error (js "Character name is required"))
  else
    Ok {| spec := js "chara_card_v2";
          spec_version := js "2.0";
          data := {|
            name := get_prop (js "name") d;
            description := or_empty (get_prop (js "description") d);
            personality := or_empty (get_prop (js "personality") d);
            scenario := or_empty (get_prop (js "scenario") d);
            first_mes := or_empty (get_prop (js "first_mes") d);
            mes_example := or_empty (get_prop (js "mes_example") d);
            creator_notes := get_prop (js "creator_notes") d;
            system_prompt := get_prop (js "system_prompt") d;
            post_history_instructions := get_prop (js "post_history_instructions") d;
            alternate_greetings := get_prop (js "alternate_greetings") d;
            tags := get_prop (js "tags") d;
            creator := get_prop (js "creator") d;
            character_version := get_prop (js "character_version") d;
            extensions := get_prop (js "extensions") d |} |}.

(** The part of [parseCharacterCard] after [JSON.parse]. *)
Definition card_of_value (data : jsval) : result CharacterCard :=
  if isV2Card data then validateV2Card data
  else if isV1Card data then Ok (convertV1ToV2 data)
  else
    let fromRoot :=
      if typeof_object data && negb (match data with JNull => true | _ => false end)
         && has_prop (js "name") data
      then Ok {| spec := js "chara_card_v2"; spec_version := js "2.0";
                 data := extractCharacterData data |}
      else Throw (Error (js "Invalid character card format")) in
    if typeof_object data && negb (match data with JNull => true | _ => false end) then
      if has_prop (js "data") data && typeof_object (get_prop (js "data") data) then
        let nestedData := get_prop (js "data") data in
        match nestedData with
        | JNull => Throw TypeError (* 'name' in null *)
        | _ =>
          if has_prop (js "name") nestedData
          then Ok {| spec := js "chara_card_v2"; spec_version := js "2.0";
                     data := extractCharacterData nestedData |}
          else fromRoot
        end
      else fromRoot
    else fromRoot.

Definition parseCharacterCard (jsonString : jsstring) : result CharacterCard :=
  do data <- JSON.parse jsonString;
  card_of_value data.

(** A typed [CharacterData] as the object it is at run time. *)
Definition opt_string (o : option jsstring) : jsval :=
  match o with Some s => JStr s | None => JUndefined end.

Definition opt_strings (o : option (list jsstring)) : jsval :=
  match o with Some l => JArr (List.map JStr l) | None => JUndefined end.

Definition data_fields (d : Types.CharacterData) : CardData :=
  {| name := JStr (Types.cd_name d);
     description := JStr (Types.cd_description d);
     personality := JStr (Types.cd_personality d);
     scenario := JStr (Types.cd_scenario d);
     first_mes := JStr (Types.cd_first_mes d);
     mes_example := JStr (Types.cd_mes_example d);
     creator_notes := opt_string (Types.cd_creator_notes d);
     system_prompt := opt_string (Types.cd_system_prompt d);
     post_history_instructions := opt_string (Types.cd_post_history_instructions d);
     alternate_greetings := opt_strings (Types.cd_alternate_greetings d);
     tags := opt_strings (Types.cd_tags d);
     creator := opt_string (Types.cd_creator d);
     character_version := opt_string (Types.cd_character_version d);
     extensions := default JUndefined (Types.cd_extensions d) |}.

(** [generateId()] and [getCurrentTimestamp()] are the arguments [id] and
    [now]. *)
Definition createCharacterFromData (data : Types.CharacterData) (avatar : option jsstring)
           (id : jsstring) (now : Z) : Types.Character :=
  {| Types.ch_data := data;
     Types.ch_id := id;
     Types.ch_avatar := avatar;
     Types.ch_createdAt := now;
     Types.ch_updatedAt := now;
     Types.ch_isFavorite := false;
     Types.ch_chatCount := 0 |}.

(** [const { id, avatar, createdAt, updatedAt, isFavorite, chatCount, ...data } = character] *)
Definition exportToV2Card (character : Types.Character) : CharacterCard :=
  {| spec := js "chara_card_v2";
     spec_version := js "2.0";
     data := data_fields (Types.ch_data character) |}.

(** The card object handed to [JSON.stringify]. *)
Definition data_props (d : CardData) : list (jsstring * jsval) :=
       [(js "name", name d);
        (js "description", description d);
        (js "personality", personality d);
        (js "scenario", scenario d);
        (js "first_mes", first_mes d);
        (js "mes_example", mes_example d);
        (js "creator_notes", creator_notes d);
        (js "system_prompt", system_prompt d);
        (js "post_history_instructions", post_history_instructions d);
        (js "alternate_greetings", alternate_greetings d);
        (js "tags", tags d);
        (js "creator", creator d);
        (js "character_version", character_version d);
        (js "extensions", extensions d)].

Definition data_to_value (d : CardData) : jsval := JObj (data_props d).

Definition card_to_value (card : CharacterCard) : jsval :=
  JObj [(js "spec", JStr (spec card));
        (js "spec_version", JStr (spec_version card));
        (js "data", data_to_value (data card))].

(** [JSON.stringify(card)], which is a string since the card is an object. *)
Definition stringify_card (card : CharacterCard) (gap : jsstring) : jsstring :=
  match JSON.stringify (card_to_value card) gap with
  | Some text => text
  | None => []
  end.

Definition exportCharacterToJson (character : Types.Character) (pretty : bool) : jsstring :=
  let card := exportToV2Card character in
  if pretty then stringify_card card (js "  ") else stringify_card card [].

(** A character that the codec has to carry over: the name is not empty
    and the extensions, when present, are a JSON value. *)
Definition valid_data (d : Types.CharacterData) : bool :=
  negb (Nat.eqb (length (Types.cd_name d)) 0) &&
  match Types.cd_extensions d with
  | Some v => JSON.is_json v
  | None => true
  end.

Definition sample_data (name : jsstring) : Types.CharacterData :=
  {| Types.cd_name := name; Types.cd_description := js "d";
     Types.cd_personality := js "p"; Types.cd_scenario := js "s";
     Types.cd_first_mes := js "hi"; Types.cd_mes_example := [];
     Types.cd_creator_notes := None; Types.cd_system_prompt := None;
     Types.cd_post_history_instructions := None; Types.cd_alternate_greetings := None;
     Types.cd_tags := Some [js "t1"]; Types.cd_creator := None;
     Types.cd_character_version := None;
     Types.cd_extensions := Some (JObj [(js "world", JStr (js "w"))]) |}.





(** [validateCharacterData(data)] reads the name and the description of
    a partial [CharacterData]; [None] is an absent property. *)
Definition validateCharacterData (name description : option jsstring) : list jsstring :=
  let errors1 :=
    match name with
    | Some n =>
      if (Nat.eqb (length n) 0 || Nat.eqb (length (Str.trim n)) 0)%bool
      then [js "Character name is required"] else []
    | None => [js "Character name is required"]
    end in
  let errors2 :=
    match name with
    | Some n =>
      if (negb (Nat.eqb (length n) 0) && (100 <? Z.of_nat (length n)))%bool
      then [js "Character name must be 100 characters or less"] else []
    | None => []
    end in
  let errors3 :=
    match description with
    | Some d =>
      if (negb (Nat.eqb (length d) 0) && (50000 <? Z.of_nat (length d)))%bool
      then [js "Description must be 50000 characters or less"] else []
    | None => []
    end in
  errors1 ++ errors2 ++ errors3.

(** A generation-2 card object with the given name and nothing else. *)
Definition v2_card_named (n : jsstring) : jsval :=
  JObj [(js "spec", JStr (js "chara_card_v2")); (js "spec_version", JStr (js "2.0"));
        (js "data", JObj [(js "name", JStr n)])].

End Parser.

(** ** core/character/png-embed *)

Module PngEmbed.

Definition PNG_SIGNATURE : list Z := [137; 80; 78; 71; 13; 10; 26; 10].
Definition CHARA_KEYWORD : jsstring := js "chara".

(** A [Uint8Array] is the list of its bytes. Reading outside of it gives
    [undefined], which the uses below ([<<], [|], [String.fromCharCode],
    comparison with a non-zero byte) treat as they treat 0. *)
Definition byte_at (bytes : list Z) (i : Z) : Z :=
  if i <? 0 then 0 else nth (Z.to_nat i) bytes 0.

(** [bytes[i] = binaryString.charCodeAt(i)] for every [i] *)
Definition bytes_of_binary (binaryString : jsstring) : list Z :=
  List.map (fun c => Z.of_N c mod 256) binaryString.

(** [String.fromCharCode(...bytes)] *)
Definition binary_of_bytes (bytes : list Z) : jsstring :=
  List.map Z.to_N bytes.

(** [bytes.slice(start, end)], with the relative indices of the language *)
Definition clamp_index (len i : Z) : Z :=
  if i <? 0 then Z.max (len + i) 0 else Z.min i len.

Definition slice (bytes : list Z) (start stop : Z) : list Z :=
  let len := Z.of_nat (length bytes) in
  let k := clamp_index len start in
  let final := clamp_index len stop in
  firstn (Z.to_nat (Z.max (final - k) 0)) (skipn (Z.to_nat k) bytes).

Definition slice_from (bytes : list Z) (start : Z) : list Z :=
  slice bytes start (Z.of_nat (length bytes)).

(** [(b0 << 24) | (b1 << 16) | (b2 << 8) | b3], a signed 32-bit integer *)
Definition read_int32 (bytes : list Z) (offset : Z) : Z :=
  let u := Z.lor (Z.lor (Z.lor (Z.shiftl (byte_at bytes offset) 24)
                               (Z.shiftl (byte_at bytes (offset + 1)) 16))
                        (Z.shiftl (byte_at bytes (offset + 2)) 8))
                 (byte_at bytes (offset + 3)) in
  if 2147483648 <=? u then u - 4294967296 else u.

(** [String.fromCharCode(bytes[offset], ..., bytes[offset + 3])] *)
Definition read_type (bytes : list Z) (offset : Z) : jsstring :=
  [Z.to_N (byte_at bytes offset); Z.to_N (byte_at bytes (offset + 1));
   Z.to_N (byte_at bytes (offset + 2)); Z.to_N (byte_at bytes (offset + 3))].

(** The keyword of a text chunk: the bytes before the first zero. *)
Fixpoint null_index (chunkData : list Z) : nat :=
  match chunkData with
  | [] => 0%nat
  | b :: rest => if b =? 0 then 0%nat else S (null_index rest)
  end.

Definition keyword_of (chunkData : list Z) : jsstring :=
  binary_of_bytes (firstn (null_index chunkData) chunkData).

Definition check_signature (bytes : list Z) : result unit :=
  if forallb (fun i => byte_at bytes (Z.of_nat i) =? nth i PNG_SIGNATURE 0) (seq 0 8)
  then Ok tt else Throw (Error (js "Invalid PNG signature")).

(** How a chunk loop goes on: [fuel] bounds the number of iterations, and
    running out of it is reported as [OutOfModel] (a negative length field
    can send the loop backwards). *)
Fixpoint extract_loop (fuel : nat) (bytes : list Z) (offset : Z)
  : result (option Parser.CharacterCard) :=
  match fuel with
  | O => Throw OutOfModel
  | S fuel' =>
    if offset <? Z.of_nat (length bytes) then
      let length := read_int32 bytes offset in
      let offset := offset + 4 in
      let type := read_type bytes offset in
      let offset := offset + 4 in
      let chunkData := slice bytes offset (offset + length) in
      if str_eqb type (js "tEXt") && str_eqb (keyword_of chunkData) CHARA_KEYWORD then
        let textBytes := slice_from chunkData (Z.of_nat (null_index chunkData) + 1) in
        let base64Text := binary_of_bytes textBytes in
        do jsonString <- Base64.atob base64Text;
        do card <- Parser.parseCharacterCard jsonString;
        Ok (Some card)
      else
        let offset := offset + (length + 4) in
        if str_eqb type (js "IEND") then Ok None
        else extract_loop fuel' bytes offset
    else Ok None
  end.

(** [try { ... } catch (error) { return null }] *)
Definition catch_null {A} (r : result (option A)) : result (option A) :=
  match r with
  | Ok x => Ok x
  | Throw OutOfModel => Throw OutOfModel
  | Throw _ => Ok None
  end.

Definition extractCharacterFromPng (base64Data : jsstring)
  : result (option Parser.CharacterCard) :=
  catch_null
    (do binaryString <- Base64.atob base64Data;
     let bytes := bytes_of_binary binaryString in
     do _ <- check_signature bytes;
     extract_loop (S (length bytes)) bytes 8).

(** TextEncoder: UTF-8 of a string of UTF-16 code units; a lone surrogate
    is encoded as U+FFFD. *)
Definition utf8_of_code_point (cp : Z) : list Z :=
  if cp <? 128 then [cp]
  else if cp <? 2048 then [192 + cp / 64; 128 + cp mod 64]
  else if cp <? 65536 then [224 + cp / 4096; 128 + (cp / 64) mod 64; 128 + cp mod 64]
  else [240 + cp / 262144; 128 + (cp / 4096) mod 64; 128 + (cp / 64) mod 64; 128 + cp mod 64].

Fixpoint utf8_encode (s : jsstring) : list Z :=
  match s with
  | [] => []
  | c :: s' =>
    if JSON.is_high_surrogate c then
      match s' with
      | d :: s'' =>
        if JSON.is_low_surrogate d
        then utf8_of_code_point (65536 + (Z.of_N c - 55296) * 1024 + (Z.of_N d - 56320))
               ++ utf8_encode s''
        else utf8_of_code_point 65533 ++ utf8_encode s'
      | [] => utf8_of_code_point 65533
      end
    else if JSON.is_low_surrogate c then utf8_of_code_point 65533 ++ utf8_encode s'
    else utf8_of_code_point (Z.of_N c) ++ utf8_encode s'
  end.

(** The CRC of PNG; the 32-bit words are kept as their unsigned values. *)
Definition crc_table_entry (n : Z) : Z :=
  Nat.iter 8 (fun c => if Z.testbit c 0 then Z.lxor 3988292384 (Z.shiftr c 1)
                       else Z.shiftr c 1) n.

Definition crcTable : list Z := List.map (fun n => crc_table_entry (Z.of_nat n)) (seq 0 256).

Definition calculateCRC32 (data : list Z) : Z :=
  let crc :=
    fold_left (fun crc b =>
                 Z.lxor (nth (Z.to_nat (Z.land (Z.lxor crc b) 255)) crcTable 0)
                        (Z.shiftr crc 8))
              data 4294967295 in
  Z.lxor crc 4294967295.

(** [(x >> k) & 0xff] *)
Definition byte_of (x k : Z) : Z := Z.land (Z.shiftr x k) 255.

Definition createTextChunk (keyword text : jsstring) : list Z :=
  let keywordBytes := utf8_encode keyword in
  let textBytes := utf8_encode text in
  let dataLength := Z.of_nat (length keywordBytes + 1 + length textBytes) in
  let head := [byte_of dataLength 24; byte_of dataLength 16; byte_of dataLength 8;
               Z.land dataLength 255] in
  let typeAndData := [116; 69; 88; 116] ++ keywordBytes ++ [0] ++ textBytes in
  let crc := calculateCRC32 typeAndData in
  head ++ typeAndData ++ [byte_of crc 24; byte_of crc 16; byte_of crc 8; Z.land crc 255].

(** The loop of [removeExistingCharaChunk]; it returns the chunks kept. *)
Fixpoint remove_loop (fuel : nat) (bytes : list Z) (offset : Z) : result (list (list Z)) :=
  match fuel with
  | O => Throw OutOfModel
  | S fuel' =>
    if offset <? Z.of_nat (length bytes) then
      let length := read_int32 bytes offset in
      let type := read_type bytes (offset + 4) in
      let chunkEnd := offset + 12 + length in
      let chunk := slice bytes offset chunkEnd in
      let keep :=
        if str_eqb type (js "tEXt") then
          let chunkData := slice bytes (offset + 8) (offset + 8 + length) in
          negb (str_eqb (keyword_of chunkData) CHARA_KEYWORD)
        else true in
      let chunks := if keep then [chunk] else [] in
      if str_eqb type (js "IEND") then Ok chunks
      else do rest <- remove_loop fuel' bytes chunkEnd; Ok (chunks ++ rest)
    else Ok []
  end.

Definition removeExistingCharaChunk (bytes : list Z) : result (list Z) :=
  do chunks <- remove_loop (S (length bytes)) bytes 8;
  Ok (concat (slice bytes 0 8 :: chunks)).

(** The loop that looks for the offset of the IEND chunk; without one the
    position is the length of the image. *)
Fixpoint find_iend (fuel : nat) (bytes : list Z) (offset : Z) : result Z :=
  match fuel with
  | O => Throw OutOfModel
  | S fuel' =>
    if offset <? Z.of_nat (length bytes) then
      let length := read_int32 bytes offset in
      let type := read_type bytes (offset + 4) in
      if str_eqb type (js "IEND") then Ok offset
      else find_iend fuel' bytes (offset + (12 + length))
    else Ok (Z.of_nat (length bytes))
  end.

Definition embedCharacterIntoPng (base64PngData : jsstring) (character : Types.Character)
  : result jsstring :=
  do binaryString <- Base64.atob base64PngData;
  let bytes := bytes_of_binary binaryString in
  do _ <- check_signature bytes;
  let card := Parser.exportToV2Card character in
  let jsonString := Parser.stringify_card card [] in
  do base64Json <- Base64.btoa jsonString;
  let textChunk := createTextChunk CHARA_KEYWORD base64Json in
  do _ <- find_iend (S (length bytes)) bytes 8;
  do cleanedBytes <- removeExistingCharaChunk bytes;
  do insertPosition <- find_iend (S (length cleanedBytes)) cleanedBytes 8;
  let newBytes := slice cleanedBytes 0 insertPosition ++ textChunk
                  ++ slice_from cleanedBytes insertPosition in
  Base64.btoa (binary_of_bytes newBytes).

Definition pngHasCharacterData (base64Data : jsstring) : result bool :=
  do r <- extractCharacterFromPng base64Data;
  Ok (match r with Some _ => true | None => false end).

(** The chunks of an image, to count the embedded ones: [(type, data)]
    from offset 8 on, as long as the lengths stay inside the image. *)
Fixpoint chunks_of (fuel : nat) (bytes : list Z) (offset : Z) : list (jsstring * list Z) :=
  match fuel with
  | O => []
  | S fuel' =>
    let length := read_int32 bytes offset in
    if (offset + 12 + length <=? Z.of_nat (List.length bytes)) && (0 <=? length) then
      (read_type bytes (offset + 4), slice bytes (offset + 8) (offset + 8 + length))
        :: chunks_of fuel' bytes (offset + 12 + length)
    else []
  end.

Definition is_chara_chunk (chunk : jsstring * list Z) : bool :=
  str_eqb (fst chunk) (js "tEXt") && str_eqb (keyword_of (snd chunk)) CHARA_KEYWORD.

(** Number of embedded-character chunks of a base64 image. *)
Definition count_chara (base64Data : jsstring) : result nat :=
  do binaryString <- Base64.atob base64Data;
  let bytes := bytes_of_binary binaryString in
  Ok (length (List.filter is_chara_chunk (chunks_of (length bytes) bytes 8))).

(** The 1x1 image of the test suite. *)
Definition MINIMAL_PNG_BASE64 : jsstring :=
  js "iVBORw0KGgoAAAANSUhEUgAAAAEAAAABCAYAAAAfFcSJAAAADUlEQVR42mNk+M9QDwADhgGAWjR9awAAAABJRU5ErkJggg==".

Definition sample_character (name : jsstring) : Types.Character :=
  Parser.createCharacterFromData (Parser.sample_data name) None (js "id-1") 1700.

(** U+65E5 U+672C, a name outside Latin-1 *)
Definition nihon : jsstring := [26085; 26412]%N.

(** *** The chunks of an image

    An image is the signature followed by chunks, the last of which has
    the type IEND; a chunk is a length of four bytes, a type of four
    bytes, the data and a check sum of four bytes. *)
Record Chunk := {
  ck_type : jsstring;
  ck_data : list Z;
  ck_crc : list Z
}.

(** The four bytes of a length, the high byte first. *)
Definition be32 (n : Z) : list Z :=
  [byte_of n 24; byte_of n 16; byte_of n 8; Z.land n 255].

Definition chunk_bytes (c : Chunk) : list Z :=
  be32 (Z.of_nat (length (ck_data c))) ++ List.map Z.of_N (ck_type c)
  ++ ck_data c ++ ck_crc c.

Definition chunk_ok (c : Chunk) : Prop :=
  length (ck_type c) = 4%nat /\ length (ck_crc c) = 4%nat /\
  Z.of_nat (length (ck_data c)) < 2147483648.

(** A text chunk with the keyword of the character data. *)
Definition carries_character (c : Chunk) : bool :=
  str_eqb (ck_type c) (js "tEXt") && str_eqb (keyword_of (ck_data c)) CHARA_KEYWORD.

Definition image (chunks : list Chunk) (iend : Chunk) : list Z :=
  PNG_SIGNATURE ++ flat_map chunk_bytes chunks ++ chunk_bytes iend.

Definition well_formed (chunks : list Chunk) (iend : Chunk) : Prop :=
  Forall chunk_ok chunks /\
  Forall (fun c => ck_type c <> js "IEND") chunks /\
  chunk_ok iend /\ ck_type iend = js "IEND".

(** The chunk that [createTextChunk] builds for the character keyword and
    a text. *)
Definition character_chunk (text : jsstring) : Chunk :=
  let data := utf8_encode CHARA_KEYWORD ++ [0] ++ utf8_encode text in
  let crc := calculateCRC32 ([116; 69; 88; 116] ++ data) in
  {| ck_type := js "tEXt";
     ck_data := data;
     ck_crc := [byte_of crc 24; byte_of crc 16; byte_of crc 8; Z.land crc 255] |}.

(** What the chunk loop of [extractCharacterFromPng] returns at a chunk
    that carries a character. *)
Definition decode_character (c : Chunk) : result (option Parser.CharacterCard) :=
  do jsonString <-
    Base64.atob (binary_of_bytes
                   (slice_from (ck_data c) (Z.of_nat (null_index (ck_data c)) + 1)));
  do card <- Parser.parseCharacterCard jsonString;
  Ok (Some card).

(** The chunks of the 1x1 image: IHDR and IDAT, then IEND. *)
Definition minimal_chunks : list Chunk :=
  [ {| ck_type := js "IHDR";
       ck_data := [0; 0; 0; 1; 0; 0; 0; 1; 8; 6; 0; 0; 0];
       ck_crc := [31; 21; 196; 137] |};
    {| ck_type := js "IDAT";
       ck_data := [120; 218; 99; 100; 248; 207; 80; 15; 0; 3; 134; 1; 128];
       ck_crc := [90; 52; 125; 107] |} ].

Definition minimal_iend : Chunk :=
  {| ck_type := js "IEND"; ck_data := []; ck_crc := [174; 66; 96; 130] |}.

End PngEmbed.

(** ** core/tokenizer *)

Module Tokenizer.

Inductive TokenizerType := cl100k_base | p50k_base | llama | simple.

(** Both truncation functions read nothing but [content] (and [role] for
    the system-preserving one) of a message. *)
Class MessageLike (M : Type) := {
  content_of : M -> jsstring;
  role_of : M -> jsstring
}.

(** [Math.ceil(text.length / 4)] *)
Definition estimateTokens (text : jsstring) : Z :=
  (Z.of_nat (length text) + 3) / 4.

Definition countTokens (text : jsstring) (_tokenizer : TokenizerType) : Z :=
  estimateTokens text.

Section Messages.
Context {M : Type} `{MessageLike M}.

Definition countMessagesTokens (messages : list M) (tokenizer : TokenizerType) : Z :=
  fold_left (fun total msg => total + 4 + countTokens (content_of msg) tokenizer)
            messages 0 + 3.

Record TruncateResult := {
  tr_messages : list M;
  tr_truncated : bool;
  tr_removedCount : Z
}.

(** [messages.map((msg) => ({ message: msg, tokens: countTokens(msg.content) + 4 }))] *)
Definition with_tokens (tokenizer : TokenizerType) (messages : list M) : list (M * Z) :=
  List.map (fun msg => (msg, countTokens (content_of msg) tokenizer + 4)) messages.

(** One iteration of the loop [for (i = length - 1; i >= 0; i--)] of
    [truncateMessages]; the state is [(result, totalTokens, removedCount)]
    and [result.unshift(message)] is a cons. *)
Definition truncate_step (maxTokens : Z) (st : list M * Z * Z) (mt : M * Z)
  : list M * Z * Z :=
  let '(result, totalTokens, removedCount) := st in
  let '(message, tokens) := mt in
  if totalTokens + tokens <=? maxTokens
  then (message :: result, totalTokens + tokens, removedCount)
  else (result, totalTokens, removedCount + 1).

(** The whole loop. It visits the last message first, which is the order
    of [fold_right]; it starts from [result = []], [totalTokens = 3] and
    [removedCount = 0]. *)
Definition truncate_loop (maxTokens : Z) (messageTokens : list (M * Z)) : list M * Z * Z :=
  fold_right (fun mt st => truncate_step maxTokens st mt) ([], 3, 0) messageTokens.

Definition truncateMessages (messages : list M) (maxTokens : Z)
           (tokenizer : TokenizerType) : TruncateResult :=
  match messages with
  | [] => {| tr_messages := []; tr_truncated := false; tr_removedCount := 0 |}
  | _ =>
    let messageTokens := with_tokens tokenizer messages in
    let '(result, _, removedCount) := truncate_loop maxTokens messageTokens in
    {| tr_messages := result;
       tr_truncated := 0 <? removedCount;
       tr_removedCount := removedCount |}
  end.

Record PreserveResult := {
  pr_messages : list M;
  pr_truncated : bool
}.

Definition is_system (m : M) : bool := str_eqb (role_of m) (js "system").

(** One iteration of the loop of [truncateMessagesPreserveSystem]; the
    state is [(keptChat, usedTokens)]. *)
Definition preserve_step (chatBudget : Z) (st : list M * Z) (mt : M * Z)
  : list M * Z :=
  let '(keptChat, usedTokens) := st in
  let '(message, tokens) := mt in
  if usedTokens + tokens <=? chatBudget
  then (message :: keptChat, usedTokens + tokens)
  else (keptChat, usedTokens).

Definition preserve_loop (chatBudget : Z) (chatTokens : list (M * Z)) : list M * Z :=
  fold_right (fun mt st => preserve_step chatBudget st mt) ([], 0) chatTokens.

(** [let systemTokens = 3; for (const msg of systemMessages) systemTokens += ...] *)
Definition system_tokens (tokenizer : TokenizerType) (systemMessages : list M) : Z :=
  fold_left (fun acc msg => acc + (countTokens (content_of msg) tokenizer + 4))
            systemMessages 3.

Definition truncateMessagesPreserveSystem (messages : list M) (maxTokens : Z)
           (tokenizer : TokenizerType) : PreserveResult :=
  let systemMessages := List.filter is_system messages in
  let chatMessages := List.filter (fun m => negb (is_system m)) messages in
  let systemTokens := system_tokens tokenizer systemMessages in
  let chatBudget := maxTokens - systemTokens in
  if chatBudget <=? 0 then
    {| pr_messages := systemMessages;
       pr_truncated := (0 <? length chatMessages)%nat |}
  else
    let chatTokens := with_tokens tokenizer chatMessages in
    let '(keptChat, _) := preserve_loop chatBudget chatTokens in
    {| pr_messages := systemMessages ++ keptChat;
       pr_truncated := (length keptChat <? length chatMessages)%nat |}.

(** Cost of one message inside a prompt (content cost plus the
    per-message overhead) and of a list of messages; used to state the
    budget properties. *)
Definition message_cost (tokenizer : TokenizerType) (m : M) : Z :=
  countTokens (content_of m) tokenizer + 4.

Definition sum_cost (tokenizer : TokenizerType) (l : list M) : Z :=
  fold_right (fun m acc => message_cost tokenizer m + acc) 0 l.

End Messages.

Arguments TruncateResult M : clear implicits.
Arguments PreserveResult M : clear implicits.

#[global] Instance ChatMessage_like : MessageLike Types.ChatMessage := {|
  content_of := Types.msg_content;
  role_of := fun m => Types.role_str (Types.msg_role m)
|}.

#[global] Instance PromptMessage_like : MessageLike Types.PromptMessage := {|
  content_of := Types.pm_content;
  role_of := Types.pm_role
|}.

(** A chat message with the given role and content (the other fields are
    not read by the tokenizer). *)
Definition plain_message (id : jsstring) (r : Types.Role) (c : jsstring) : Types.ChatMessage :=
  {| Types.msg_id := id; Types.msg_role := r; Types.msg_content := c;
     Types.msg_timestamp := 0; Types.msg_swipes := None; Types.msg_swipeIndex := None;
     Types.msg_tokenCount := None; Types.msg_isEdited := None;
     Types.msg_generationConfig := None |}.

(** Three messages, the middle one long: contents of 0, 40 and 0 code
    units, hence costs 4, 14 and 4. *)
Definition sample_old : Types.ChatMessage := plain_message (js "m1") Types.RUser [].
Definition sample_long : Types.ChatMessage :=
  plain_message (js "m2") Types.RAssistant (repeat 97%N 40).
Definition sample_new : Types.ChatMessage := plain_message (js "m3") Types.RUser [].

(** A system message with empty content, of cost 4. *)
Definition sample_system : Types.ChatMessage := plain_message (js "m0") Types.RSystem [].

End Tokenizer.

(** ** Array.prototype.sort

    ECMAScript specifies [sort] to be stable and, for a consistent
    comparator, to order the array by it. It is modelled by the stable
    insertion sort: an element goes in front of the first element it does
    not compare greater than. *)

Module JsArray.

Fixpoint insert_sorted {A} (cmp : A -> A -> Z) (x : A) (l : list A) : list A :=
  match l with
  | [] => [x]
  | y :: l' => if cmp x y <=? 0 then x :: y :: l' else y :: insert_sorted cmp x l'
  end.

Definition sort {A} (cmp : A -> A -> Z) (l : list A) : list A :=
  fold_right (insert_sorted cmp) [] l.

(** [arr.some(f)] for a callback that may throw *)
Fixpoint some {A} (f : A -> result bool) (l : list A) : result bool :=
  match l with
  | [] => Ok false
  | x :: r => do b <- f x; if b then Ok true else some f r
  end.

(** [arr.slice(start)]: a negative [start] counts from the end *)
Definition slice_from {A} (start : Z) (l : list A) : list A :=
  let len := Z.of_nat (length l) in
  let k := if start <? 0 then Z.max (len + start) 0 else Z.min start len in
  skipn (Z.to_nat k) l.

End JsArray.

(** ** core/worldinfo *)

Module WorldInfo.
Import Types.

Section WithEngine.
Context {E : Engine}.

(** [str.replace(/[.*+?^${}()|[\]\\]/g, '\\$&')] *)
Definition regex_special (c : N) : bool :=
  existsb (N.eqb c) [46; 42; 43; 63; 94; 36; 123; 125; 40; 41; 124; 91; 93; 92]%N.

Definition escapeRegex (str : jsstring) : jsstring :=
  flat_map (fun c => if regex_special c then [92%N; c] else [c]) str.

Definition matchesKeyword (text keyword : jsstring) (entry : WorldInfoEntry)
  : result bool :=
  if (Nat.eqb (length keyword) 0 || Nat.eqb (length (Str.trim keyword)) 0)%bool then Ok false
  else
    let searchText := if wi_caseSensitive entry then text else toLowerCase text in
    let searchKey := if wi_caseSensitive entry then keyword else toLowerCase keyword in
    if wi_useRegex entry then
      let flags := if wi_caseSensitive entry then js "g" else js "gi" in
      match regexp_new keyword flags with
      | Some regex => Ok (regexp_test regex text)
      | None => (* catch: invalid regex, fall back to literal match *)
        Ok (Str.includes searchText searchKey)
      end
    else if wi_matchWholeWords entry then
      let escapedKey := escapeRegex searchKey in
      let flags := if wi_caseSensitive entry then js "g" else js "gi" in
      match regexp_new (js "\b" ++ escapedKey ++ js "\b") flags with
      | Some regex => Ok (regexp_test regex text)
      | None => Throw SyntaxError
      end
    else Ok (Str.includes searchText searchKey).

Definition matchesEntry (text : jsstring) (entry : WorldInfoEntry) : result bool :=
  if negb (wi_enabled entry) then Ok false
  else if wi_constant entry then Ok true
  else
    do primaryMatch <- JsArray.some (fun key => matchesKeyword text key entry) (wi_keys entry);
    if negb primaryMatch then Ok false
    else
      match wi_secondaryKeys entry with
      | Some (k :: ks) =>
        if wi_selective entry
        then JsArray.some (fun key => matchesKeyword text key entry) (k :: ks)
        else Ok true
      | _ => Ok true
      end.

(** [(e.priority || 0)] and [(e.order || 0)] *)
Definition priority_of (e : WorldInfoEntry) : Z := default 0 (wi_priority e).
Definition order_of (e : WorldInfoEntry) : Z := wi_order e.

(** The comparator passed to [matches.sort]. *)
Definition compare_entries (a b : WorldInfoEntry) : Z :=
  let priorityDiff := priority_of b - priority_of a in
  if negb (priorityDiff =? 0) then priorityDiff
  else order_of a - order_of b.

(** The loop [for (const entry of entries) if (matchesEntry(text, entry)) matches.push(entry)] *)
Fixpoint collect_matches (text : jsstring) (entries : list WorldInfoEntry)
  : result (list WorldInfoEntry) :=
  match entries with
  | [] => Ok []
  | entry :: rest =>
    do m <- matchesEntry text entry;
    do matches <- collect_matches text rest;
    Ok (if m then entry :: matches else matches)
  end.

Definition scanForMatches (text : jsstring) (entries : list WorldInfoEntry)
  : result (list WorldInfoEntry) :=
  do matches <- collect_matches text entries;
  Ok (JsArray.sort compare_entries matches).

Definition scanWithDepth (messages : list jsstring) (entries : list WorldInfoEntry)
           (scanDepth : Z) : result (list WorldInfoEntry) :=
  let recentMessages := JsArray.slice_from (- scanDepth) messages in
  let combinedText := Str.join [10%N] recentMessages in
  scanForMatches combinedText entries.

Definition getConstantEntries (entries : list WorldInfoEntry) : list WorldInfoEntry :=
  List.filter (fun e => wi_enabled e && wi_constant e) entries.

End WithEngine.

(** Order in which [scanForMatches] returns its matches: higher priority
    first, then lower order. *)
Definition entry_le (a b : WorldInfoEntry) : Prop :=
  priority_of b < priority_of a \/
  (priority_of a = priority_of b /\ order_of a <= order_of b).

Definition same_rank (a b : WorldInfoEntry) : bool :=
  (priority_of a =? priority_of b) && (order_of a =? order_of b).

(** [matchesEntry(text, entry)] returned [true]. *)
Definition matching {E : Engine} (text : jsstring) (entry : WorldInfoEntry) : bool :=
  match matchesEntry text entry with
  | Ok true => true
  | _ => false
  end.

(** The word-boundary pattern built from an escaped key compiles with
    the two flag strings that [matchesKeyword] passes, ['g'] for a
    case-sensitive entry and ['gi'] otherwise. *)
Definition escaped_patterns_compile (E : Engine) : Prop :=
  forall (key : jsstring) (caseSensitive : bool),
    is_Some (regexp_new (js "\b" ++ escapeRegex key ++ js "\b")
                        (if caseSensitive then js "g" else js "gi")).

(** An entry that always matches, with the given priority and order. *)
Definition constant_entry (id : jsstring) (priority : option Z) (order : Z) : WorldInfoEntry :=
  {| wi_id := id; wi_keys := []; wi_secondaryKeys := None; wi_content := id;
     wi_comment := None; wi_enabled := true; wi_constant := true; wi_selective := false;
     wi_position := before_char; wi_depth := None; wi_caseSensitive := false;
     wi_matchWholeWords := false; wi_useRegex := false; wi_order := order;
     wi_priority := priority; wi_tokenBudget := None |}.

(** An enabled, non-constant entry with one key taken as a regular
    expression. *)
Definition regex_entry (key content : jsstring) (caseSensitive : bool) : WorldInfoEntry :=
  {| wi_id := js "e"; wi_keys := [key]; wi_secondaryKeys := None; wi_content := content;
     wi_comment := None; wi_enabled := true; wi_constant := false; wi_selective := false;
     wi_position := before_char; wi_depth := None; wi_caseSensitive := caseSensitive;
     wi_matchWholeWords := false; wi_useRegex := true; wi_order := 0;
     wi_priority := None; wi_tokenBudget := None |}.

Definition single_book (entries : list WorldInfoEntry) : WorldInfoBook :=
  {| wb_id := js "b"; wb_name := js "book"; wb_description := None;
     wb_entries := entries; wb_createdAt := 0; wb_updatedAt := 0 |}.

End WorldInfo.

(** ** A small engine to run examples

    Patterns are literal text: a backslash quotes the next code unit,
    [\b] and [^] match the empty string, and a pattern whose parentheses
    do not balance is rejected, as every engine rejects it. Case mapping
    is the ASCII one. *)

Module ToyEngine.

Fixpoint balanced (p : jsstring) (open : nat) : bool :=
  match p with
  | [] => Nat.eqb open 0
  | c :: p' =>
    if N.eqb c 92 then
      match p' with
      | [] => false
      | _ :: p'' => balanced p'' open
      end
    else if N.eqb c 40 then balanced p' (S open)
    else if N.eqb c 41 then
      match open with
      | O => false
      | S n => balanced p' n
      end
    else balanced p' open
  end.

Fixpoint literal (p : jsstring) : jsstring :=
  match p with
  | [] => []
  | c :: p' =>
    if N.eqb c 92 then
      match p' with
      | [] => []
      | d :: p'' => if N.eqb d 98 then literal p'' else d :: literal p''
      end
    else if N.eqb c 94 then literal p'
    else c :: literal p'
  end.

Definition fold_case (ignoreCase : bool) (s : jsstring) : jsstring :=
  if ignoreCase then List.map Str.ascii_lower s else s.

Definition compile (pattern flags : jsstring) : option (jsstring * bool) :=
  if balanced pattern 0 then Some (literal pattern, existsb (N.eqb 105) flags) else None.

Definition test (re : jsstring * bool) (text : jsstring) : bool :=
  Str.includes (fold_case (snd re) text) (fold_case (snd re) (fst re)).

Definition match0 (re : jsstring * bool) (text : jsstring) : option jsstring :=
  if Str.starts_with (fold_case (snd re) (fst re)) (fold_case (snd re) text)
  then Some (firstn (length (fst re)) text) else None.

Definition engine : Engine := {|
  RegExp := jsstring * bool;
  regexp_new := compile;
  regexp_test := test;
  regexp_match0 := match0;
  toLowerCase := List.map Str.ascii_lower
|}.

End ToyEngine.

(** ** core/prompt *)

Module PromptBuilder.
Import Types.

Section WithEngine.
Context {E : Engine}.

Definition nonempty (s : jsstring) : bool := negb (Nat.eqb (length s) 0).

Definition buildSystemMessage (character : CharacterData) (persona : option Persona)
           (customSystemPrompt : option jsstring) : jsstring :=
  let parts1 := match customSystemPrompt with
                | Some p => if nonempty p then [p] else []
                | None => []
                end in
  let parts2 := match cd_system_prompt character with
                | Some p => if nonempty p then [p] else []
                | None => []
                end in
  let parts3 := match persona with
                | Some pe => if nonempty (pe_description pe)
                             then [js "User's persona: " ++ pe_description pe] else []
                | None => []
                end in
  Str.join [10%N; 10%N] (parts1 ++ parts2 ++ parts3).

Definition buildCharacterContext (character : CharacterData) : jsstring :=
  let parts1 := if nonempty (cd_description character)
                then [js "Character: " ++ cd_name character ++ [10%N] ++ cd_description character]
                else [] in
  let parts2 := if nonempty (cd_personality character)
                then [js "Personality: " ++ cd_personality character] else [] in
  let parts3 := if nonempty (cd_scenario character)
                then [js "Scenario: " ++ cd_scenario character] else [] in
  Str.join [10%N; 10%N] (parts1 ++ parts2 ++ parts3).

(** State of the line loop of [parseExampleMessages]:
    [(messages, currentRole, currentContent)], with [messages] and
    [currentContent] in source order. *)
Definition flush (messages : list PromptMessage) (currentRole : option jsstring)
           (currentContent : list jsstring) : list PromptMessage :=
  match currentRole, currentContent with
  | Some r, _ :: _ =>
    messages ++ [{| pm_role := r; pm_content := Str.trim (Str.join [10%N] currentContent) |}]
  | _, _ => messages
  end.

Definition example_line (characterName : jsstring)
           (st : list PromptMessage * option jsstring * list jsstring) (line : jsstring)
  : result (list PromptMessage * option jsstring * list jsstring) :=
  let '(messages, currentRole, currentContent) := st in
  (* line.match(/^<START>$/i) *)
  let userMatch := Str.starts_with_ci (js "<START>") line && Nat.eqb (length line) 7 in
  (* line.match(new RegExp(`^${characterName}:`, 'i')) *)
  match regexp_new (js "^" ++ characterName ++ js ":") (js "i") with
  | None => Throw SyntaxError
  | Some re =>
    let charMatch := regexp_match0 re line in
    (* line.match(/^{{user}}:|^User:/i) *)
    let userMsgMatch :=
      if Str.starts_with_ci (js "{{user}}:") line then Some (firstn 9 line)
      else if Str.starts_with_ci (js "User:") line then Some (firstn 5 line)
      else None in
    if userMatch then Ok (flush messages currentRole currentContent, None, [])
    else match charMatch with
    | Some m0 =>
      Ok (flush messages currentRole currentContent, Some (js "assistant"),
          [Str.trim (Str.remove_first m0 line)])
    | None =>
      match userMsgMatch with
      | Some m0 =>
        Ok (flush messages currentRole currentContent, Some (js "user"),
            [Str.trim (Str.remove_first m0 line)])
      | None =>
        match currentRole with
        | Some _ => Ok (messages, currentRole, currentContent ++ [line])
        | None => Ok (messages, currentRole, currentContent)
        end
      end
    end
  end.

Fixpoint example_lines (characterName : jsstring) (lines : list jsstring)
         (st : list PromptMessage * option jsstring * list jsstring)
  : result (list PromptMessage * option jsstring * list jsstring) :=
  match lines with
  | [] => Ok st
  | line :: rest => do st' <- example_line characterName st line;
                    example_lines characterName rest st'
  end.

Definition parseExampleMessages (mesExample characterName : jsstring)
  : result (list PromptMessage) :=
  if Nat.eqb (length (Str.trim mesExample)) 0 then Ok []
  else
    let lines := Str.split 10%N mesExample in
    do st <- example_lines characterName lines ([], None, []);
    let '(messages, currentRole, currentContent) := st in
    Ok (flush messages currentRole currentContent).

(** The callback of [entry.keys.some(...)] inside [scanAndCollectWorldInfo]. *)
Definition key_matches (scanText : jsstring) (entry : WorldInfoEntry) (key : jsstring)
  : result bool :=
  if wi_useRegex entry then
    match regexp_new key (if wi_caseSensitive entry then [] else js "i") with
    | Some regex => Ok (regexp_test regex scanText)
    | None => (* catch *) Ok false
    end
  else
    let searchKey := if wi_caseSensitive entry then key else toLowerCase key in
    let searchText := if wi_caseSensitive entry then scanText else toLowerCase scanText in
    if wi_matchWholeWords entry then
      match regexp_new (js "\b" ++ WorldInfo.escapeRegex searchKey ++ js "\b") (js "i") with
      | Some regex => Ok (regexp_test regex searchText)
      | None => Throw SyntaxError
      end
    else Ok (Str.includes searchText searchKey).

(** The inner loop over the entries of one book; [acc] is [matchedEntries]. *)
Fixpoint collect_entries (scanText : jsstring) (entries : list WorldInfoEntry)
         (acc : list WorldInfoEntry) : result (list WorldInfoEntry) :=
  match entries with
  | [] => Ok acc
  | entry :: rest =>
    if negb (wi_enabled entry) then collect_entries scanText rest acc
    else
      do matches <- JsArray.some (key_matches scanText entry) (wi_keys entry);
      if (matches || wi_constant entry)%bool
      then collect_entries scanText rest (acc ++ [entry])
      else collect_entries scanText rest acc
  end.

Fixpoint collect_books (scanText : jsstring) (books : list WorldInfoBook)
         (acc : list WorldInfoEntry) : result (list WorldInfoEntry) :=
  match books with
  | [] => Ok acc
  | book :: rest =>
    do acc' <- collect_entries scanText (wb_entries book) acc;
    collect_books scanText rest acc'
  end.

Definition scanAndCollectWorldInfo (chatHistory : list ChatMessage)
           (worldInfoBooks : list WorldInfoBook) : result jsstring :=
  let recentMessages := JsArray.slice_from (-10) chatHistory in
  let scanText := toLowerCase (Str.join [32%N] (List.map msg_content recentMessages)) in
  do matchedEntries <- collect_books scanText worldInfoBooks [];
  let sorted := JsArray.sort (fun a b => wi_order a - wi_order b) matchedEntries in
  Ok (Str.join [10%N; 10%N] (List.map wi_content sorted)).

Definition injectAuthorsNote (content : jsstring) (authorsNote : AuthorsNote) : jsstring :=
  let noteText := js "[Author's Note: " ++ an_content authorsNote ++ js "]" in
  match an_position authorsNote with
  | note_before_char => noteText ++ [10%N] ++ content
  | note_after_char => content ++ [10%N] ++ noteText
  | _ => content
  end.

Definition applyInstructTemplate (messages : list PromptMessage)
           (template : InstructTemplate) : list PromptMessage :=
  List.map (fun msg =>
    let content := pm_content msg in
    let content :=
      if str_eqb (pm_role msg) (js "system")
      then it_systemPromptPrefix template ++ content ++ it_systemPromptSuffix template
      else if str_eqb (pm_role msg) (js "user")
      then it_userPrefix template ++ content ++ it_userSuffix template
      else if str_eqb (pm_role msg) (js "assistant")
      then it_assistantPrefix template ++ content ++ it_assistantSuffix template
      else content in
    let content := if it_wrapInNewlines template then [10%N] ++ content ++ [10%N] else content in
    {| pm_role := pm_role msg; pm_content := content |}) messages.

(** One iteration of the chat-history loop of [buildPrompt]: the message
    pushed for [chatHistory[i]]. *)
Definition history_message (historyLength : nat) (authorsNote : option AuthorsNote)
           (i : nat) (msg : ChatMessage) : PromptMessage :=
  let content := msg_content msg in
  let content :=
    match authorsNote with
    | Some note =>
      match an_position note with
      | note_in_chat =>
        let depthFromEnd := Z.of_nat historyLength - 1 - Z.of_nat i in
        if depthFromEnd =? an_depth note then injectAuthorsNote content note else content
      | _ => content
      end
    | None => content
    end in
  {| pm_role := match msg_role msg with RUser => js "user" | _ => js "assistant" end;
     pm_content := content |}.

Definition buildPrompt (context : PromptContext) : result PromptResult :=
  let character := pc_character context in
  let chatHistory := pc_chatHistory context in
  let systemContent :=
    buildSystemMessage character (pc_persona context) (pc_systemPrompt context) in
  do worldInfoContent <-
    match pc_worldInfo context with
    | Some books => scanAndCollectWorldInfo chatHistory books
    | None => Ok []
    end;
  let messages1 :=
    if (nonempty systemContent || nonempty worldInfoContent)%bool then
      let fullSystemContent :=
        if nonempty worldInfoContent
        then systemContent ++ [10%N; 10%N] ++ worldInfoContent else systemContent in
      [{| pm_role := js "system"; pm_content := fullSystemContent |}]
    else [] in
  let characterContext := buildCharacterContext character in
  let messages2 :=
    if nonempty characterContext
    then [{| pm_role := js "system"; pm_content := characterContext |}] else [] in
  do messages3 <-
    (if nonempty (cd_mes_example character)
     then parseExampleMessages (cd_mes_example character) (cd_name character)
     else Ok []);
  let messages4 :=
    imap (history_message (length chatHistory) (pc_authorsNote context)) chatHistory in
  let messages := messages1 ++ messages2 ++ messages3 ++ messages4 in
  let finalMessages :=
    match pc_instructTemplate context with
    | Some template => applyInstructTemplate messages template
    | None => messages
    end in
  let totalChars :=
    fold_left (fun sum m => sum + Z.of_nat (length (pm_content m))) finalMessages 0 in
  let estimatedTokens := (totalChars + 3) / 4 in
  let truncated := pc_maxContextTokens context <? estimatedTokens in
  Ok {| res_messages := finalMessages;
        res_tokenCount := estimatedTokens;
        res_truncated := truncated |}.

End WithEngine.

(** The context with the author's note taken out. *)
Definition without_note (context : PromptContext) : PromptContext :=
  {| pc_character := pc_character context;
     pc_chatHistory := pc_chatHistory context;
     pc_worldInfo := pc_worldInfo context;
     pc_persona := pc_persona context;
     pc_authorsNote := None;
     pc_systemPrompt := pc_systemPrompt context;
     pc_instructTemplate := pc_instructTemplate context;
     pc_maxContextTokens := pc_maxContextTokens context |}.

(** The context with another token budget. *)
Definition with_budget (maxContextTokens : Z) (context : PromptContext) : PromptContext :=
  {| pc_character := pc_character context;
     pc_chatHistory := pc_chatHistory context;
     pc_worldInfo := pc_worldInfo context;
     pc_persona := pc_persona context;
     pc_authorsNote := pc_authorsNote context;
     pc_systemPrompt := pc_systemPrompt context;
     pc_instructTemplate := pc_instructTemplate context;
     pc_maxContextTokens := maxContextTokens |}.

(** The message pushed for a message of the history: its content, and
    the role [user] for a user message and [assistant] for any other. *)
Definition turn_of (msg : ChatMessage) : PromptMessage :=
  {| pm_role := match msg_role msg with RUser => js "user" | _ => js "assistant" end;
     pm_content := msg_content msg |}.

(** A context for the examples: a character with a description, one user
    message, nothing else. *)
Definition sample_context : PromptContext :=
  {| pc_character := Parser.sample_data (js "Alice");
     pc_chatHistory := [Tokenizer.plain_message (js "m1") RUser (js "hi")];
     pc_worldInfo := None; pc_persona := None; pc_authorsNote := None;
     pc_systemPrompt := None; pc_instructTemplate := None;
     pc_maxContextTokens := 4096 |}.

(** The same with the greeting of the character as the only message. *)
Definition greeting_context : PromptContext :=
  {| pc_character := Parser.sample_data (js "Alice");
     pc_chatHistory := [Tokenizer.plain_message (js "m1") RAssistant (js "Hello")];
     pc_worldInfo := None; pc_persona := None; pc_authorsNote := None;
     pc_systemPrompt := None; pc_instructTemplate := None;
     pc_maxContextTokens := 4096 |}.

(** Example messages of four lines: a start marker, a user line and two
    lines of the character. *)
Definition sample_examples : jsstring :=
  js "<START>" ++ [10%N] ++ js "{{user}}: hi" ++ [10%N] ++ js "Alice: hello" ++ [10%N]
  ++ js "there".

(** [{ valid: boolean; missing: string[] }] *)
Record Completeness := {
  vc_valid : bool;
  vc_missing : list jsstring
}.

Definition validatePromptCompleteness (result : PromptResult) (context : PromptContext)
  : Completeness :=
  let name := cd_name (pc_character context) in
  let hasCharacterContext :=
    existsb (fun m => Str.includes (pm_content m) name) (res_messages result) in
  let missing1 :=
    if (negb hasCharacterContext && nonempty name)%bool then [js "character_name"] else [] in
  let missing2 :=
    if (0 <? length (pc_chatHistory context))%nat then
      if existsb (fun m => str_eqb (pm_role m) (js "user")) (res_messages result)
      then [] else [js "chat_history"]
    else [] in
  let missing := missing1 ++ missing2 in
  {| vc_valid := Nat.eqb (length missing) 0; vc_missing := missing |}.

(** What the case mapping of every engine does to the ASCII capitals:
    none is left in a lower-cased text. *)
Definition lowercases (E : Engine) : Prop :=
  forall s c, In c (toLowerCase s) -> ~ (65 <= c <= 90)%N.

(** An enabled entry that is looked up by its keys taken literally and
    with the case of the letters kept. *)
Definition literal_entry (keys : list jsstring) (content : jsstring) : WorldInfoEntry :=
  {| wi_id := js "e"; wi_keys := keys; wi_secondaryKeys := None; wi_content := content;
     wi_comment := None; wi_enabled := true; wi_constant := false; wi_selective := false;
     wi_position := before_char; wi_depth := None; wi_caseSensitive := true;
     wi_matchWholeWords := false; wi_useRegex := false; wi_order := 0;
     wi_priority := None; wi_tokenBudget := None |}.

End PromptBuilder.

(** ** storage/database and core/chat/manager

    The store is the only state shared between two calls of the chat
    manager: [saveChatSession] writes the messages and the metadata as JSON
    text into the row of the session id, and [getChatSession] parses the
    row again, so that what a call works on is a copy of its own. A row is
    modelled by the values its texts denote. [generateId] and
    [getCurrentTimestamp] read the next value of an oracle. *)

Class Oracle := {
  uuid : nat -> jsstring;
  clock : nat -> Z
}.

Module Database.
Import Types.

(** A row of [chat_sessions] without its primary key [id], which is the
    key of the map. *)
Record Row := {
  row_character_id : jsstring;
  row_group_id : option jsstring;
  row_messages : list ChatMessage;
  row_metadata : ChatMetadata;
  row_created_at : Z;
  row_updated_at : Z
}.

Record World := {
  chat_sessions : gmap jsstring Row;
  ids_used : nat;
  ticks : nat
}.

(** A computation of the manager: it reads and writes the world and may
    throw. *)
Definition M (A : Type) : Type := World -> result (A * World).

Definition ret {A} (a : A) : M A := fun w => Ok (a, w).

Definition bind {A B} (m : M A) (k : A -> M B) : M B :=
  fun w => match m w with
           | Ok (a, w') => k a w'
           | Throw e => Throw e
           end.

Definition throw {A} (e : exn) : M A := fun _ => Throw e.

(** [x || null] and [x || undefined] on an optional string *)
Definition truthy_string (o : option jsstring) : option jsstring :=
  match o with
  | Some [] => None
  | _ => o
  end.

Section WithOracle.
Context {O : Oracle}.

Definition generateId : M jsstring :=
  fun w => Ok (uuid (ids_used w),
               {| chat_sessions := chat_sessions w;
                  ids_used := S (ids_used w);
                  ticks := ticks w |}).

Definition getCurrentTimestamp : M Z :=
  fun w => Ok (clock (ticks w),
               {| chat_sessions := chat_sessions w;
                  ids_used := ids_used w;
                  ticks := S (ticks w) |}).

(** [INSERT OR REPLACE INTO chat_sessions ...] *)
Definition saveChatSession (session : ChatSession) : M unit :=
  fun w =>
    let row := {| row_character_id := cs_characterId session;
                  row_group_id := truthy_string (cs_groupId session);
                  row_messages := cs_messages session;
                  row_metadata := cs_metadata session;
                  row_created_at := cs_createdAt session;
                  row_updated_at := cs_updatedAt session |} in
    Ok (tt, {| chat_sessions := <[cs_id session := row]> (chat_sessions w);
               ids_used := ids_used w;
               ticks := ticks w |}).

(** [SELECT * FROM chat_sessions WHERE id = ?] *)
Definition getChatSession (id : jsstring) : M (option ChatSession) :=
  fun w =>
    Ok (match chat_sessions w !! id with
        | None => None
        | Some row =>
          Some {| cs_id := id;
                  cs_characterId := row_character_id row;
                  cs_groupId := truthy_string (row_group_id row);
                  cs_messages := row_messages row;
                  cs_metadata := row_metadata row;
                  cs_createdAt := row_created_at row;
                  cs_updatedAt := row_updated_at row |}
        end, w).

(** [DELETE FROM chat_sessions WHERE id = ?] *)
Definition deleteChatSession (id : jsstring) : M unit :=
  fun w => Ok (tt, {| chat_sessions := delete id (chat_sessions w);
                      ids_used := ids_used w;
                      ticks := ticks w |}).

End WithOracle.
End Database.

Module ChatManager.
Import Types Database.

Notation "'let*' x := m 'in' k" := (Database.bind m (fun x => k))
  (at level 10, x pattern, m at level 100, k at level 200).

(** [messages.findIndex((m) => m.id === id)] *)
Fixpoint findIndex (id : jsstring) (messages : list ChatMessage) : option nat :=
  match messages with
  | [] => None
  | m :: rest => if str_eqb (msg_id m) id then Some 0%nat
                 else option_map S (findIndex id rest)
  end.

Definition with_id (id : jsstring) (m : ChatMessage) : ChatMessage :=
  {| msg_id := id; msg_role := msg_role m; msg_content := msg_content m;
     msg_timestamp := msg_timestamp m; msg_swipes := msg_swipes m;
     msg_swipeIndex := msg_swipeIndex m; msg_tokenCount := msg_tokenCount m;
     msg_isEdited := msg_isEdited m; msg_generationConfig := msg_generationConfig m |}.

Definition with_messages (messages : list ChatMessage) (updatedAt : Z) (s : ChatSession)
  : ChatSession :=
  {| cs_id := cs_id s; cs_characterId := cs_characterId s; cs_groupId := cs_groupId s;
     cs_messages := messages; cs_metadata := cs_metadata s;
     cs_createdAt := cs_createdAt s; cs_updatedAt := updatedAt |}.

Section WithOracle.
Context {O : Oracle}.

Definition session_not_found {A} (sessionId : jsstring) : M A :=
  throw (Error (js "Chat session not found: " ++ sessionId)).

Definition message_not_found {A} (messageId : jsstring) : M A :=
  throw (Error (js "Message not found: " ++ messageId)).

(** [messages.map((m) => ({ ...m, id: generateId() }))] *)
Fixpoint copy_messages (messages : list ChatMessage) : M (list ChatMessage) :=
  match messages with
  | [] => ret []
  | m :: rest =>
    let* id := generateId in
    let* rest' := copy_messages rest in
    ret (with_id id m :: rest')
  end.

Definition forkChat (sessionId fromMessageId : jsstring) : M ChatSession :=
  let* found := getChatSession sessionId in
  match found with
  | None => session_not_found sessionId
  | Some session =>
    match findIndex fromMessageId (cs_messages session) with
    | None => message_not_found fromMessageId
    | Some messageIndex =>
      let* now := getCurrentTimestamp in
      let* id := generateId in
      let* messages := copy_messages (firstn (messageIndex + 1) (cs_messages session)) in
      let forkedSession :=
        {| cs_id := id;
           cs_characterId := cs_characterId session;
           cs_groupId := cs_groupId session;
           cs_messages := messages;
           cs_metadata := cs_metadata session;
           cs_createdAt := now;
           cs_updatedAt := now |} in
      let* _ := saveChatSession forkedSession in
      ret forkedSession
    end
  end.

Definition addMessage (sessionId : jsstring) (role : Role) (content : jsstring)
  : M ChatMessage :=
  let* found := getChatSession sessionId in
  match found with
  | None => session_not_found sessionId
  | Some session =>
    let* id := generateId in
    let* timestamp := getCurrentTimestamp in
    let message :=
      {| msg_id := id; msg_role := role; msg_content := content;
         msg_timestamp := timestamp; msg_swipes := None; msg_swipeIndex := None;
         msg_tokenCount := None; msg_isEdited := None; msg_generationConfig := None |} in
    let* updatedAt := getCurrentTimestamp in
    let* _ := saveChatSession
                (with_messages (cs_messages session ++ [message]) updatedAt session) in
    ret message
  end.

(** The body shared by the operations that change one message in place. *)
Definition change_message (sessionId messageId : jsstring)
           (change : ChatMessage -> result ChatMessage) : M ChatMessage :=
  let* found := getChatSession sessionId in
  match found with
  | None => session_not_found sessionId
  | Some session =>
    match findIndex messageId (cs_messages session) with
    | None => message_not_found messageId
    | Some messageIndex =>
      match change (nth messageIndex (cs_messages session)
                        (Tokenizer.plain_message [] RUser [])) with
      | Throw e => throw e
      | Ok message =>
        let* updatedAt := getCurrentTimestamp in
        let* _ := saveChatSession
                    (with_messages (<[messageIndex := message]> (cs_messages session))
                                   updatedAt session) in
        ret message
      end
    end
  end.

Definition updateMessage (sessionId messageId newContent : jsstring) : M ChatMessage :=
  change_message sessionId messageId (fun m =>
    Ok {| msg_id := msg_id m; msg_role := msg_role m; msg_content := newContent;
          msg_timestamp := msg_timestamp m; msg_swipes := msg_swipes m;
          msg_swipeIndex := msg_swipeIndex m; msg_tokenCount := msg_tokenCount m;
          msg_isEdited := Some true; msg_generationConfig := msg_generationConfig m |}).

Definition deleteMessage (sessionId messageId : jsstring) : M unit :=
  let* found := getChatSession sessionId in
  match found with
  | None => session_not_found sessionId
  | Some session =>
    match findIndex messageId (cs_messages session) with
    | None => message_not_found messageId
    | Some messageIndex =>
      let* updatedAt := getCurrentTimestamp in
      saveChatSession
        (with_messages (firstn messageIndex (cs_messages session)
                        ++ skipn (S messageIndex) (cs_messages session))
                       updatedAt session)
    end
  end.

Definition addSwipe (sessionId messageId content : jsstring) : M ChatMessage :=
  change_message sessionId messageId (fun m =>
    let swipes := match msg_swipes m with
                  | None => [msg_content m]
                  | Some l => l
                  end ++ [content] in
    Ok {| msg_id := msg_id m; msg_role := msg_role m; msg_content := content;
          msg_timestamp := msg_timestamp m; msg_swipes := Some swipes;
          msg_swipeIndex := Some (Z.of_nat (length swipes) - 1);
          msg_tokenCount := msg_tokenCount m;
          msg_isEdited := msg_isEdited m; msg_generationConfig := msg_generationConfig m |}).

Definition setSwipeIndex (sessionId messageId : jsstring) (index : Z) : M ChatMessage :=
  change_message sessionId messageId (fun m =>
    match msg_swipes m with
    | None | Some [] => Throw (Error (js "Message has no swipes"))
    | Some swipes =>
      let clampedIndex := Z.max 0 (Z.min index (Z.of_nat (length swipes) - 1)) in
      Ok {| msg_id := msg_id m; msg_role := msg_role m;
            msg_content := nth (Z.to_nat clampedIndex) swipes [];
            msg_timestamp := msg_timestamp m; msg_swipes := Some swipes;
            msg_swipeIndex := Some clampedIndex;
            msg_tokenCount := msg_tokenCount m;
            msg_isEdited := msg_isEdited m;
            msg_generationConfig := msg_generationConfig m |}
    end).

Definition clearMessages (sessionId : jsstring) : M ChatSession :=
  let* found := getChatSession sessionId in
  match found with
  | None => session_not_found sessionId
  | Some session =>
    let* updatedAt := getCurrentTimestamp in
    let session' := with_messages [] updatedAt session in
    let* _ := saveChatSession session' in
    ret session'
  end.

(** [{ ...session.metadata, ...metadata }] for a partial [metadata] *)
Definition merge_metadata (old patch : ChatMetadata) : ChatMetadata :=
  let pick {A} (p o : option A) := match p with Some _ => p | None => o end in
  {| md_authorsNote := pick (md_authorsNote patch) (md_authorsNote old);
     md_authorsNotePosition := pick (md_authorsNotePosition patch) (md_authorsNotePosition old);
     md_authorsNoteDepth := pick (md_authorsNoteDepth patch) (md_authorsNoteDepth old);
     md_worldInfoBooks := pick (md_worldInfoBooks patch) (md_worldInfoBooks old);
     md_personaId := pick (md_personaId patch) (md_personaId old);
     md_instructTemplate := pick (md_instructTemplate patch) (md_instructTemplate old) |}.

Definition updateMetadata (sessionId : jsstring) (metadata : ChatMetadata) : M ChatSession :=
  let* found := getChatSession sessionId in
  match found with
  | None => session_not_found sessionId
  | Some session =>
    let* updatedAt := getCurrentTimestamp in
    let session' :=
      {| cs_id := cs_id session; cs_characterId := cs_characterId session;
         cs_groupId := cs_groupId session; cs_messages := cs_messages session;
         cs_metadata := merge_metadata (cs_metadata session) metadata;
         cs_createdAt := cs_createdAt session; cs_updatedAt := updatedAt |} in
    let* _ := saveChatSession session' in
    ret session'
  end.

Definition getChatSessionById (id : jsstring) : M (option ChatSession) :=
  getChatSession id.

Definition deleteChatSessionById (id : jsstring) : M unit :=
  deleteChatSession id.

(** [messages.find((m) => m.id === id)] *)
Fixpoint find_message (id : jsstring) (messages : list ChatMessage) : option ChatMessage :=
  match messages with
  | [] => None
  | m :: rest => if str_eqb (msg_id m) id then Some m else find_message id rest
  end.

Definition nextSwipe (sessionId messageId : jsstring) : M ChatMessage :=
  let* found := getChatSession sessionId in
  match found with
  | None => session_not_found sessionId
  | Some session =>
    match find_message messageId (cs_messages session) with
    | None => message_not_found messageId
    | Some message =>
      match msg_swipes message with
      | None => ret message
      | Some swipes =>
        if (length swipes <=? 1)%nat then ret message
        else
          let newIndex := Z.min (default 0 (msg_swipeIndex message) + 1)
                                (Z.of_nat (length swipes) - 1) in
          setSwipeIndex sessionId messageId newIndex
      end
    end
  end.

Definition prevSwipe (sessionId messageId : jsstring) : M ChatMessage :=
  let* found := getChatSession sessionId in
  match found with
  | None => session_not_found sessionId
  | Some session =>
    match find_message messageId (cs_messages session) with
    | None => message_not_found messageId
    | Some message =>
      match msg_swipes message with
      | None => ret message
      | Some swipes =>
        if (length swipes <=? 1)%nat then ret message
        else
          let newIndex := Z.max (default 0 (msg_swipeIndex message) - 1) 0 in
          setSwipeIndex sessionId messageId newIndex
      end
    end
  end.

Definition getLastMessage (sessionId : jsstring) : M (option ChatMessage) :=
  let* found := getChatSession sessionId in
  ret (match found with
       | None => None
       | Some session => list.last (cs_messages session)
       end).

(** [session?.messages.length || 0] *)
Definition getMessageCount (sessionId : jsstring) : M Z :=
  let* found := getChatSession sessionId in
  ret (match found with
       | None => 0
       | Some session => Z.of_nat (length (cs_messages session))
       end).

(** The mutations of one session, by name, and their run on the world. *)
Inductive Mutation :=
| AddMessage (role : Role) (content : jsstring)
| UpdateMessage (messageId newContent : jsstring)
| DeleteMessage (messageId : jsstring)
| AddSwipe (messageId content : jsstring)
| SetSwipeIndex (messageId : jsstring) (index : Z)
| UpdateMetadata (metadata : ChatMetadata)
| ClearMessages.

Definition mutate (sessionId : jsstring) (mu : Mutation) : M unit :=
  match mu with
  | AddMessage role content => let* _ := addMessage sessionId role content in ret tt
  | UpdateMessage messageId newContent =>
    let* _ := updateMessage sessionId messageId newContent in ret tt
  | DeleteMessage messageId => deleteMessage sessionId messageId
  | AddSwipe messageId content => let* _ := addSwipe sessionId messageId content in ret tt
  | SetSwipeIndex messageId index =>
    let* _ := setSwipeIndex sessionId messageId index in ret tt
  | UpdateMetadata metadata => let* _ := updateMetadata sessionId metadata in ret tt
  | ClearMessages => let* _ := clearMessages sessionId in ret tt
  end.

(** A sequence of mutations; one that throws leaves the world as it was
    and the sequence goes on. *)
Fixpoint mutate_all (sessionId : jsstring) (mus : list Mutation) (w : World) : World :=
  match mus with
  | [] => w
  | mu :: rest =>
    match mutate sessionId mu w with
    | Ok (_, w') => mutate_all sessionId rest w'
    | Throw _ => mutate_all sessionId rest w
    end
  end.

End WithOracle.

(** A message equal to another one but for the id. *)
Definition same_but_id (a b : ChatMessage) : Prop :=
  msg_role a = msg_role b /\ msg_content a = msg_content b /\
  msg_timestamp a = msg_timestamp b /\ msg_swipes a = msg_swipes b /\
  msg_swipeIndex a = msg_swipeIndex b /\ msg_tokenCount a = msg_tokenCount b /\
  msg_isEdited a = msg_isEdited b /\ msg_generationConfig a = msg_generationConfig b.

(** An oracle for the examples: ids ["u0"], ["u1"], ... and a clock that
    counts. *)
Definition counting_oracle : Oracle :=
  {| uuid := fun n => js "u" ++ JSON.number_to_string (Z.of_nat n);
     clock := fun n => 1000 + Z.of_nat n |}.

Definition sample_row : Row :=
  {| row_character_id := js "c1"; row_group_id := None;
     row_messages := [Tokenizer.sample_old; Tokenizer.sample_long; Tokenizer.sample_new];
     row_metadata := {| md_authorsNote := None; md_authorsNotePosition := None;
                        md_authorsNoteDepth := None; md_worldInfoBooks := None;
                        md_personaId := None; md_instructTemplate := None |};
     row_created_at := 1; row_updated_at := 2 |}.

Definition sample_world : World :=
  {| chat_sessions := {[ js "s1" := sample_row ]}; ids_used := 0; ticks := 0 |}.

(** The row that [saveChatSession] writes for a session that was read
    from [row] and given other messages and another update time. *)
Definition saved_row (messages : list ChatMessage) (updatedAt : Z) (row : Row) : Row :=
  {| row_character_id := row_character_id row;
     row_group_id := truthy_string (truthy_string (row_group_id row));
     row_messages := messages;
     row_metadata := row_metadata row;
     row_created_at := row_created_at row;
     row_updated_at := updatedAt |}.

(** A message with one swipe list, for the examples. *)
Definition swiped_message (id : jsstring) (swipes : list jsstring) (swipeIndex : Z)
  : ChatMessage :=
  {| msg_id := id; msg_role := RAssistant;
     msg_content := nth (Z.to_nat swipeIndex) swipes [];
     msg_timestamp := 0; msg_swipes := Some swipes; msg_swipeIndex := Some swipeIndex;
     msg_tokenCount := None; msg_isEdited := None; msg_generationConfig := None |}.

Definition swiped_world : World :=
  {| chat_sessions :=
       {[ js "s1" :=
            {| row_character_id := js "c1"; row_group_id := None;
               row_messages := [Tokenizer.sample_old;
                                swiped_message (js "m2") [js "a"; js "b"; js "c"] 1];
               row_metadata := row_metadata sample_row;
               row_created_at := 1; row_updated_at := 2 |} ]};
     ids_used := 0; ticks := 0 |}.

End ChatManager.

(** ** storage/database: the settings

    The table [settings] maps a key to the JSON text of its value. *)

Module Settings.

Abbreviation Table := (gmap jsstring jsstring).

(** [INSERT OR REPLACE INTO settings (key, value) VALUES (?, JSON.stringify(value))].
    A value with no JSON text ([undefined]) has nothing to bind to the
    column and is left out of the model. *)
Definition saveSetting (key : jsstring) (value : jsval) (t : Table) : result Table :=
  match JSON.stringify value [] with
  | Some text => Ok (<[key := text]> t)
  | None => Throw OutOfModel
  end.

(** [SELECT * FROM settings WHERE key = ?], then [JSON.parse(row.value)];
    [None] is [null]. *)
Definition getSetting (key : jsstring) (t : Table) : result (option jsval) :=
  match t !! key with
  | None => Ok None
  | Some text => do v <- JSON.parse text; Ok (Some v)
  end.

Definition deleteSetting (key : jsstring) (t : Table) : Table := delete key t.

End Settings.

(* ===================================================================== *)
(** * Properties *)
(* ===================================================================== *)

(** ** Sorting *)

From Stdlib Require Import Sorted Permutation.

Section SortFacts.
Context {A : Type} (cmp : A -> A -> Z).

Lemma insert_sorted_perm x l : Permutation (JsArray.insert_sorted cmp x l) (x :: l).
Proof.
  induction l as [|y l IH]; simpl; [reflexivity|].
  destruct (cmp x y <=? 0); [reflexivity|].
  rewrite IH. apply perm_swap.
Qed.

Lemma sort_perm l : Permutation (JsArray.sort cmp l) l.
Proof.
  induction l as [|x l IH]; simpl; [reflexivity|].
  rewrite insert_sorted_perm. by constructor.
Qed.

(** Stability: elements that the comparator does not separate keep their
    relative order. *)
Lemma insert_sorted_filter (P : A -> bool) x l :
  (forall y, P x = true -> P y = true -> cmp x y <= 0) ->
  List.filter P (JsArray.insert_sorted cmp x l) = List.filter P (x :: l).
Proof.
  intros HP. induction l as [|y l IH]; [reflexivity|].
  simpl JsArray.insert_sorted. destruct (Z.leb_spec (cmp x y) 0) as [Hle|Hgt]; [reflexivity|].
  simpl in *. rewrite IH.
  destruct (P x) eqn:Px, (P y) eqn:Py; try reflexivity.
  specialize (HP y eq_refl Py). lia.
Qed.

Lemma sort_filter (P : A -> bool) l :
  (forall x y, P x = true -> P y = true -> cmp x y <= 0) ->
  List.filter P (JsArray.sort cmp l) = List.filter P l.
Proof.
  intros HP. induction l as [|x l IH]; [reflexivity|].
  simpl JsArray.sort. rewrite insert_sorted_filter by (intros; by apply HP).
  simpl. by rewrite IH.
Qed.

Context (le : A -> A -> Prop).
Hypothesis le_trans : forall x y z, le x y -> le y z -> le x z.
Hypothesis cmp_le : forall x y, cmp x y <= 0 -> le x y.
Hypothesis cmp_gt : forall x y, 0 < cmp x y -> le y x.

Lemma insert_sorted_sorted x l :
  StronglySorted le l -> StronglySorted le (JsArray.insert_sorted cmp x l).
Proof.
  induction 1 as [|y l Hs IH Hall]; simpl.
  - constructor; [constructor|constructor].
  - destruct (Z.leb_spec (cmp x y) 0) as [Hle|Hgt].
    + constructor; [by constructor|].
      constructor; [by apply cmp_le|].
      eapply Forall_impl; [exact Hall|]. intros z Hz.
      eapply le_trans; [by apply cmp_le|exact Hz].
    + constructor; [exact IH|].
      eapply Permutation_Forall; [symmetry; apply insert_sorted_perm|].
      constructor; [by apply cmp_gt|exact Hall].
Qed.

Lemma sort_sorted l : StronglySorted le (JsArray.sort cmp l).
Proof.
  induction l as [|x l IH]; simpl; [constructor|]. by apply insert_sorted_sorted.
Qed.

End SortFacts.

(** ** Truncation *)

Section TruncationFacts.
Import Tokenizer.
Context {M : Type} `{MessageLike M}.
Variable tokenizer : TokenizerType.

Lemma estimateTokens_nonneg text : 0 <= estimateTokens text.
Proof. unfold estimateTokens. apply Z.div_pos; lia. Qed.

Lemma message_cost_pos m : 4 <= message_cost tokenizer m.
Proof.
  unfold message_cost, countTokens. pose proof (estimateTokens_nonneg (content_of m)). lia.
Qed.

Lemma countMessagesTokens_sum l :
  countMessagesTokens l tokenizer = 3 + sum_cost tokenizer l.
Proof.
  unfold countMessagesTokens.
  enough (forall a, fold_left (fun total msg => total + 4 + countTokens (content_of msg) tokenizer) l a
                    = a + sum_cost tokenizer l) as E by (rewrite E; lia).
  induction l as [|m l IH]; intros a; simpl.
  - lia.
  - rewrite IH. unfold message_cost. lia.
Qed.

(** The state reached by the loop: the kept messages are a subsequence of
    the input, the running total is the base overhead plus their cost and
    stays within the budget once something is kept, and every message is
    either kept or counted as removed. *)
Lemma truncate_loop_inv maxTokens l :
  let '(result, totalTokens, removedCount) := truncate_loop maxTokens (with_tokens tokenizer l) in
  result `sublist_of` l /\
  totalTokens = 3 + sum_cost tokenizer result /\
  totalTokens <= Z.max maxTokens 3 /\
  removedCount = Z.of_nat (length l) - Z.of_nat (length result).
Proof.
  induction l as [|m l IH]; simpl.
  - split; [apply sublist_nil|]. split; [reflexivity|]. split; [lia|reflexivity].
  - change (truncate_loop maxTokens (with_tokens tokenizer (m :: l)))
      with (truncate_step maxTokens (truncate_loop maxTokens (with_tokens tokenizer l))
                          (m, countTokens (content_of m) tokenizer + 4)).
    destruct (truncate_loop maxTokens (with_tokens tokenizer l)) as [[res tot] rem].
    destruct IH as (Hs & Ht & Hb & Hr). unfold truncate_step.
    destruct (Z.leb_spec (tot + (countTokens (content_of m) tokenizer + 4)) maxTokens).
    + split; [by apply sublist_skip|]. split; [simpl; unfold message_cost; lia|].
      split; [lia|]. simpl length. lia.
    + split; [by apply sublist_cons|]. split; [exact Ht|]. split; [exact Hb|].
      simpl length. lia.
Qed.

Lemma truncateMessages_unfold msgs maxTokens :
  truncateMessages msgs maxTokens tokenizer =
  let '(result, _, removedCount) := truncate_loop maxTokens (with_tokens tokenizer msgs) in
  {| tr_messages := result; tr_truncated := 0 <? removedCount;
     tr_removedCount := removedCount |}.
Proof. destruct msgs; reflexivity. Qed.

Lemma system_tokens_sum l : system_tokens tokenizer l = 3 + sum_cost tokenizer l.
Proof.
  unfold system_tokens.
  enough (forall a, fold_left (fun acc msg => acc + (countTokens (content_of msg) tokenizer + 4)) l a
                    = a + sum_cost tokenizer l) as E by apply E.
  induction l as [|m l IH]; intros a; simpl; [lia|].
  rewrite IH. unfold message_cost. lia.
Qed.

(** The loop of [truncateMessagesPreserveSystem] with budget [b] selects
    what the loop of [truncateMessages] selects with budget [b + 3]. *)
Lemma preserve_loop_truncate_loop b l :
  truncate_loop (b + 3) (with_tokens tokenizer l) =
  let '(kept, used) := preserve_loop b (with_tokens tokenizer l) in
  (kept, used + 3, Z.of_nat (length l) - Z.of_nat (length kept)).
Proof.
  induction l as [|m l IH]; [reflexivity|].
  change (truncate_loop (b + 3) (with_tokens tokenizer (m :: l)))
    with (truncate_step (b + 3) (truncate_loop (b + 3) (with_tokens tokenizer l))
                        (m, countTokens (content_of m) tokenizer + 4)).
  change (preserve_loop b (with_tokens tokenizer (m :: l)))
    with (preserve_step b (preserve_loop b (with_tokens tokenizer l))
                        (m, countTokens (content_of m) tokenizer + 4)).
  rewrite IH. destruct (preserve_loop b (with_tokens tokenizer l)) as [kept used].
  unfold truncate_step, preserve_step.
  destruct (Z.leb_spec (used + (countTokens (content_of m) tokenizer + 4)) b);
    destruct (Z.leb_spec (used + 3 + (countTokens (content_of m) tokenizer + 4)) (b + 3));
    try lia;
    (apply pair_equal_spec; split;
     [apply pair_equal_spec; split; [reflexivity | lia] | simpl length; lia]).
Qed.

End TruncationFacts.

(** C3 (the code departs from the claim). [truncateMessages] has no
    [break]: after a message that does not fit it goes on to older
    messages and keeps those that fit. On three messages of cost 4, 14, 4
    and a budget of 11 it keeps the first and the last one and drops the
    middle one, so the kept messages are not a suffix of the input. *)
Theorem C3_truncate_keeps_older_after_overflow :
  let input := [Tokenizer.sample_old; Tokenizer.sample_long; Tokenizer.sample_new] in
  let r := Tokenizer.truncateMessages input 11 Tokenizer.cl100k_base in
  Tokenizer.tr_messages r = [Tokenizer.sample_old; Tokenizer.sample_new] /\
  Tokenizer.tr_removedCount r = 1 /\
  ~ (Tokenizer.tr_messages r `suffix_of` input).
Proof.
  cbv zeta. split; [reflexivity|]. split; [reflexivity|].
  intros [k Hk].
  destruct k as [|a [|b k]]; [discriminate Hk|discriminate Hk|].
  apply (f_equal (@length _)) in Hk. rewrite length_app in Hk. simpl in Hk. lia.
Qed.

(** C4, as stated, fails: with a budget below the base overhead of 3 the
    estimate of the (empty) result is 3, above the budget. *)
Lemma C4_budget_below_base_overhead :
  ~ (Tokenizer.countMessagesTokens
       (Tokenizer.tr_messages
          (Tokenizer.truncateMessages ([] : list Types.ChatMessage) 0 Tokenizer.cl100k_base))
       Tokenizer.cl100k_base <= 0).
Proof. vm_compute. intros E. apply E. reflexivity. Qed.

(** C4 (amended). For every message list and budget, the estimate of the
    returned messages (base overhead 3 plus content cost plus 4 per kept
    message) is at most the larger of [maxTokens] and 3; the kept messages
    are whole input messages in their original order; [removedCount] is
    the input length minus the output length and [truncated] says whether
    it is positive; the empty input gives the empty, untruncated result;
    and a single message is returned whole when it fits and not at all
    otherwise. *)
Theorem C4_truncate_within_budget {M : Type} `{Tokenizer.MessageLike M}
    (messages : list M) (maxTokens : Z) (tokenizer : Tokenizer.TokenizerType) :
  let r := Tokenizer.truncateMessages messages maxTokens tokenizer in
  Tokenizer.countMessagesTokens (Tokenizer.tr_messages r) tokenizer <= Z.max maxTokens 3 /\
  Tokenizer.tr_messages r `sublist_of` messages /\
  Tokenizer.tr_removedCount r =
    Z.of_nat (length messages) - Z.of_nat (length (Tokenizer.tr_messages r)) /\
  Tokenizer.tr_truncated r = (0 <? Tokenizer.tr_removedCount r) /\
  Tokenizer.truncateMessages (@nil M) maxTokens tokenizer =
    {| Tokenizer.tr_messages := []; Tokenizer.tr_truncated := false;
       Tokenizer.tr_removedCount := 0 |} /\
  (forall m : M,
     Tokenizer.tr_messages (Tokenizer.truncateMessages [m] maxTokens tokenizer) =
     if 3 + Tokenizer.message_cost tokenizer m <=? maxTokens then [m] else []).
Proof.
  cbv zeta. rewrite truncateMessages_unfold.
  pose proof (truncate_loop_inv tokenizer maxTokens messages) as Hinv.
  destruct (Tokenizer.truncate_loop maxTokens _) as [[res tot] rem].
  destruct Hinv as (Hs & Ht & Hb & Hr). simpl.
  rewrite countMessagesTokens_sum.
  repeat split; try assumption; try lia.
  intros m. unfold Tokenizer.truncate_loop, Tokenizer.truncate_step, Tokenizer.message_cost.
  simpl. destruct (_ <=? _); reflexivity.
Qed.

(** [truncateMessagesPreserveSystem] returns all system messages, in
    their original relative order and ahead of every other message,
    followed by a subsequence of the non-system messages. When the budget
    does not exceed the cost of the system messages (overhead included)
    nothing else is kept and the result is marked truncated exactly when
    there was a non-system message; otherwise the non-system messages kept
    are those the loop of [truncateMessages] keeps within the budget that
    remains once the cost of the system messages is taken away. *)
Lemma preserve_system_result {M : Type} `{Tokenizer.MessageLike M}
    (messages : list M) (maxTokens : Z) (tokenizer : Tokenizer.TokenizerType) :
  let systemMessages := List.filter Tokenizer.is_system messages in
  let chatMessages := List.filter (fun m => negb (Tokenizer.is_system m)) messages in
  let systemCost := Tokenizer.sum_cost tokenizer systemMessages in
  let r := Tokenizer.truncateMessagesPreserveSystem messages maxTokens tokenizer in
  let t := Tokenizer.truncateMessages chatMessages (maxTokens - systemCost) tokenizer in
  (exists kept, Tokenizer.pr_messages r = systemMessages ++ kept /\
                kept `sublist_of` chatMessages) /\
  (if maxTokens <=? 3 + systemCost
   then Tokenizer.pr_messages r = systemMessages /\
        Tokenizer.pr_truncated r = negb (Nat.eqb (length chatMessages) 0)
   else Tokenizer.pr_messages r = systemMessages ++ Tokenizer.tr_messages t /\
        Tokenizer.pr_truncated r = Tokenizer.tr_truncated t).
Proof.
  cbv zeta. unfold Tokenizer.truncateMessagesPreserveSystem.
  rewrite system_tokens_sum.
  set (sys := List.filter Tokenizer.is_system messages).
  set (chat := List.filter (fun m => negb (Tokenizer.is_system m)) messages).
  set (S := Tokenizer.sum_cost tokenizer sys).
  rewrite truncateMessages_unfold.
  pose proof (preserve_loop_truncate_loop tokenizer (maxTokens - (3 + S)) chat) as E.
  replace (maxTokens - (3 + S) + 3) with (maxTokens - S) in E by lia.
  pose proof (truncate_loop_inv tokenizer (maxTokens - S) chat) as Hinv.
  rewrite E in *. clear E.
  destruct (Z.leb_spec (maxTokens - (3 + S)) 0) as [Hle|Hgt];
    destruct (Z.leb_spec maxTokens (3 + S)); try lia.
  - simpl. split.
    + exists []. rewrite app_nil_r. split; [reflexivity|apply sublist_nil_l].
    + split; [reflexivity|]. destruct (length chat); reflexivity.
  - destruct (Tokenizer.preserve_loop _ _) as [kept used].
    destruct Hinv as (Hs & _ & _ & _). simpl. split.
    + exists kept. split; [reflexivity|exact Hs].
    + split; [reflexivity|].
      pose proof (sublist_length _ _ Hs).
      destruct (Nat.ltb_spec (length kept) (length chat));
        destruct (Z.ltb_spec 0 (Z.of_nat (length chat) - Z.of_nat (length kept)));
        try reflexivity; lia.
Qed.

(** C5 (the code departs from the claim). The loop over the non-system
    messages has no [break], like the one of [truncateMessages]: after a
    message that does not fit the remaining budget it goes on to older
    messages and keeps those that fit. With no system message, three
    messages of cost 4, 14, 4 and a budget of 11 (8 once the base overhead
    is taken away), it keeps the oldest and the newest message and drops
    the one between them; with a system message of cost 4 in front and a
    budget of 15 the same happens behind the system message. In both runs
    the kept non-system messages are not the newest ones: they are not a
    suffix of the non-system messages. *)
Theorem C5_preserve_system_keeps_older_after_overflow :
  let chat := [Tokenizer.sample_old; Tokenizer.sample_long; Tokenizer.sample_new] in
  let r := Tokenizer.truncateMessagesPreserveSystem chat 11 Tokenizer.cl100k_base in
  let r' := Tokenizer.truncateMessagesPreserveSystem
              (Tokenizer.sample_system :: chat) 15 Tokenizer.cl100k_base in
  Tokenizer.pr_messages r = [Tokenizer.sample_old; Tokenizer.sample_new] /\
  Tokenizer.pr_truncated r = true /\
  Tokenizer.pr_messages r' =
    [Tokenizer.sample_system; Tokenizer.sample_old; Tokenizer.sample_new] /\
  Tokenizer.pr_truncated r' = true /\
  ~ ([Tokenizer.sample_old; Tokenizer.sample_new] `suffix_of` chat).
Proof.
  cbv zeta. split; [reflexivity|]. split; [reflexivity|].
  split; [reflexivity|]. split; [reflexivity|].
  intros [k Hk].
  destruct k as [|a [|b k]]; [discriminate Hk|discriminate Hk|].
  apply (f_equal (@length _)) in Hk. rewrite length_app in Hk. simpl in Hk. lia.
Qed.

(** ** World info *)

Section WorldInfoFacts.
Import Types WorldInfo.
Context {E : Engine}.

Lemma compare_entries_le a b : compare_entries a b <= 0 -> entry_le a b.
Proof.
  unfold compare_entries, entry_le.
  destruct (Z.eqb_spec (priority_of b - priority_of a) 0); simpl; lia.
Qed.

Lemma compare_entries_gt a b : 0 < compare_entries a b -> entry_le b a.
Proof.
  unfold compare_entries, entry_le.
  destruct (Z.eqb_spec (priority_of b - priority_of a) 0); simpl; lia.
Qed.

Lemma entry_le_trans a b c : entry_le a b -> entry_le b c -> entry_le a c.
Proof. unfold entry_le. lia. Qed.

Lemma same_rank_compare e x y :
  same_rank e x = true -> same_rank e y = true -> compare_entries x y <= 0.
Proof.
  unfold same_rank, compare_entries. intros Hx Hy.
  apply andb_true_iff in Hx as [Hx1 Hx2]. apply andb_true_iff in Hy as [Hy1 Hy2].
  apply Z.eqb_eq in Hx1, Hx2, Hy1, Hy2.
  destruct (Z.eqb_spec (priority_of y - priority_of x) 0); simpl; lia.
Qed.

Lemma matching_true text entry : matching text entry = true -> matchesEntry text entry = Ok true.
Proof. unfold matching. destruct (matchesEntry text entry) as [[|]|]; congruence. Qed.

Lemma collect_matches_filter text entries matches :
  collect_matches text entries = Ok matches ->
  matches = List.filter (matching text) entries.
Proof.
  revert matches. induction entries as [|e l IH]; simpl; intros matches Hc.
  - congruence.
  - unfold matching. destruct (matchesEntry text e) as [m|]; simpl in Hc; [|discriminate].
    destruct (collect_matches text l) as [ms|]; simpl in Hc; [|discriminate].
    injection Hc as <-. rewrite (IH ms eq_refl). destruct m; reflexivity.
Qed.

Lemma some_total {A} (f : A -> result bool) l :
  (forall x, exists b, f x = Ok b) -> exists b, JsArray.some f l = Ok b.
Proof.
  intros Hf. induction l as [|x l IH]; simpl; [eauto|].
  destruct (Hf x) as [b ->]. simpl. destruct b; eauto.
Qed.

Lemma matchesKeyword_total text keyword entry :
  escaped_patterns_compile E -> exists b, matchesKeyword text keyword entry = Ok b.
Proof.
  intros law. unfold matchesKeyword.
  destruct (_ || _)%bool; [eauto|].
  destruct (wi_useRegex entry).
  - destruct (regexp_new keyword _); eauto.
  - destruct (wi_matchWholeWords entry); [|eauto].
    match goal with |- context [regexp_new (js "\b" ++ escapeRegex ?k ++ js "\b") _] =>
      destruct (law k (wi_caseSensitive entry)) as [re ->] end. eauto.
Qed.

Lemma matchesEntry_total text entry :
  escaped_patterns_compile E -> exists b, matchesEntry text entry = Ok b.
Proof.
  intros law. unfold matchesEntry.
  destruct (negb (wi_enabled entry)); [eauto|].
  destruct (wi_constant entry); [eauto|].
  destruct (some_total (fun key => matchesKeyword text key entry) (wi_keys entry)) as [b ->];
    [intros; by apply matchesKeyword_total|].
  simpl. destruct (negb b); [eauto|].
  destruct (wi_secondaryKeys entry) as [[|k ks]|]; eauto.
  destruct (wi_selective entry); [|eauto].
  apply (some_total (fun key => matchesKeyword text key entry) (k :: ks)).
  intros; by apply matchesKeyword_total.
Qed.

Lemma collect_matches_total text entries :
  escaped_patterns_compile E -> exists matches, collect_matches text entries = Ok matches.
Proof.
  intros law. induction entries as [|e l [ms IH]]; simpl; [eauto|].
  destruct (matchesEntry_total text e law) as [b ->]. rewrite IH. simpl. eauto.
Qed.

(** The matcher falls back to the literal search when the pattern of a
    regex entry does not compile. *)
Lemma matchesKeyword_invalid_regex text keyword entry :
  wi_useRegex entry = true ->
  regexp_new keyword (if wi_caseSensitive entry then js "g" else js "gi") = None ->
  Str.trim keyword <> [] ->
  matchesKeyword text keyword entry =
  Ok (Str.includes (if wi_caseSensitive entry then text else toLowerCase text)
                   (if wi_caseSensitive entry then keyword else toLowerCase keyword)).
Proof.
  intros Hre Hnew Hblank. unfold matchesKeyword. rewrite Hre, Hnew.
  destruct keyword as [|c k]; [by destruct Hblank|].
  destruct (Str.trim (c :: k)) eqn:Ht; [by destruct Hblank|]. reflexivity.
Qed.

End WorldInfoFacts.

Lemma toy_balanced_escape key rest n :
  ToyEngine.balanced (WorldInfo.escapeRegex key ++ rest) n = ToyEngine.balanced rest n.
Proof.
  induction key as [|c key IH]; [reflexivity|].
  unfold WorldInfo.escapeRegex in *. simpl flat_map.
  destruct (WorldInfo.regex_special c) eqn:Hs.
  - simpl. exact IH.
  - simpl. unfold WorldInfo.regex_special in Hs. simpl in Hs.
    repeat (apply orb_false_iff in Hs as [? Hs]).
    destruct (c =? 92)%N eqn:E1; [congruence|].
    destruct (c =? 40)%N eqn:E2; [congruence|].
    destruct (c =? 41)%N eqn:E3; [congruence|]. exact IH.
Qed.

Lemma toy_escaped_patterns_compile : WorldInfo.escaped_patterns_compile ToyEngine.engine.
Proof.
  intros key caseSensitive. cbn [regexp_new ToyEngine.engine]. unfold ToyEngine.compile.
  replace (ToyEngine.balanced (js "\b" ++ WorldInfo.escapeRegex key ++ js "\b") 0)
    with true; [eauto|].
  change (js "\b" ++ WorldInfo.escapeRegex key ++ js "\b")
    with (92%N :: 98%N :: (WorldInfo.escapeRegex key ++ js "\b")).
  cbn [ToyEngine.balanced N.eqb Pos.eqb].
  rewrite toy_balanced_escape. reflexivity.
Qed.

(** C6. On every engine that compiles the word-boundary pattern of an
    escaped key with the flags ['g'] and ['gi'] (the only ones the matcher
    passes), [scanForMatches] returns: a rearrangement of the entries that match,
    ordered by descending priority (an absent priority counting as 0) and
    then ascending order, with entries of equal priority and order in their
    input order. In particular two matches of priority 10 and orders 1 and 0
    come out as order 0 then order 1, and matches of priority 1 and 10 come
    out as priority 10 then priority 1, whatever their orders and whichever
    comes first in the input. *)
Theorem C6_scan_sorted_by_priority_then_order (E : Engine) (text : jsstring)
    (entries : list Types.WorldInfoEntry) :
  WorldInfo.escaped_patterns_compile E ->
  (exists res,
     WorldInfo.scanForMatches text entries = Ok res /\
     Permutation res (List.filter (WorldInfo.matching text) entries) /\
     StronglySorted WorldInfo.entry_le res /\
     (forall e, List.filter (WorldInfo.same_rank e) res =
                List.filter (WorldInfo.same_rank e)
                            (List.filter (WorldInfo.matching text) entries))) /\
  (forall e1 e2,
     WorldInfo.matching text e1 = true -> WorldInfo.matching text e2 = true ->
     Types.wi_priority e1 = Some 10 -> Types.wi_order e1 = 1 ->
     Types.wi_priority e2 = Some 10 -> Types.wi_order e2 = 0 ->
     WorldInfo.scanForMatches text [e1; e2] = Ok [e2; e1]) /\
  (forall e1 e2,
     WorldInfo.matching text e1 = true -> WorldInfo.matching text e2 = true ->
     Types.wi_priority e1 = Some 1 -> Types.wi_priority e2 = Some 10 ->
     WorldInfo.scanForMatches text [e1; e2] = Ok [e2; e1] /\
     WorldInfo.scanForMatches text [e2; e1] = Ok [e2; e1]).
Proof.
  intros law. split; [|split].
  - destruct (collect_matches_total text entries law) as [ms Hms].
    pose proof (collect_matches_filter _ _ _ Hms) as ->.
    exists (JsArray.sort WorldInfo.compare_entries (List.filter (WorldInfo.matching text) entries)).
    split; [unfold WorldInfo.scanForMatches; by rewrite Hms|].
    split; [apply sort_perm|]. split.
    + apply sort_sorted with (le := WorldInfo.entry_le).
      * apply entry_le_trans.
      * apply compare_entries_le.
      * apply compare_entries_gt.
    + intros e. apply sort_filter. intros x y. apply same_rank_compare.
  - intros e1 e2 H1 H2 P1 O1 P2 O2.
    unfold WorldInfo.scanForMatches. simpl.
    rewrite (matching_true _ _ H1), (matching_true _ _ H2). simpl.
    unfold WorldInfo.compare_entries, WorldInfo.priority_of, WorldInfo.order_of.
    rewrite P1, P2, O1, O2. reflexivity.
  - intros e1 e2 H1 H2 P1 P2.
    unfold WorldInfo.scanForMatches. simpl.
    rewrite (matching_true _ _ H1), (matching_true _ _ H2). simpl.
    unfold WorldInfo.compare_entries, WorldInfo.priority_of, WorldInfo.order_of.
    rewrite P1, P2. split; reflexivity.
Qed.

Lemma C6_scan_sorted_witness :
  exists res,
    @WorldInfo.scanForMatches ToyEngine.engine (js "hello")
      [WorldInfo.constant_entry (js "a") (Some 10) 1;
       WorldInfo.constant_entry (js "b") (Some 10) 0] = Ok res /\
    res = [WorldInfo.constant_entry (js "b") (Some 10) 0;
           WorldInfo.constant_entry (js "a") (Some 10) 1].
Proof.
  destruct (C6_scan_sorted_by_priority_then_order ToyEngine.engine (js "hello")
              [WorldInfo.constant_entry (js "a") (Some 10) 1;
               WorldInfo.constant_entry (js "b") (Some 10) 0]
              toy_escaped_patterns_compile) as [_ [H _]].
  eexists. split; [|reflexivity].
  apply H; reflexivity.
Defined.

(** ** Prompt builder *)

Section PromptBuilderFacts.
Import Types PromptBuilder.
Context {E : Engine}.

Lemma injectAuthorsNote_in_chat content note :
  an_position note = note_in_chat -> injectAuthorsNote content note = content.
Proof. unfold injectAuthorsNote. by intros ->. Qed.

Lemma history_message_ignores_note n note i msg :
  history_message n (Some note) i msg = history_message n None i msg.
Proof.
  unfold history_message. destruct (an_position note) eqn:Hp; try reflexivity.
  destruct (_ =? _); [|reflexivity]. by rewrite injectAuthorsNote_in_chat.
Qed.

Lemma imap_history_ignores_note n note l :
  imap (history_message n note) l = imap (history_message n None) l.
Proof.
  apply imap_ext. intros i msg _. destruct note; [apply history_message_ignores_note|reflexivity].
Qed.

End PromptBuilderFacts.

(** C7 (the code departs from the claim on one path). For an enabled,
    non-constant regex entry whose single key fails to compile, the matcher
    of the world-info module answers with the literal substring search for
    the raw key, honoring the case flag, while the scanner inside the
    prompt builder catches the failure and reports no match: the entry is
    left out of the prompt whatever the chat says. *)
Theorem C7_invalid_regex_paths_disagree (E : Engine) (chatHistory : list Types.ChatMessage)
    (text key : jsstring) (entry : Types.WorldInfoEntry) :
  Types.wi_enabled entry = true ->
  Types.wi_constant entry = false ->
  Types.wi_selective entry = false ->
  Types.wi_useRegex entry = true ->
  Types.wi_keys entry = [key] ->
  Str.trim key <> [] ->
  regexp_new key (if Types.wi_caseSensitive entry then js "g" else js "gi") = None ->
  regexp_new key (if Types.wi_caseSensitive entry then [] else js "i") = None ->
  WorldInfo.matchesEntry text entry =
    Ok (Str.includes (if Types.wi_caseSensitive entry then text else toLowerCase text)
                     (if Types.wi_caseSensitive entry then key else toLowerCase key)) /\
  PromptBuilder.scanAndCollectWorldInfo chatHistory [WorldInfo.single_book [entry]] = Ok [].
Proof.
  intros Hen Hc Hsel Hre Hk Hb Hg Hi. split.
  - unfold WorldInfo.matchesEntry. rewrite Hen, Hc, Hk. simpl.
    rewrite (matchesKeyword_invalid_regex text key entry Hre Hg Hb). simpl.
    destruct (Str.includes _ _); simpl; [|reflexivity].
    rewrite Hsel. by destruct (Types.wi_secondaryKeys entry) as [[|? ?]|].
  - unfold PromptBuilder.scanAndCollectWorldInfo. simpl.
    rewrite Hen, Hk. simpl. unfold PromptBuilder.key_matches. rewrite Hre, Hi. simpl.
    rewrite Hc. reflexivity.
Qed.

Lemma C7_invalid_regex_witness :
  @WorldInfo.matchesEntry ToyEngine.engine (js "a ( b")
    (WorldInfo.regex_entry (js "(") (js "lore") false) = Ok true /\
  @PromptBuilder.scanAndCollectWorldInfo ToyEngine.engine
    [Tokenizer.plain_message (js "m1") Types.RUser (js "a ( b")]
    [WorldInfo.single_book [WorldInfo.regex_entry (js "(") (js "lore") false]] = Ok [].
Proof.
  apply (C7_invalid_regex_paths_disagree ToyEngine.engine
           [Tokenizer.plain_message (js "m1") Types.RUser (js "a ( b")]
           (js "a ( b") (js "(") (WorldInfo.regex_entry (js "(") (js "lore") false));
    try reflexivity.
  vm_compute. discriminate.
Defined.

(** C8 (the code departs from the claim). [injectAuthorsNote] is only
    called for a note whose position is ['in_chat'], and for that position
    its [switch] returns the content unchanged: the prompt built with an
    author's note is the prompt built without it, and every history turn,
    the one at the note's depth included, keeps its content as it is. *)
Theorem C8_authors_note_never_injected (E : Engine) :
  (forall context : Types.PromptContext,
     PromptBuilder.buildPrompt context =
     PromptBuilder.buildPrompt (PromptBuilder.without_note context)) /\
  (forall (historyLength i : nat) (note : Types.AuthorsNote) (msg : Types.ChatMessage),
     Types.pm_content (PromptBuilder.history_message historyLength (Some note) i msg) =
     Types.msg_content msg).
Proof.
  split.
  - intros context. unfold PromptBuilder.buildPrompt, PromptBuilder.without_note. simpl.
    by rewrite (imap_history_ignores_note _ (Types.pc_authorsNote context)).
  - intros n i note msg. by rewrite history_message_ignores_note.
Qed.


(** ** JSON round trip *)

Section JsonFacts.
Import JSON.

(** Induction over values, with the hypothesis for every element of an
    array and every property value of an object. *)
Lemma jsval_nested_ind (P : jsval -> Prop) :
  P JUndefined -> P JNull -> (forall b, P (JBool b)) -> (forall n, P (JNum n)) ->
  (forall s, P (JStr s)) ->
  (forall l, Forall P l -> P (JArr l)) ->
  (forall props, Forall (fun kv => P (snd kv)) props -> P (JObj props)) ->
  forall v, P v.
Proof.
  intros Hu Hn Hb Hz Hs Ha Ho.
  fix IH 1. intros [| |b|n|s|l|props].
  - exact Hu.
  - exact Hn.
  - apply Hb.
  - apply Hz.
  - apply Hs.
  - apply Ha. induction l as [|x l IHl]; constructor; [apply IH|exact IHl].
  - apply Ho. induction props as [|[k x] props IHp]; constructor; [apply IH|exact IHp].
Qed.

Lemma lex_from_app_ws w rest out :
  forallb is_ws w = true ->
  lex_from (w ++ rest) (MDefault, out) = lex_from rest (MDefault, out).
Proof.
  induction w as [|c w IH]; simpl; [reflexivity|].
  intros Hw. apply andb_true_iff in Hw as [Hc Hw].
  unfold default_step. rewrite Hc. simpl. by apply IH.
Qed.

(** *** Strings *)

Lemma hex_value_digit k : (k < 16)%N -> hex_value (hex_digit k) = Some k.
Proof.
  intros Hk.
  assert (forallb (fun k => match hex_value (hex_digit k) with
                            | Some k' => N.eqb k' k
                            | None => false
                            end) (List.map N.of_nat (seq 0 16)) = true) as Hall
    by (vm_compute; reflexivity).
  rewrite forallb_forall in Hall.
  specialize (Hall k). destruct (hex_value (hex_digit k)) as [k'|].
  - f_equal. apply N.eqb_eq. apply Hall.
    apply in_map_iff. exists (N.to_nat k). split; [lia|]. apply in_seq. lia.
  - exfalso. assert (false = true) as Habs; [|discriminate].
    apply Hall. apply in_map_iff. exists (N.to_nat k). split; [lia|]. apply in_seq. lia.
Qed.

Lemma step_unicode acc remaining code out h :
  (h < 16)%N ->
  step (MUnicode acc remaining code, out) (hex_digit h) =
  match remaining with
  | O => Ok (MString ((code * 16 + h)%N :: acc), out)
  | S remaining' => Ok (MUnicode acc remaining' (code * 16 + h)%N, out)
  end.
Proof. intros Hh. unfold step. by rewrite hex_value_digit. Qed.

Lemma lex_unicode_escape c acc out rest :
  (c < 65536)%N ->
  lex_from (unicode_escape c ++ rest) (MString acc, out) =
  lex_from rest (MString (c :: acc), out).
Proof.
  intros Hc. unfold unicode_escape.
  change (lex_from ([92%N; 117%N; hex_digit ((c / 4096) mod 16); hex_digit ((c / 256) mod 16);
                     hex_digit ((c / 16) mod 16); hex_digit (c mod 16)] ++ rest)
                   (MString acc, out))
    with (do st1 <- step (MUnicode acc 3 0%N, out) (hex_digit ((c / 4096) mod 16));
          do st2 <- step st1 (hex_digit ((c / 256) mod 16));
          do st3 <- step st2 (hex_digit ((c / 16) mod 16));
          do st4 <- step st3 (hex_digit (c mod 16));
          lex_from rest st4).
  rewrite step_unicode by (apply N.mod_lt; lia). cbn [rbind].
  rewrite step_unicode by (apply N.mod_lt; lia). cbn [rbind].
  rewrite step_unicode by (apply N.mod_lt; lia). cbn [rbind].
  rewrite step_unicode by (apply N.mod_lt; lia). cbn [rbind].
  replace ((((0 * 16 + (c / 4096) mod 16) * 16 + (c / 256) mod 16) * 16
            + (c / 16) mod 16) * 16 + c mod 16)%N with c; [reflexivity|].
  zify. Z.to_euclidean_division_equations. lia.
Qed.

Lemma lex_raw_unit c acc out rest :
  (32 <= c)%N -> c <> 34%N -> c <> 92%N ->
  lex_from (c :: rest) (MString acc, out) = lex_from rest (MString (c :: acc), out).
Proof.
  intros H32 H34 H92. simpl.
  destruct (N.eqb_spec c 34); [done|]. destruct (N.eqb_spec c 92); [done|].
  destruct (N.ltb_spec c 32); [lia|]. reflexivity.
Qed.

Lemma lex_quote_unit c acc out rest :
  lex_from (quote_unit c ++ rest) (MString acc, out) =
  lex_from rest (MString (c :: acc), out).
Proof.
  unfold quote_unit.
  destruct (N.eqb_spec c 8) as [->|]; [reflexivity|].
  destruct (N.eqb_spec c 9) as [->|]; [reflexivity|].
  destruct (N.eqb_spec c 10) as [->|]; [reflexivity|].
  destruct (N.eqb_spec c 12) as [->|]; [reflexivity|].
  destruct (N.eqb_spec c 13) as [->|]; [reflexivity|].
  destruct (N.eqb_spec c 34) as [->|]; [reflexivity|].
  destruct (N.eqb_spec c 92) as [->|]; [reflexivity|].
  destruct (N.ltb_spec c 32).
  - apply lex_unicode_escape. lia.
  - by apply lex_raw_unit.
Qed.

Lemma quote_body_cons c s :
  quote_body (c :: s) =
  if is_high_surrogate c then
    match s with
    | d :: s'' =>
      if is_low_surrogate d then c :: d :: quote_body s''
      else unicode_escape c ++ quote_body s
    | [] => unicode_escape c
    end
  else if is_low_surrogate c then unicode_escape c ++ quote_body s
  else quote_unit c ++ quote_body s.
Proof. destruct s; reflexivity. Qed.

Lemma lex_quote_body_aux n : forall s acc out rest,
  (length s <= n)%nat ->
  lex_from (quote_body s ++ 34%N :: rest) (MString acc, out) =
  lex_from rest (MDefault, TString (rev acc ++ s) :: out).
Proof.
  induction n as [|n IH]; intros s acc out rest Hlen.
  - destruct s; [|simpl in Hlen; lia]. simpl. by rewrite app_nil_r.
  - destruct s as [|c s]; [simpl; by rewrite app_nil_r|].
    assert (Hstep : forall txt,
      lex_from (txt ++ quote_body s ++ 34%N :: rest) (MString acc, out) =
      lex_from (quote_body s ++ 34%N :: rest) (MString (c :: acc), out) ->
      lex_from (txt ++ quote_body s ++ 34%N :: rest) (MString acc, out) =
      lex_from rest (MDefault, TString (rev acc ++ c :: s) :: out)).
    { intros txt ->. rewrite IH by (simpl in Hlen; lia).
      simpl. by rewrite <- app_assoc. }
    rewrite quote_body_cons.
    destruct (is_high_surrogate c) eqn:Hh.
    + unfold is_high_surrogate in Hh. apply andb_true_iff in Hh as [H1 H2].
      apply N.leb_le in H1, H2.
      destruct s as [|d s].
      * rewrite lex_unicode_escape by lia. reflexivity.
      * destruct (is_low_surrogate d) eqn:Hl.
        -- unfold is_low_surrogate in Hl. apply andb_true_iff in Hl as [H3 H4].
           apply N.leb_le in H3, H4.
           change ((c :: d :: quote_body s) ++ 34%N :: rest)
             with (c :: d :: quote_body s ++ 34%N :: rest).
           rewrite lex_raw_unit by lia. rewrite lex_raw_unit by lia.
           rewrite IH by (simpl in Hlen; lia). simpl.
           do 2 rewrite <- List.app_assoc. reflexivity.
        -- rewrite <- app_assoc. apply Hstep. apply lex_unicode_escape. lia.
    + destruct (is_low_surrogate c) eqn:Hl.
      * unfold is_low_surrogate in Hl. apply andb_true_iff in Hl as [H3 H4].
        apply N.leb_le in H3, H4.
        rewrite <- app_assoc. apply Hstep. apply lex_unicode_escape. lia.
      * rewrite <- app_assoc. apply Hstep. apply lex_quote_unit.
Qed.

Lemma lex_quote s out rest :
  lex_from (quote s ++ rest) (MDefault, out) = lex_from rest (MDefault, TString s :: out).
Proof.
  unfold quote. simpl. rewrite <- app_assoc. simpl.
  by rewrite (lex_quote_body_aux (length s) s [] out rest).
Qed.

(** *** Numbers *)

Lemma lex_digits d : forall neg acc out rest,
  lex_from (uint_codes d ++ rest) (MNumber neg acc, out) =
  lex_from rest (MNumber neg (Decimal.revapp d acc), out).
Proof.
  induction d; intros neg acc out rest; simpl; try apply IHd; reflexivity.
Qed.

Lemma lex_first_digit d out rest :
  d <> Decimal.Nil ->
  lex_from (uint_codes d ++ rest) (MDefault, out) =
  lex_from rest (MNumber false (Decimal.rev d), out).
Proof.
  intros Hd. destruct d; [congruence|..]; simpl; apply lex_digits.
Qed.

Lemma lex_first_digit_minus d out rest :
  d <> Decimal.Nil ->
  lex_from (uint_codes d ++ rest) (MMinus, out) =
  lex_from rest (MNumber true (Decimal.rev d), out).
Proof.
  intros Hd. destruct d; [congruence|..]; simpl; apply lex_digits.
Qed.

Lemma to_uint_nonnil m : N.to_uint m <> Decimal.Nil.
Proof.
  destruct m; simpl; [discriminate|]. apply DecimalPos.Unsigned.to_uint_nonnil.
Qed.

Lemma finish_number_to_uint neg m :
  Z.of_N m <= max_safe_integer ->
  finish_number neg (Decimal.rev (N.to_uint m)) =
  Ok (TNumber (if neg then - Z.of_N m else Z.of_N m)).
Proof.
  intros Hm. unfold finish_number. rewrite DecimalFacts.rev_rev.
  assert (Decimal.unorm (N.to_uint m) = N.to_uint m) as ->.
  { rewrite <- DecimalN.Unsigned.to_of. by rewrite DecimalN.Unsigned.of_to. }
  rewrite Decimal.internal_uint_dec_lb by reflexivity.
  rewrite DecimalN.Unsigned.of_to.
  destruct (Z.leb_spec (Z.of_N m) max_safe_integer); [reflexivity|lia].
Qed.

(** A number in progress followed by a delimiter is a number token. *)
Lemma lex_number_end neg acc t out rest :
  delimited rest ->
  finish_number neg acc = Ok t ->
  lex_from rest (MNumber neg acc, out) = lex_from rest (MDefault, t :: out).
Proof.
  intros Hd Hf. destruct rest as [|c rest]; simpl.
  - by rewrite Hf.
  - destruct Hd as (Hdig & H46 & H101 & H69). rewrite Hdig.
    destruct (N.eqb_spec c 46); [done|]. destruct (N.eqb_spec c 101); [done|].
    destruct (N.eqb_spec c 69); [done|]. simpl. by rewrite Hf.
Qed.

Lemma lex_number n out rest :
  Z.abs n <= max_safe_integer ->
  delimited rest ->
  lex_from (number_to_string n ++ rest) (MDefault, out) =
  lex_from rest (MDefault, TNumber n :: out).
Proof.
  intros Hn Hd. unfold number_to_string.
  destruct (Z.ltb_spec n 0).
  - change (lex_from ((45%N :: uint_codes (N.to_uint (Z.abs_N n))) ++ rest) (MDefault, out))
      with (lex_from (uint_codes (N.to_uint (Z.abs_N n)) ++ rest) (MMinus, out)).
    rewrite lex_first_digit_minus by apply to_uint_nonnil.
    rewrite (lex_number_end _ _ (TNumber n)); [reflexivity|exact Hd|].
    rewrite finish_number_to_uint by lia. do 2 f_equal. lia.
  - rewrite lex_first_digit by apply to_uint_nonnil.
    rewrite (lex_number_end _ _ (TNumber n)); [reflexivity|exact Hd|].
    rewrite finish_number_to_uint by lia. do 2 f_equal. lia.
Qed.

(** *** Arrays and objects *)

Lemma delimited_ws_app w rest c :
  delimited (c :: rest) -> forallb is_ws w = true -> delimited (w ++ c :: rest).
Proof.
  intros Hd Hw. destruct w as [|x w]; [exact Hd|].
  simpl in Hw. apply andb_true_iff in Hw as [Hx _]. simpl.
  unfold is_ws in Hx. repeat (apply orb_true_iff in Hx as [Hx|Hx]);
    apply N.eqb_eq in Hx; subst x; repeat split; done.
Qed.

Lemma lex_rest_parts closing ctok w2 w3 parts : forall rest out,
  (forall out, default_step closing out = Ok (MDefault, ctok :: out)) ->
  delimited (closing :: rest) ->
  forallb is_ws w2 = true -> forallb is_ws w3 = true ->
  Forall lexes_to parts ->
  lex_from (flat_map (fun p => [44%N] ++ w2 ++ fst p) parts ++ w3 ++ closing :: rest)
           (MDefault, out) =
  lex_from rest (MDefault, rev (rest_tokens ctok (List.map snd parts)) ++ out).
Proof.
  intros rest out Hc Hd Hw2 Hw3 Hparts. revert out.
  induction Hparts as [|p parts Hp Hparts IH]; intros out.
  - simpl flat_map. cbn [app]. rewrite (lex_from_app_ws w3) by exact Hw3.
    simpl. by rewrite Hc.
  - set (f := fun p : jsstring * list token => [44%N] ++ w2 ++ fst p) in *.
    assert (flat_map f (p :: parts) ++ w3 ++ closing :: rest =
            44%N :: w2 ++ fst p ++ flat_map f parts ++ w3 ++ closing :: rest) as ->.
    { simpl. unfold f at 1. simpl. by rewrite <- !List.app_assoc. }
    change (lex_from (44%N :: ?x) (MDefault, out))
      with (lex_from x (MDefault, TComma :: out)).
    rewrite (lex_from_app_ws w2) by exact Hw2.
    rewrite Hp.
    + rewrite IH. simpl. rewrite rev_app_distr. simpl.
      by rewrite <- !List.app_assoc.
    + destruct parts as [|q parts].
      * simpl. by apply delimited_ws_app.
      * simpl. repeat split; done.
Qed.

Lemma join_cons_flat_map {A} (sep t : list A) ts :
  Str.join sep (t :: ts) = t ++ flat_map (fun x => sep ++ x) ts.
Proof.
  revert t. induction ts as [|u ts IH]; intros t.
  - simpl. by rewrite app_nil_r.
  - change (Str.join sep (t :: u :: ts)) with (t ++ sep ++ Str.join sep (u :: ts)).
    rewrite IH. simpl. by rewrite <- !List.app_assoc.
Qed.

Lemma flat_map_map_fst (w : jsstring) (parts : list (jsstring * list token)) :
  flat_map (fun x => (44%N :: w) ++ x) (List.map fst parts) =
  flat_map (fun p => [44%N] ++ w ++ fst p) parts.
Proof.
  induction parts as [|p parts IH]; [reflexivity|].
  cbn [flat_map List.map]. rewrite IH. reflexivity.
Qed.

Lemma lex_wrap opening closing otok ctok gap stepback indent parts :
  (forall out, default_step opening out = Ok (MDefault, otok :: out)) ->
  (forall out, default_step closing out = Ok (MDefault, ctok :: out)) ->
  (forall rest, delimited (closing :: rest)) ->
  forallb is_ws gap = true -> forallb is_ws stepback = true ->
  forallb is_ws indent = true ->
  Forall lexes_to parts ->
  lexes_to (wrap opening closing gap stepback indent (List.map fst parts),
            otok :: sep_tokens ctok (List.map snd parts)).
Proof.
  intros Ho Hc Hdc Hgap Hstep Hind Hparts rest out Hrest.
  destruct parts as [|p parts].
  - simpl. rewrite Ho. simpl. rewrite Hc. reflexivity.
  - inversion Hparts as [|? ? Hp Hps]; subst.
    set (w := match gap with [] => [] | _ => 10%N :: indent end).
    set (w3 := match gap with [] => [] | _ => 10%N :: stepback end).
    assert (Hw : forallb is_ws w = true) by (subst w; destruct gap; simpl; auto).
    assert (Hw3 : forallb is_ws w3 = true) by (subst w3; destruct gap; simpl; auto).
    assert (wrap opening closing gap stepback indent (List.map fst (p :: parts)) ++ rest =
            opening :: w ++ fst p ++ flat_map (fun q => [44%N] ++ w ++ fst q) parts
                    ++ w3 ++ closing :: rest) as Heq.
    { unfold wrap. cbn [List.map]. subst w w3. destruct gap as [|g gap].
      - rewrite join_cons_flat_map. rewrite (flat_map_map_fst []).
        simpl. by rewrite <- !List.app_assoc.
      - change ([44%N; 10%N] ++ indent) with (44%N :: 10%N :: indent).
        rewrite join_cons_flat_map. rewrite (flat_map_map_fst (10%N :: indent)).
        simpl. rewrite <- !List.app_assoc. simpl. by rewrite <- !List.app_assoc. }
    cbn [fst snd]. rewrite Heq.
    change (lex_from (opening :: ?x) (MDefault, out))
      with (do st <- default_step opening out; lex_from x st).
    rewrite Ho. cbn [rbind].
    rewrite (lex_from_app_ws w) by exact Hw.
    rewrite Hp.
    + rewrite (lex_rest_parts closing ctok w w3 parts rest _ Hc (Hdc rest) Hw Hw3 Hps).
      simpl. rewrite rev_app_distr. simpl. by rewrite <- !List.app_assoc.
    + destruct parts as [|q parts]; simpl.
      * by apply delimited_ws_app.
      * repeat split; done.
Qed.

Lemma serialize_array gap indent l :
  serialize gap indent (JArr l) =
  Some (wrap 91 93 gap indent (indent ++ gap) (List.map (text_of gap (indent ++ gap)) l)).
Proof. reflexivity. Qed.

Lemma serialize_none gap indent v : serialize gap indent v = None -> v = JUndefined.
Proof. destruct v as [| |[|]| | | |]; simpl; congruence. Qed.

Lemma serialize_object gap indent props :
  forallb (fun kv => is_json (snd kv)) props = true ->
  serialize gap indent (JObj props) =
  Some (wrap 123 125 gap indent (indent ++ gap)
          (List.map (fun kv => member gap (fst kv) (text_of gap (indent ++ gap) (snd kv))) props)).
Proof.
  intros Hall. simpl. do 2 f_equal.
  induction props as [|[k x] props IH]; [reflexivity|].
  simpl in Hall. apply andb_true_iff in Hall as [Hx Hall].
  simpl. rewrite IH by exact Hall. unfold text_of.
  destruct (serialize gap (indent ++ gap) x) eqn:Hs; [reflexivity|].
  apply serialize_none in Hs. subst x. discriminate.
Qed.

Lemma lex_member gap key str toks :
  forallb is_ws gap = true ->
  lexes_to (str, toks) ->
  lexes_to (member gap key str, TString key :: TColon :: toks).
Proof.
  intros Hgap Hstr rest out Hrest. unfold member. cbn [fst snd].
  rewrite <- !List.app_assoc. rewrite lex_quote.
  change (lex_from ([58%N] ++ ?x) (MDefault, ?o))
    with (lex_from x (MDefault, TColon :: o)).
  rewrite (lex_from_app_ws (match gap with [] => [] | _ => [32%N] end))
    by (by destruct gap).
  rewrite (Hstr rest _ Hrest). simpl. by rewrite <- !List.app_assoc.
Qed.

Lemma lex_serialize v :
  is_json v = true ->
  forall gap indent,
    forallb is_ws gap = true -> forallb is_ws indent = true ->
    lexes_to (text_of gap indent v, tokens v).
Proof.
  induction v as [| |b|n|s|l IH|props IH] using jsval_nested_ind;
    intros Hj gap indent Hgap Hind.
  - discriminate.
  - intros rest out _. reflexivity.
  - intros rest out _. destruct b; reflexivity.
  - intros rest out Hrest. simpl in Hj. apply Z.leb_le in Hj.
    unfold text_of. simpl. by apply lex_number.
  - intros rest out _. unfold text_of. simpl serialize. cbn [fst snd tokens].
    by rewrite lex_quote.
  - unfold text_of. rewrite serialize_array. simpl tokens.
    simpl in Hj.
    set (parts := List.map (fun x => (text_of gap (indent ++ gap) x, tokens x)) l).
    replace (List.map (text_of gap (indent ++ gap)) l) with (List.map fst parts)
      by (subst parts; rewrite List.map_map; reflexivity).
    replace (List.map tokens l) with (List.map snd parts)
      by (subst parts; rewrite List.map_map; reflexivity).
    apply lex_wrap; try done.
    + by rewrite forallb_app, Hind, Hgap.
    + subst parts. clear - IH Hj Hgap Hind.
      induction IH as [|x l Hx _ IHl]; simpl; constructor.
      * simpl in Hj. apply andb_true_iff in Hj as [Hjx _].
        apply Hx; [exact Hjx|exact Hgap|]. by rewrite forallb_app, Hind, Hgap.
      * apply IHl. simpl in Hj. by apply andb_true_iff in Hj as [_ ?].
  - unfold text_of. simpl in Hj. apply andb_true_iff in Hj as [_ Hj].
    rewrite serialize_object by exact Hj. simpl tokens.
    set (parts := List.map (fun kv => (member gap (fst kv) (text_of gap (indent ++ gap) (snd kv)),
                                       TString (fst kv) :: TColon :: tokens (snd kv))) props).
    replace (List.map (fun kv => member gap (fst kv) (text_of gap (indent ++ gap) (snd kv))) props)
      with (List.map fst parts) by (subst parts; rewrite List.map_map; reflexivity).
    replace (List.map (fun kv => TString (fst kv) :: TColon :: tokens (snd kv)) props)
      with (List.map snd parts) by (subst parts; rewrite List.map_map; reflexivity).
    apply lex_wrap; try done.
    + by rewrite forallb_app, Hind, Hgap.
    + subst parts. clear - IH Hj Hgap Hind.
      induction IH as [|[k x] props Hx _ IHp]; simpl; constructor.
      * simpl in Hj. apply andb_true_iff in Hj as [Hjx _].
        apply lex_member; [exact Hgap|].
        apply Hx; [exact Hjx|exact Hgap|]. by rewrite forallb_app, Hind, Hgap.
      * apply IHp. simpl in Hj. by apply andb_true_iff in Hj as [_ ?].
Qed.

(** *** Tokens to values *)

Lemma tokens_head v :
  exists t ts, tokens v = t :: ts /\ t <> TRBracket /\ t <> TRBrace.
Proof. destruct v as [| |[|]| | | |]; simpl; eauto. Qed.

Lemma parse_value_array fuel t r :
  t <> TRBracket ->
  parse_value (S fuel) (TLBracket :: t :: r) =
  (do (v, r1) <- parse_value fuel (t :: r);
   do (vs, r2) <- parse_elements fuel r1;
   Ok (JArr (v :: vs), r2)).
Proof. intros Ht. destruct t; try reflexivity. congruence. Qed.

Lemma str_eqb_eq a b : str_eqb a b = true <-> a = b.
Proof. unfold str_eqb. apply bool_decide_eq_true. Qed.

Lemma existsb_str_eqb_false k keys :
  existsb (str_eqb k) keys = false -> ~ In k keys.
Proof.
  intros He Hin. assert (existsb (str_eqb k) keys = true); [|congruence].
  apply existsb_exists. exists k. split; [exact Hin|]. by apply str_eqb_eq.
Qed.

Lemma set_prop_fresh k v props :
  ~ In k (List.map fst props) -> set_prop k v props = props ++ [(k, v)].
Proof.
  induction props as [|[k' v'] props IH]; simpl; intros Hk; [reflexivity|].
  destruct (str_eqb k k') eqn:E; [apply str_eqb_eq in E; subst; tauto|].
  rewrite IH; [reflexivity|tauto].
Qed.

Lemma build_object_nodup members : forall acc,
  nodup_keys (List.map fst members) = true ->
  (forall k, In k (List.map fst members) -> ~ In k (List.map fst acc)) ->
  fold_left (fun props kv => set_prop (fst kv) (snd kv) props) members acc = acc ++ members.
Proof.
  induction members as [|[k v] members IH]; intros acc Hnd Hdisj; simpl.
  - by rewrite app_nil_r.
  - simpl in Hnd. apply andb_true_iff in Hnd as [Hk Hnd].
    apply negb_true_iff in Hk. apply existsb_str_eqb_false in Hk.
    rewrite set_prop_fresh by (apply Hdisj; simpl; auto).
    rewrite IH; [by rewrite <- List.app_assoc|exact Hnd|].
    intros k' Hk' Hin. rewrite List.map_app in Hin. apply in_app_iff in Hin as [Hin|Hin].
    + apply (Hdisj k'); simpl; auto.
    + simpl in Hin. destruct Hin as [<-|[]]. contradiction.
Qed.

Lemma build_object_id props :
  nodup_keys (List.map fst props) = true -> build_object props = props.
Proof.
  intros Hnd. unfold build_object. rewrite build_object_nodup; auto.
Qed.

Lemma parse_elements_tokens l :
  Forall parses l ->
  forall fuel rest,
    (length (rest_tokens TRBracket (List.map tokens l)) <= fuel)%nat ->
    parse_elements fuel (rest_tokens TRBracket (List.map tokens l) ++ rest) = Ok (l, rest).
Proof.
  induction 1 as [|x l Hx _ IH]; intros fuel rest Hfuel.
  - destruct fuel; [simpl in Hfuel; lia|]. reflexivity.
  - destruct fuel as [|fuel]; [simpl in Hfuel; lia|].
    simpl in Hfuel. rewrite length_app in Hfuel.
    cbn [List.map rest_tokens]. cbn [app parse_elements].
    rewrite <- List.app_assoc. rewrite Hx by lia. cbn [rbind].
    rewrite IH by lia. reflexivity.
Qed.

Lemma parse_members_tokens props :
  Forall (fun kv => parses (snd kv)) props ->
  forall k x fuel rest,
    parses x ->
    (length (member_tokens (k, x) ++ rest_tokens TRBrace (List.map member_tokens props))
     <= fuel)%nat ->
    parse_members fuel
      (member_tokens (k, x) ++ rest_tokens TRBrace (List.map member_tokens props) ++ rest) =
    Ok ((k, x) :: props, rest).
Proof.
  induction 1 as [|[k' x'] props Hx' _ IH]; intros k x fuel rest Hx Hfuel.
  - destruct fuel as [|fuel]; [simpl in Hfuel; lia|].
    unfold member_tokens in *. cbn [fst snd] in *. simpl in Hfuel.
    rewrite length_app in Hfuel. simpl in Hfuel.
    cbn [app parse_members List.map rest_tokens].
    rewrite Hx by lia. reflexivity.
  - destruct fuel as [|fuel]; [simpl in Hfuel; lia|].
    unfold member_tokens at 1. unfold member_tokens at 1 in Hfuel.
    cbn [fst snd] in *. simpl in Hfuel. rewrite length_app in Hfuel.
    cbn [List.map rest_tokens] in *. simpl in Hfuel. rewrite length_app in Hfuel.
    cbn [app parse_members].
    rewrite <- List.app_assoc. rewrite Hx by lia. cbn [rbind app].
    rewrite (IH k' x' fuel rest Hx')
      by (rewrite length_app; cbn [member_tokens length fst snd]; lia).
    reflexivity.
Qed.

Lemma parse_value_tokens v : is_json v = true -> parses v.
Proof.
  induction v as [| |b|n|s|l IH|props IH] using jsval_nested_ind; intros Hj.
  - discriminate.
  - intros [|fuel] rest Hf; [simpl in Hf; lia|reflexivity].
  - destruct b; (intros [|fuel] rest Hf; [simpl in Hf; lia|reflexivity]).
  - intros [|fuel] rest Hf; [simpl in Hf; lia|reflexivity].
  - intros [|fuel] rest Hf; [simpl in Hf; lia|reflexivity].
  - assert (Forall parses l) as Hall.
    { simpl in Hj. clear - IH Hj. induction IH as [|x l Hx _ IHl]; constructor.
      - apply Hx. simpl in Hj. by apply andb_true_iff in Hj as [? _].
      - apply IHl. simpl in Hj. by apply andb_true_iff in Hj as [_ ?]. }
    intros [|fuel] rest Hf; [simpl in Hf; lia|].
    destruct l as [|x l]; [reflexivity|].
    inversion Hall as [|? ? Hx Hl]; subst.
    simpl tokens in *. cbn [List.map sep_tokens] in *.
    simpl in Hf. rewrite length_app in Hf.
    destruct (tokens_head x) as (t & ts & Ht & Hnb & _).
    cbn [app]. rewrite <- List.app_assoc.
    pose proof (Hx fuel (rest_tokens TRBracket (List.map tokens l) ++ rest)) as Hx'.
    rewrite Ht in *. cbn [app] in *.
    rewrite parse_value_array by exact Hnb.
    rewrite Hx' by lia. cbn [rbind].
    rewrite parse_elements_tokens by (exact Hl || lia). reflexivity.
  - simpl in Hj. apply andb_true_iff in Hj as [Hnd Hj].
    assert (Forall (fun kv => parses (snd kv)) props) as Hall.
    { clear - IH Hj. induction IH as [|kv props Hx _ IHp]; constructor.
      - apply Hx. simpl in Hj. by apply andb_true_iff in Hj as [? _].
      - apply IHp. simpl in Hj. by apply andb_true_iff in Hj as [_ ?]. }
    intros [|fuel] rest Hf; [simpl in Hf; lia|].
    destruct props as [|[k x] props]; [reflexivity|].
    inversion Hall as [|? ? Hx Hp]; subst. cbn [snd] in Hx.
    simpl tokens in *. cbn [List.map sep_tokens fst snd] in *.
    change (List.map (fun kv => TString (fst kv) :: TColon :: tokens (snd kv)) props)
      with (List.map member_tokens props) in *.
    change (TString k :: TColon :: tokens x) with (member_tokens (k, x)) in *.
    cbn [app]. rewrite <- List.app_assoc.
    unfold member_tokens at 1. cbn [fst snd app parse_value].
    change (TString k :: TColon :: tokens x ++ ?r) with (member_tokens (k, x) ++ r).
    change (List.map (fun kv => TString (fst kv) :: TColon :: tokens (snd kv)) props)
      with (List.map member_tokens props).
    rewrite (parse_members_tokens props Hp k x fuel rest Hx).
    + cbn [rbind]. by rewrite build_object_id.
    + revert Hf. rewrite !length_app. cbn [member_tokens length fst snd app].
      rewrite !length_app. lia.
Qed.

(** [JSON.parse] reads the text of a JSON value back to that value, for
    the compact text and for any indentation made of white space. *)
Lemma parse_text_of v gap :
  is_json v = true -> forallb is_ws gap = true ->
  parse (text_of gap [] v) = Ok v.
Proof.
  intros Hj Hgap. unfold parse, lex.
  pose proof (lex_serialize v Hj gap [] Hgap eq_refl [] [] I) as Hlex.
  cbn [fst snd] in Hlex. rewrite app_nil_r in Hlex. rewrite Hlex.
  simpl lex_from. rewrite app_nil_r, rev_involutive. cbn [rbind].
  pose proof (parse_value_tokens v Hj (S (length (tokens v))) []) as Hp.
  rewrite app_nil_r in Hp. rewrite Hp by lia. reflexivity.
Qed.

(** *** What stringify drops *)

Lemma serialize_normalize v : forall gap indent,
  serialize gap indent (normalize v) = serialize gap indent v.
Proof.
  induction v as [| |b|n|s|l IH|props IH] using jsval_nested_ind; intros gap indent;
    try reflexivity.
  - simpl. do 2 f_equal. rewrite List.map_map.
    apply map_ext_Forall. eapply Forall_impl; [exact IH|].
    intros x Hx. simpl. destruct x; try reflexivity; by rewrite Hx.
  - simpl. do 2 f_equal.
    induction IH as [|[k x] props Hx _ IHp]; [reflexivity|].
    cbn [flat_map]. rewrite <- IHp. rewrite flat_map_app. f_equal.
    cbn [fst snd] in *. specialize (Hx gap (indent ++ gap)).
    destruct x; cbn [flat_map app fst snd]; rewrite ?List.app_nil_r;
      try rewrite Hx; reflexivity.
Qed.

Lemma kept_keys_in k props :
  In k (List.map fst (kept props)) -> In k (List.map fst props).
Proof.
  unfold kept. induction props as [|[k2 x2] props IH]; [done|].
  cbn [flat_map fst snd]. rewrite List.map_app, in_app_iff. intros [Hin|Hin].
  - left. destruct x2; simpl in Hin; tauto.
  - right. by apply IH.
Qed.

Lemma nodup_keys_kept props :
  nodup_keys (List.map fst props) = true -> nodup_keys (List.map fst (kept props)) = true.
Proof.
  induction props as [|[k x] props IH]; [done|].
  simpl. intros Hnd. apply andb_true_iff in Hnd as [Hk Hnd].
  specialize (IH Hnd).
  assert (nodup_keys (k :: List.map fst (kept props)) = true) as Hcons.
  { simpl. rewrite IH, andb_true_r. apply negb_true_iff.
    destruct (existsb (str_eqb k) (List.map fst (kept props))) eqn:E; [|reflexivity].
    apply existsb_exists in E as (k' & Hin & Heq). apply str_eqb_eq in Heq. subst k'.
    apply negb_true_iff in Hk. apply existsb_str_eqb_false in Hk.
    exfalso. apply Hk. by apply kept_keys_in. }
  unfold kept in *. destruct x; try exact Hcons. exact IH.
Qed.

Lemma is_json_normalize v :
  storable v = true -> v <> JUndefined -> is_json (normalize v) = true.
Proof.
  induction v as [| |b|n|s|l IH|props IH] using jsval_nested_ind; intros Hs Hu;
    try done.
  - simpl in *. rewrite forallb_forall in *. intros y Hy.
    apply in_map_iff in Hy as (x & <- & Hx).
    rewrite List.Forall_forall in IH. specialize (IH x Hx).
    destruct x; try reflexivity; apply IH; auto; discriminate.
  - simpl in Hs. apply andb_true_iff in Hs as [Hnd Hs].
    simpl. apply andb_true_iff. split.
    + by apply nodup_keys_kept.
    + rewrite forallb_forall. intros [k y] Hy. apply in_flat_map in Hy as ([k' x] & Hx & Hy).
      rewrite forallb_forall in Hs. specialize (Hs _ Hx).
      rewrite List.Forall_forall in IH. specialize (IH _ Hx).
      cbn [fst snd] in *.
      destruct x; simpl in Hy; try done; destruct Hy as [Hy|[]]; injection Hy as <- <-;
        apply IH; auto; discriminate.
Qed.

(** [JSON.parse(JSON.stringify(v, null, gap))] is [v] without what
    [stringify] drops. *)
Lemma parse_stringify v gap :
  storable v = true -> v <> JUndefined -> forallb is_ws gap = true ->
  exists text, stringify v gap = Some text /\ parse text = Ok (normalize v).
Proof.
  intros Hs Hu Hgap. unfold stringify.
  destruct (serialize gap [] v) as [text|] eqn:Hser.
  - exists text. split; [reflexivity|].
    pose proof (parse_text_of (normalize v) gap (is_json_normalize v Hs Hu) Hgap) as Hp.
    unfold text_of in Hp. by rewrite serialize_normalize, Hser in Hp.
  - apply serialize_none in Hser. contradiction.
Qed.

End JsonFacts.


(** ** Character cards *)

Section ParserFacts.
Import JSON JsValue Parser.

Lemma lookup_kept k props :
  nodup_keys (List.map fst props) = true ->
  lookup k (kept props) = normalize (lookup k props).
Proof.
  induction props as [|[k' x] props IH]; [reflexivity|].
  intros Hnd. simpl in Hnd. apply andb_true_iff in Hnd as [Hk Hnd].
  apply negb_true_iff in Hk. apply existsb_str_eqb_false in Hk.
  specialize (IH Hnd). simpl lookup.
  destruct (str_eqb k k') eqn:E.
  - apply str_eqb_eq in E. subst k'.
    assert (lookup k (kept props) = JUndefined) as Hnone.
    { assert (~ In k (List.map fst (kept props))) as Hnot
        by (intros Hin; apply Hk; by apply kept_keys_in).
      clear - Hnot. induction (kept props) as [|[k2 x2] l IHl]; [reflexivity|].
      simpl in *. destruct (str_eqb k k2) eqn:E2.
      - apply str_eqb_eq in E2. subst. tauto.
      - apply IHl. tauto. }
    unfold kept in *. cbn [flat_map fst snd].
    destruct x; cbn [app lookup]; try (rewrite (proj2 (str_eqb_eq k k) eq_refl); reflexivity).
    exact Hnone.
  - unfold kept in *. cbn [flat_map fst snd].
    destruct x; cbn [app lookup]; rewrite ?E; exact IH.
Qed.

Lemma normalize_is_json v : is_json v = true -> normalize v = v.
Proof.
  induction v as [| |b|n|s|l IH|props IH] using jsval_nested_ind; intros Hj;
    try reflexivity.
  - simpl in *. f_equal. induction IH as [|x l Hx _ IHl]; [reflexivity|].
    simpl in Hj. apply andb_true_iff in Hj as [Hjx Hjl].
    simpl. rewrite IHl by exact Hjl. rewrite Hx by exact Hjx.
    destruct x; try reflexivity. discriminate.
  - simpl in Hj. apply andb_true_iff in Hj as [_ Hj]. simpl. f_equal.
    induction IH as [|[k x] props Hx _ IHp]; [reflexivity|].
    simpl in Hj. apply andb_true_iff in Hj as [Hjx Hjp].
    cbn [flat_map fst snd] in *. rewrite IHp by exact Hjp. rewrite Hx by exact Hjx.
    destruct x; try reflexivity. discriminate.
Qed.

Lemma is_json_storable v : is_json v = true -> storable v = true.
Proof.
  induction v as [| |b|n|s|l IH|props IH] using jsval_nested_ind; intros Hj;
    try done.
  - simpl in *. induction IH as [|x l Hx _ IHl]; [reflexivity|].
    simpl in *. apply andb_true_iff in Hj as [Hjx Hjl].
    by rewrite Hx, IHl.
  - simpl in *. apply andb_true_iff in Hj as [Hnd Hj]. rewrite Hnd. simpl.
    induction IH as [|[k x] props Hx _ IHp]; [reflexivity|].
    simpl in *. apply andb_true_iff in Hj as [Hjx Hjp].
    apply andb_true_iff in Hnd as [_ Hnd]. by rewrite Hx, IHp.
Qed.

Lemma is_json_strings l : is_json (JArr (List.map JStr l)) = true.
Proof. simpl. induction l; simpl; auto. Qed.

Lemma or_empty_string s : or_empty (JStr s) = JStr s.
Proof. by destruct s. Qed.

(** The fields of a typed character are JSON values or absent. *)
Definition field_ok (v : jsval) : Prop :=
  storable v = true /\ normalize v = v.

Lemma field_ok_string s : field_ok (JStr s).
Proof. by split. Qed.

Lemma field_ok_opt_string o : field_ok (opt_string o).
Proof. by destruct o. Qed.

Lemma field_ok_opt_strings o : field_ok (opt_strings o).
Proof.
  destruct o as [l|]; [|by split]. split.
  - apply is_json_storable, is_json_strings.
  - apply normalize_is_json, is_json_strings.
Qed.

Lemma card_round_trip (d : CardData) gap :
  forallb is_ws gap = true ->
  truthy (name d) = true ->
  field_ok (name d) -> field_ok (description d) -> field_ok (personality d) ->
  field_ok (scenario d) -> field_ok (first_mes d) -> field_ok (mes_example d) ->
  field_ok (creator_notes d) -> field_ok (system_prompt d) ->
  field_ok (post_history_instructions d) -> field_ok (alternate_greetings d) ->
  field_ok (tags d) -> field_ok (creator d) -> field_ok (character_version d) ->
  field_ok (extensions d) ->
  or_empty (description d) = description d -> or_empty (personality d) = personality d ->
  or_empty (scenario d) = scenario d -> or_empty (first_mes d) = first_mes d ->
  or_empty (mes_example d) = mes_example d ->
  parseCharacterCard
    (stringify_card {| spec := js "chara_card_v2"; spec_version := js "2.0"; data := d |} gap) =
  Ok {| spec := js "chara_card_v2"; spec_version := js "2.0"; data := d |}.
Proof.
  intros Hgap Hname [S1 N1] [S2 N2] [S3 N3] [S4 N4] [S5 N5] [S6 N6] [S7 N7] [S8 N8]
         [S9 N9] [S10 N10] [S11 N11] [S12 N12] [S13 N13] [S14 N14] O2 O3 O4 O5 O6.
  set (card := {| spec := js "chara_card_v2"; spec_version := js "2.0"; data := d |}).
  assert (Hnd : nodup_keys (List.map fst (data_props d)) = true) by (vm_compute; reflexivity).
  assert (Hst : storable (card_to_value card) = true).
  { unfold card_to_value, data_to_value, data_props. cbn [data card].
    cbn [storable forallb fst snd List.map].
    rewrite S1, S2, S3, S4, S5, S6, S7, S8, S9, S10, S11, S12, S13, S14.
    vm_compute. reflexivity. }
  destruct (parse_stringify (card_to_value card) gap Hst ltac:(discriminate) Hgap)
    as (text & Htext & Hparse).
  unfold parseCharacterCard, stringify_card. rewrite Htext, Hparse. cbn [rbind].
  change (normalize (card_to_value card))
    with (JObj [(js "spec", JStr (js "chara_card_v2"));
                (js "spec_version", JStr (js "2.0"));
                (js "data", JObj (kept (data_props d)))]).
  unfold card_of_value.
  replace (isV2Card _) with true by (vm_compute; reflexivity).
  unfold validateV2Card.
  replace (get_prop (js "data") _) with (JObj (kept (data_props d)))
    by (vm_compute; reflexivity).
  cbn [truthy negb get_prop].
  rewrite !lookup_kept by exact Hnd.
  change (lookup (js "name") (data_props d)) with (name d).
  change (lookup (js "description") (data_props d)) with (description d).
  change (lookup (js "personality") (data_props d)) with (personality d).
  change (lookup (js "scenario") (data_props d)) with (scenario d).
  change (lookup (js "first_mes") (data_props d)) with (first_mes d).
  change (lookup (js "mes_example") (data_props d)) with (mes_example d).
  change (lookup (js "creator_notes") (data_props d)) with (creator_notes d).
  change (lookup (js "system_prompt") (data_props d)) with (system_prompt d).
  change (lookup (js "post_history_instructions") (data_props d))
    with (post_history_instructions d).
  change (lookup (js "alternate_greetings") (data_props d)) with (alternate_greetings d).
  change (lookup (js "tags") (data_props d)) with (tags d).
  change (lookup (js "creator") (data_props d)) with (creator d).
  change (lookup (js "character_version") (data_props d)) with (character_version d).
  change (lookup (js "extensions") (data_props d)) with (extensions d).
  rewrite N1, N2, N3, N4, N5, N6, N7, N8, N9, N10, N11, N12, N13, N14.
  rewrite Hname, O2, O3, O4, O5, O6. cbn [negb]. by destruct d.
Qed.

End ParserFacts.

(** C2. For every character whose name is not empty (and whose
    extensions, when present, are a JSON value), parsing the exported JSON
    text, compact or pretty-printed, gives a generation-2 card whose data
    fields are those of the character; the identity metadata plays no part. *)
Theorem C2_json_round_trip (character : Types.Character) (pretty : bool) :
  Parser.valid_data (Types.ch_data character) = true ->
  Parser.parseCharacterCard (Parser.exportCharacterToJson character pretty) =
  Ok {| Parser.spec := js "chara_card_v2";
        Parser.spec_version := js "2.0";
        Parser.data := Parser.data_fields (Types.ch_data character) |}.
Proof.
  intros Hvalid. unfold Parser.valid_data in Hvalid.
  apply andb_true_iff in Hvalid as [Hname Hext].
  unfold Parser.exportCharacterToJson, Parser.exportToV2Card.
  assert (forall gap, forallb JSON.is_ws gap = true ->
    Parser.parseCharacterCard
      (Parser.stringify_card
         {| Parser.spec := js "chara_card_v2"; Parser.spec_version := js "2.0";
            Parser.data := Parser.data_fields (Types.ch_data character) |} gap) =
    Ok {| Parser.spec := js "chara_card_v2"; Parser.spec_version := js "2.0";
          Parser.data := Parser.data_fields (Types.ch_data character) |}) as Hgap.
  { intros gap Hws. apply card_round_trip; try exact Hws; cbn [Parser.data_fields
      Parser.name Parser.description Parser.personality Parser.scenario Parser.first_mes
      Parser.mes_example Parser.creator_notes Parser.system_prompt
      Parser.post_history_instructions Parser.alternate_greetings Parser.tags
      Parser.creator Parser.character_version Parser.extensions];
      try apply field_ok_string; try apply field_ok_opt_string;
      try apply field_ok_opt_strings; try apply or_empty_string.
    - exact Hname.
    - destruct (Types.cd_extensions (Types.ch_data character)) as [v|]; [|by split].
      split; [by apply is_json_storable|by apply normalize_is_json]. }
  destruct pretty; apply Hgap; reflexivity.
Qed.

Lemma C2_json_round_trip_witness :
  Parser.parseCharacterCard
    (Parser.exportCharacterToJson
       (Parser.createCharacterFromData (Parser.sample_data (js "Eva")) None (js "id-1") 1700)
       true) =
  Ok {| Parser.spec := js "chara_card_v2";
        Parser.spec_version := js "2.0";
        Parser.data := Parser.data_fields (Parser.sample_data (js "Eva")) |}.
Proof.
  apply (C2_json_round_trip
           (Parser.createCharacterFromData (Parser.sample_data (js "Eva")) None (js "id-1") 1700)
           true).
  vm_compute. reflexivity.
Defined.





(** ** Chat manager *)

Section ChatManagerFacts.
Import Types Database ChatManager.
Context {O : Oracle}.

Lemma copy_messages_spec messages : forall w,
  copy_messages messages w =
  Ok (imap (fun k m => with_id (uuid (ids_used w + k)) m) messages,
      {| chat_sessions := chat_sessions w;
         ids_used := ids_used w + length messages;
         ticks := ticks w |}).
Proof.
  induction messages as [|m rest IH]; intros w.
  - simpl. unfold ret. destruct w. simpl. by rewrite Nat.add_0_r.
  - simpl. unfold Database.bind at 1. unfold generateId at 1.
    unfold Database.bind at 1. rewrite IH. unfold ret. simpl.
    rewrite Nat.add_0_r. do 3 f_equal.
    + apply imap_ext. intros k x _. simpl. do 2 f_equal. lia.
    + f_equal. lia.
Qed.

Lemma findIndex_lt id messages i :
  findIndex id messages = Some i -> (i < length messages)%nat.
Proof.
  revert i. induction messages as [|m rest IH]; intros i; simpl; [discriminate|].
  destruct (str_eqb (msg_id m) id).
  - intros [= <-]. lia.
  - destruct (findIndex id rest) as [j|]; [|discriminate].
    intros [= <-]. specialize (IH j eq_refl). lia.
Qed.

(** A mutation of one session leaves the rows of the other sessions as
    they are. *)
Lemma change_message_other sid fid messageId change x w w' :
  fid <> sid ->
  change_message fid messageId change w = Ok (x, w') ->
  chat_sessions w' !! sid = chat_sessions w !! sid.
Proof.
  intros Hne. unfold change_message, Database.bind, getChatSession.
  destruct (chat_sessions w !! fid) as [row|]; [|discriminate]. cbn [cs_messages].
  destruct (findIndex _ _); [|discriminate].
  destruct (change _); [|discriminate].
  intros [= _ <-]. simpl. by rewrite lookup_insert_ne.
Qed.

Lemma mutate_other sid fid mu x w w' :
  fid <> sid ->
  mutate fid mu w = Ok (x, w') ->
  chat_sessions w' !! sid = chat_sessions w !! sid.
Proof.
  intros Hne. destruct mu; simpl.
  - unfold addMessage, Database.bind, getChatSession.
    destruct (chat_sessions w !! fid); [|discriminate].
    intros [= _ <-]. simpl. by rewrite lookup_insert_ne.
  - unfold updateMessage, Database.bind at 1.
    destruct (change_message _ _ _ w) as [[m w1]|] eqn:Hc; [|discriminate].
    intros [= _ <-]. by eapply change_message_other.
  - unfold deleteMessage, Database.bind, getChatSession.
    destruct (chat_sessions w !! fid); [|discriminate]. cbn [cs_messages].
    destruct (findIndex _ _); [|discriminate].
    intros [= _ <-]. simpl. by rewrite lookup_insert_ne.
  - unfold addSwipe, Database.bind at 1.
    destruct (change_message _ _ _ w) as [[m w1]|] eqn:Hc; [|discriminate].
    intros [= _ <-]. by eapply change_message_other.
  - unfold setSwipeIndex, Database.bind at 1.
    destruct (change_message _ _ _ w) as [[m w1]|] eqn:Hc; [|discriminate].
    intros [= _ <-]. by eapply change_message_other.
  - unfold updateMetadata, Database.bind, getChatSession.
    destruct (chat_sessions w !! fid); [|discriminate].
    intros [= _ <-]. simpl. by rewrite lookup_insert_ne.
  - unfold clearMessages, Database.bind, getChatSession.
    destruct (chat_sessions w !! fid); [|discriminate].
    intros [= _ <-]. simpl. by rewrite lookup_insert_ne.
Qed.

Lemma mutate_all_other sid fid mus : forall w,
  fid <> sid ->
  chat_sessions (mutate_all fid mus w) !! sid = chat_sessions w !! sid.
Proof.
  induction mus as [|mu rest IH]; intros w Hne; [reflexivity|].
  simpl. destruct (mutate fid mu w) as [[x w']|] eqn:Hm.
  - rewrite IH by exact Hne. by eapply mutate_other.
  - by apply IH.
Qed.

End ChatManagerFacts.

(** Let the row of [sessionId] be in the store and let the ids that
    the generator is going to return be new (none of them is [sessionId]
    or the id of a message of the session). If [fromMessageId] is first
    found at index [i], [forkChat] returns a session of exactly [i + 1]
    messages; the message at each index equals the source message at that
    index in everything but the id, which is the id generated for it and
    is not the id of any source message; the row of the source session is
    the same after the fork and after any sequence of mutations of the
    forked session. If [fromMessageId] is not found, [forkChat] throws
    "Message not found". *)
Theorem forkChat_copies_prefix (O : Oracle) (w : Database.World)
    (sessionId fromMessageId : jsstring) (row : Database.Row) :
  Database.chat_sessions w !! sessionId = Some row ->
  (forall n, (Database.ids_used w <= n)%nat ->
     uuid n <> sessionId /\
     ~ In (uuid n) (List.map Types.msg_id (Database.row_messages row))) ->
  match ChatManager.findIndex fromMessageId (Database.row_messages row) with
  | Some i =>
    exists forked w',
      ChatManager.forkChat sessionId fromMessageId w = Ok (forked, w') /\
      length (Types.cs_messages forked) = (i + 1)%nat /\
      (forall k m', Types.cs_messages forked !! k = Some m' ->
         exists m, Database.row_messages row !! k = Some m /\
                   ChatManager.same_but_id m' m /\
                   Types.msg_id m' = uuid (Database.ids_used w + 1 + k) /\
                   ~ In (Types.msg_id m')
                        (List.map Types.msg_id (Database.row_messages row))) /\
      Types.cs_id forked <> sessionId /\
      Database.chat_sessions w' !! sessionId = Some row /\
      (forall mus,
         Database.chat_sessions (ChatManager.mutate_all (Types.cs_id forked) mus w')
           !! sessionId = Some row)
  | None =>
    ChatManager.forkChat sessionId fromMessageId w =
    Throw (Error (js "Message not found: " ++ fromMessageId))
  end.
Proof.
  intros Hrow Hfresh.
  destruct (ChatManager.findIndex fromMessageId (Database.row_messages row)) as [i|] eqn:Hfind.
  - pose proof (findIndex_lt _ _ _ Hfind) as Hi.
    unfold ChatManager.forkChat, Database.bind at 1, Database.getChatSession.
    rewrite Hrow. cbn [Types.cs_messages]. rewrite Hfind.
    unfold Database.bind at 1, Database.getCurrentTimestamp.
    unfold Database.bind at 1, Database.generateId.
    unfold Database.bind at 1. rewrite copy_messages_spec.
    unfold Database.bind, Database.saveChatSession, Database.ret.
    cbn [Database.chat_sessions Database.ids_used Database.ticks Types.cs_id
         Types.cs_messages Types.cs_characterId Types.cs_groupId Types.cs_metadata
         Types.cs_createdAt Types.cs_updatedAt].
    destruct (Hfresh (Database.ids_used w) (le_n _)) as [Hsid _].
    eexists _, _. split; [reflexivity|].
    cbn [Types.cs_messages Types.cs_id Database.chat_sessions].
    split; [rewrite length_imap, length_take; lia|].
    split; [|split; [exact Hsid|split]].
    + intros k m' Hk. rewrite list_lookup_imap in Hk.
      destruct (take (i + 1) (Database.row_messages row) !! k) as [m|] eqn:Hm;
        [|discriminate].
      injection Hk as <-. exists m. split.
      * rewrite lookup_take_Some in Hm. tauto.
      * split; [by repeat split|]. cbn [ChatManager.with_id Types.msg_id].
        split; [f_equal; lia|]. apply Hfresh. lia.
    + by rewrite lookup_insert_ne.
    + intros mus. rewrite mutate_all_other by exact Hsid.
      cbn [Database.chat_sessions]. by rewrite lookup_insert_ne.
  - unfold ChatManager.forkChat, Database.bind at 1, Database.getChatSession.
    rewrite Hrow. cbn [Types.cs_messages]. by rewrite Hfind.
Qed.

Lemma forkChat_copies_prefix_witness :
  exists forked w',
    @ChatManager.forkChat ChatManager.counting_oracle (js "s1") (js "m2")
      ChatManager.sample_world = Ok (forked, w') /\
    length (Types.cs_messages forked) = 2%nat /\
    Database.chat_sessions w' !! js "s1" = Some ChatManager.sample_row.
Proof.
  pose proof (forkChat_copies_prefix ChatManager.counting_oracle ChatManager.sample_world
                (js "s1") (js "m2") ChatManager.sample_row) as H.
  cbv zeta in H.
  assert (ChatManager.findIndex (js "m2") (Database.row_messages ChatManager.sample_row)
          = Some 1%nat) as Hf by reflexivity.
  rewrite Hf in H.
  destruct H as (forked & w' & Hfork & Hlen & _ & _ & Hsrc & _).
  - reflexivity.
  - intros n _. cbn [uuid ChatManager.counting_oracle].
    change (js "u" ++ ?x) with (117%N :: x). split; [discriminate|].
    simpl. intros [H|[H|[H|[]]]]; discriminate.
  - exists forked, w'. auto.
Defined.

Section ForkFacts.
Import Types Database ChatManager.
Context {O : Oracle}.

(** The ids of the copies are the ids generated one after the other. *)
Lemma copied_ids messages : forall n,
  List.map msg_id (imap (fun k m => with_id (uuid (n + k)) m) messages) =
  List.map uuid (seq n (length messages)).
Proof.
  induction messages as [|m rest IH]; intros n; [reflexivity|].
  cbn [imap List.map length seq with_id msg_id]. rewrite Nat.add_0_r. f_equal.
  rewrite <- IH. f_equal. apply imap_ext. intros k x _. cbn. do 2 f_equal. lia.
Qed.

Lemma copied_same_but_id (f : nat -> jsstring) messages :
  Forall2 same_but_id (imap (fun k m => with_id (f k) m) messages) messages.
Proof.
  apply Forall2_same_length_lookup_2; [by rewrite length_imap|].
  intros k m' m Hm' Hm. rewrite list_lookup_imap, Hm in Hm'.
  injection Hm' as <-. by repeat split.
Qed.

End ForkFacts.

(** C9. Let the row of [sessionId] be in the store and let the ids that
    the generator is going to return be new (none of them is [sessionId]
    or the id of a message of the session). If [fromMessageId] is first
    found at index [i], [forkChat] returns a new session with exactly
    [i + 1] messages, which are the first [i + 1] messages of the source
    in every field but the id; their ids are the ids generated one after
    the other once the session id has been generated, and none of them is
    the id of a source message. The row of the source session is the same
    after the fork and after any sequence of mutations of the forked
    session. If [fromMessageId] is not among the messages, [forkChat]
    throws "Message not found". *)
Theorem C9_fork_copies_prefix (O : Oracle) (w : Database.World)
    (sessionId fromMessageId : jsstring) (row : Database.Row) :
  Database.chat_sessions w !! sessionId = Some row ->
  (forall n, (Database.ids_used w <= n)%nat ->
     uuid n <> sessionId /\
     ~ In (uuid n) (List.map Types.msg_id (Database.row_messages row))) ->
  (forall i,
     ChatManager.findIndex fromMessageId (Database.row_messages row) = Some i ->
     exists forked w',
       ChatManager.forkChat sessionId fromMessageId w = Ok (forked, w') /\
       length (Types.cs_messages forked) = (i + 1)%nat /\
       Forall2 ChatManager.same_but_id (Types.cs_messages forked)
               (take (i + 1) (Database.row_messages row)) /\
       List.map Types.msg_id (Types.cs_messages forked) =
         List.map uuid (seq (Database.ids_used w + 1) (i + 1)) /\
       (forall m', In m' (Types.cs_messages forked) ->
          ~ In (Types.msg_id m') (List.map Types.msg_id (Database.row_messages row))) /\
       Types.cs_id forked = uuid (Database.ids_used w) /\
       Types.cs_id forked <> sessionId /\
       Database.chat_sessions w' !! sessionId = Some row /\
       (forall mus,
          Database.chat_sessions (ChatManager.mutate_all (Types.cs_id forked) mus w')
            !! sessionId = Some row)) /\
  (ChatManager.findIndex fromMessageId (Database.row_messages row) = None ->
   ChatManager.forkChat sessionId fromMessageId w =
   Throw (Error (js "Message not found: " ++ fromMessageId))).
Proof.
  intros Hrow Hfresh. split.
  - intros i Hfind.
    pose proof (findIndex_lt _ _ _ Hfind) as Hi.
    assert (Hlen : length (take (i + 1) (Database.row_messages row)) = (i + 1)%nat)
      by (rewrite length_take; lia).
    unfold ChatManager.forkChat, Database.bind at 1, Database.getChatSession.
    rewrite Hrow. cbn [Types.cs_messages]. rewrite Hfind.
    unfold Database.bind at 1, Database.getCurrentTimestamp.
    unfold Database.bind at 1, Database.generateId.
    unfold Database.bind at 1. rewrite copy_messages_spec.
    unfold Database.bind, Database.saveChatSession, Database.ret.
    cbn [Database.chat_sessions Database.ids_used Database.ticks Types.cs_id
         Types.cs_messages Types.cs_characterId Types.cs_groupId Types.cs_metadata
         Types.cs_createdAt Types.cs_updatedAt].
    destruct (Hfresh (Database.ids_used w) (le_n _)) as [Hsid _].
    eexists _, _. split; [reflexivity|].
    cbn [Types.cs_messages Types.cs_id Database.chat_sessions].
    split; [by rewrite length_imap|].
    split; [apply (copied_same_but_id (fun k => uuid (S (Database.ids_used w) + k)))|].
    split; [by rewrite copied_ids, Hlen, (Nat.add_1_r (Database.ids_used w))|].
    split; [|split; [reflexivity|split; [exact Hsid|split]]].
    + intros m' Hin. apply list_elem_of_In, elem_of_lookup_imap in Hin
        as (k & m & -> & _).
      cbn [ChatManager.with_id Types.msg_id]. apply Hfresh. lia.
    + by rewrite lookup_insert_ne.
    + intros mus. rewrite mutate_all_other by exact Hsid.
      cbn [Database.chat_sessions]. by rewrite lookup_insert_ne.
  - intros Hfind.
    unfold ChatManager.forkChat, Database.bind at 1, Database.getChatSession.
    rewrite Hrow. cbn [Types.cs_messages]. by rewrite Hfind.
Qed.

Lemma C9_fork_copies_prefix_witness :
  exists forked w',
    @ChatManager.forkChat ChatManager.counting_oracle (js "s1") (js "m2")
      ChatManager.sample_world = Ok (forked, w') /\
    List.map Types.msg_id (Types.cs_messages forked) = [js "u1"; js "u2"] /\
    Database.chat_sessions w' !! js "s1" = Some ChatManager.sample_row.
Proof.
  destruct (C9_fork_copies_prefix ChatManager.counting_oracle ChatManager.sample_world
              (js "s1") (js "m2") ChatManager.sample_row) as [H _].
  - reflexivity.
  - intros n _. cbn [uuid ChatManager.counting_oracle].
    change (js "u" ++ ?x) with (117%N :: x). split; [discriminate|].
    simpl. intros [H|[H|[H|[]]]]; discriminate.
  - destruct (H 1%nat eq_refl) as (forked & w' & Hfork & _ & _ & Hids & _ & _ & _ & Hsrc & _).
    exists forked, w'. split; [exact Hfork|]. split; [|exact Hsrc].
    rewrite Hids. reflexivity.
Defined.

(** ** PNG embedding *)

Section PngFacts.
Import Types.

Lemma quote_unit_keeps c : (255 < c)%N -> JSON.quote_unit c = [c].
Proof.
  intros H. unfold JSON.quote_unit.
  repeat match goal with
         | |- context [(c =? ?k)%N] => destruct (N.eqb_spec c k); [lia|]
         end.
  destruct (N.ltb_spec c 32); [lia|]. reflexivity.
Qed.

(** A code unit above 255 that is not a surrogate is copied by
    QuoteJSONString. *)
Lemma quote_body_keeps c :
  (255 < c)%N -> JSON.is_high_surrogate c = false -> JSON.is_low_surrogate c = false ->
  forall n s, (length s <= n)%nat -> In c s -> In c (JSON.quote_body s).
Proof.
  intros Hc Hh Hl. induction n as [|n IH]; intros s Hn Hin.
  - destruct s; [destruct Hin|simpl in Hn; lia].
  - destruct s as [|a s']; [destruct Hin|]. simpl in Hn. cbn [JSON.quote_body].
    destruct (JSON.is_high_surrogate a) eqn:Ha.
    + destruct Hin as [->|Hin]; [congruence|].
      destruct s' as [|d s'']; [destruct Hin|].
      destruct (JSON.is_low_surrogate d) eqn:Hd.
      * destruct Hin as [->|Hin]; [congruence|].
        right. right. apply IH; [simpl in Hn; lia|exact Hin].
      * apply in_or_app. right. apply IH; [lia|]. exact Hin.
    + destruct (JSON.is_low_surrogate a) eqn:Ha'.
      * destruct Hin as [->|Hin]; [congruence|].
        apply in_or_app. right. apply IH; [lia|exact Hin].
      * apply in_or_app. destruct Hin as [->|Hin].
        -- left. rewrite quote_unit_keeps by exact Hc. now left.
        -- right. apply IH; [lia|exact Hin].
Qed.

Lemma join_keeps_head {A} (c : A) sep x r : In c x -> In c (Str.join sep (x :: r)).
Proof.
  intros H. destruct r; [exact H|].
  change (In c (x ++ sep ++ Str.join sep (l :: r))). apply in_or_app. now left.
Qed.

Lemma join_keeps {A} (c : A) sep x : forall l, In x l -> In c x -> In c (Str.join sep l).
Proof.
  induction l as [|y r IH]; intros Hx Hc; [destruct Hx|].
  destruct Hx as [->|Hx]; [now apply join_keeps_head|].
  destruct r as [|z r]; [destruct Hx|].
  change (In c (y ++ sep ++ Str.join sep (z :: r))).
  apply in_or_app. right. apply in_or_app. right. now apply IH.
Qed.

(** What the text of a member holds, the compact text of the object
    holds. *)
Lemma serialize_object_keeps c props key v text :
  In (key, v) props -> JSON.serialize [] [] v = Some text -> In c text ->
  exists t, JSON.serialize [] [] (JObj props) = Some t /\ In c t.
Proof.
  intros Hkv Hv Hc.
  change (JSON.serialize [] [] (JObj props)) with
    (Some (JSON.wrap 123 125 [] [] []
             (flat_map (fun kv => match JSON.serialize [] [] (snd kv) with
                                  | Some str => [JSON.member [] (fst kv) str]
                                  | None => []
                                  end) props))).
  eexists. split; [reflexivity|].
  match goal with |- In c (JSON.wrap _ _ _ _ _ ?p) => set (partial := p) end.
  assert (In (JSON.member [] key text) partial) as Hm.
  { apply in_flat_map. exists (key, v). split; [exact Hkv|].
    cbn [fst snd]. rewrite Hv. now left. }
  unfold JSON.wrap. destruct partial as [|x r] eqn:Hp; [destruct Hm|].
  apply in_or_app. right. apply in_or_app. left.
  apply (join_keeps c [44%N] (JSON.member [] key text)); [exact Hm|].
  unfold JSON.member. apply in_or_app. right. right. exact Hc.
Qed.

Lemma stringify_card_keeps_name c character :
  (255 < c)%N -> JSON.is_high_surrogate c = false -> JSON.is_low_surrogate c = false ->
  In c (cd_name (ch_data character)) ->
  In c (Parser.stringify_card (Parser.exportToV2Card character) []).
Proof.
  intros Hc Hh Hl Hin.
  set (d := Parser.data_fields (ch_data character)).
  assert (exists t, JSON.serialize [] [] (Parser.data_to_value d) = Some t /\ In c t)
    as (t & Ht & Hct).
  { apply (serialize_object_keeps c _ (js "name") (JStr (cd_name (ch_data character)))
             (JSON.quote (cd_name (ch_data character)))).
    - left. reflexivity.
    - reflexivity.
    - unfold JSON.quote. cbn [app]. right. apply in_or_app. left.
      now apply (quote_body_keeps c Hc Hh Hl (length (cd_name (ch_data character)))). }
  destruct (serialize_object_keeps c
              [(js "spec", JStr (js "chara_card_v2")); (js "spec_version", JStr (js "2.0"));
               (js "data", Parser.data_to_value d)]
              (js "data") (Parser.data_to_value d) t) as (t' & Ht' & Hct').
  - right. right. left. reflexivity.
  - exact Ht.
  - exact Hct.
  - unfold Parser.stringify_card, JSON.stringify.
    change (Parser.card_to_value (Parser.exportToV2Card character)) with
      (JObj [(js "spec", JStr (js "chara_card_v2")); (js "spec_version", JStr (js "2.0"));
             (js "data", Parser.data_to_value d)]).
    rewrite Ht'. exact Hct'.
Qed.

End PngFacts.

(** ** More on truncation *)

Section TruncationMore.
Import Tokenizer.
Context {M : Type} `{MessageLike M}.
Variable tokenizer : TokenizerType.

Lemma sum_cost_nonneg l : 0 <= sum_cost tokenizer l.
Proof.
  induction l as [|m l IH]; simpl; [lia|].
  pose proof (message_cost_pos tokenizer m). lia.
Qed.

Lemma sum_cost_app l1 l2 :
  sum_cost tokenizer (l1 ++ l2) = sum_cost tokenizer l1 + sum_cost tokenizer l2.
Proof. induction l1 as [|m l1 IH]; simpl; lia. Qed.

(** When the whole list fits, the loop keeps every message. *)
Lemma truncate_loop_all_fit maxTokens l :
  3 + sum_cost tokenizer l <= maxTokens ->
  truncate_loop maxTokens (with_tokens tokenizer l) = (l, 3 + sum_cost tokenizer l, 0).
Proof.
  induction l as [|m l IH]; intros Hfit; [reflexivity|].
  simpl in Hfit. pose proof (message_cost_pos tokenizer m).
  change (truncate_loop maxTokens (with_tokens tokenizer (m :: l))) with
    (truncate_step maxTokens (truncate_loop maxTokens (with_tokens tokenizer l))
                   (m, countTokens (content_of m) tokenizer + 4)).
  rewrite IH by lia. unfold truncate_step.
  fold (message_cost tokenizer m).
  destruct (Z.leb_spec (3 + sum_cost tokenizer l + message_cost tokenizer m) maxTokens);
    [|lia].
  simpl. do 2 f_equal. lia.
Qed.

(** The loop only ever adds in front of what it holds. *)
Lemma truncate_fold_extends maxTokens l : forall st,
  exists kept,
    fst (fst (fold_right (fun mt st => truncate_step maxTokens st mt) st
                         (with_tokens tokenizer l))) = kept ++ fst (fst st).
Proof.
  induction l as [|m l IH]; intros st; [by exists []|].
  cbn [with_tokens List.map fold_right]. destruct (IH st) as [kept Hk].
  fold (with_tokens tokenizer l).
  destruct (fold_right _ st (with_tokens tokenizer l)) as [[res tot] rem].
  simpl in Hk. subst res. unfold truncate_step.
  destruct (_ <=? _); simpl; [by exists (m :: kept)|by exists kept].
Qed.

End TruncationMore.

(** A list of messages whose estimate is within the budget is returned as
    it is: nothing is removed and the result is not marked truncated. *)
Theorem truncateMessages_all_fit {M : Type} `{Tokenizer.MessageLike M}
    (messages : list M) (maxTokens : Z) (tokenizer : Tokenizer.TokenizerType) :
  Tokenizer.countMessagesTokens messages tokenizer <= maxTokens ->
  Tokenizer.truncateMessages messages maxTokens tokenizer =
  {| Tokenizer.tr_messages := messages; Tokenizer.tr_truncated := false;
     Tokenizer.tr_removedCount := 0 |}.
Proof.
  intros Hfit. rewrite countMessagesTokens_sum in Hfit.
  rewrite truncateMessages_unfold, truncate_loop_all_fit by exact Hfit.
  reflexivity.
Qed.

Lemma truncateMessages_all_fit_witness :
  Tokenizer.truncateMessages
    [Tokenizer.sample_old; Tokenizer.sample_long; Tokenizer.sample_new] 25
    Tokenizer.cl100k_base =
  {| Tokenizer.tr_messages := [Tokenizer.sample_old; Tokenizer.sample_long; Tokenizer.sample_new];
     Tokenizer.tr_truncated := false; Tokenizer.tr_removedCount := 0 |}.
Proof. apply truncateMessages_all_fit. vm_compute. discriminate. Defined.

(** The newest message is kept whenever it fits the budget by itself
    (its cost and the base overhead of 3): it is then the last message of
    the result. *)
Theorem truncateMessages_keeps_newest {M : Type} `{Tokenizer.MessageLike M}
    (older : list M) (newest : M) (maxTokens : Z) (tokenizer : Tokenizer.TokenizerType) :
  3 + Tokenizer.message_cost tokenizer newest <= maxTokens ->
  exists kept,
    Tokenizer.tr_messages
      (Tokenizer.truncateMessages (older ++ [newest]) maxTokens tokenizer) =
    kept ++ [newest].
Proof.
  intros Hfit. rewrite truncateMessages_unfold.
  unfold Tokenizer.truncate_loop, Tokenizer.with_tokens.
  rewrite map_app, fold_right_app.
  cbn [List.map fold_right Tokenizer.truncate_step].
  fold (Tokenizer.message_cost tokenizer newest).
  destruct (Z.leb_spec (3 + Tokenizer.message_cost tokenizer newest) maxTokens); [|lia].
  destruct (truncate_fold_extends tokenizer maxTokens older
              ([newest], 3 + Tokenizer.message_cost tokenizer newest, 0)) as [kept Hk].
  unfold Tokenizer.with_tokens in Hk.
  destruct (fold_right _ _ _) as [[res tot] rem]. simpl in Hk. subst res.
  by exists kept.
Qed.

Lemma truncateMessages_keeps_newest_witness :
  exists kept,
    Tokenizer.tr_messages
      (Tokenizer.truncateMessages
         ([Tokenizer.sample_old; Tokenizer.sample_long] ++ [Tokenizer.sample_new]) 11
         Tokenizer.cl100k_base) = kept ++ [Tokenizer.sample_new].
Proof. apply truncateMessages_keeps_newest. vm_compute. discriminate. Defined.

(** With a budget of at least the base overhead, truncating what
    [truncateMessages] returned, with the same budget, changes nothing. *)
Theorem truncateMessages_idempotent {M : Type} `{Tokenizer.MessageLike M}
    (messages : list M) (maxTokens : Z) (tokenizer : Tokenizer.TokenizerType) :
  3 <= maxTokens ->
  let kept := Tokenizer.tr_messages (Tokenizer.truncateMessages messages maxTokens tokenizer) in
  Tokenizer.truncateMessages kept maxTokens tokenizer =
  {| Tokenizer.tr_messages := kept; Tokenizer.tr_truncated := false;
     Tokenizer.tr_removedCount := 0 |}.
Proof.
  intros Hmax. cbv zeta. rewrite (truncateMessages_unfold tokenizer messages).
  pose proof (truncate_loop_inv tokenizer maxTokens messages) as Hinv.
  destruct (Tokenizer.truncate_loop maxTokens _) as [[res tot] rem].
  destruct Hinv as (_ & Ht & Hb & _). cbn [Tokenizer.tr_messages].
  rewrite truncateMessages_unfold, truncate_loop_all_fit by lia.
  reflexivity.
Qed.

Lemma truncateMessages_idempotent_witness :
  Tokenizer.truncateMessages [Tokenizer.sample_old; Tokenizer.sample_new] 11
    Tokenizer.cl100k_base =
  {| Tokenizer.tr_messages := [Tokenizer.sample_old; Tokenizer.sample_new];
     Tokenizer.tr_truncated := false; Tokenizer.tr_removedCount := 0 |}.
Proof.
  exact (truncateMessages_idempotent
           [Tokenizer.sample_old; Tokenizer.sample_long; Tokenizer.sample_new] 11
           Tokenizer.cl100k_base ltac:(lia)).
Defined.

(** The estimate of what [truncateMessagesPreserveSystem] returns is at
    most the budget or, when the system messages alone go beyond it, their
    own estimate: the system messages are never cut. *)
Theorem truncateMessagesPreserveSystem_budget {M : Type} `{Tokenizer.MessageLike M}
    (messages : list M) (maxTokens : Z) (tokenizer : Tokenizer.TokenizerType) :
  let systemMessages := List.filter Tokenizer.is_system messages in
  let r := Tokenizer.truncateMessagesPreserveSystem messages maxTokens tokenizer in
  Tokenizer.countMessagesTokens (Tokenizer.pr_messages r) tokenizer <=
  Z.max maxTokens (Tokenizer.countMessagesTokens systemMessages tokenizer).
Proof.
  cbv zeta. unfold Tokenizer.truncateMessagesPreserveSystem.
  rewrite system_tokens_sum, !countMessagesTokens_sum.
  set (sys := List.filter Tokenizer.is_system messages).
  set (chat := List.filter (fun m => negb (Tokenizer.is_system m)) messages).
  set (S := Tokenizer.sum_cost tokenizer sys).
  destruct (Z.leb_spec (maxTokens - (3 + S)) 0) as [Hle|Hgt].
  - cbn [Tokenizer.pr_messages]. fold S. lia.
  - pose proof (preserve_loop_truncate_loop tokenizer (maxTokens - (3 + S)) chat) as E.
    pose proof (truncate_loop_inv tokenizer (maxTokens - (3 + S) + 3) chat) as Hinv.
    rewrite E in Hinv.
    destruct (Tokenizer.preserve_loop _ _) as [kept used].
    destruct Hinv as (_ & Ht & Hb & _). cbn [Tokenizer.pr_messages].
    rewrite sum_cost_app. fold S. lia.
Qed.

(** ** More on the world-info matcher *)

Section WorldInfoMore.
Import Types WorldInfo.
Context {E : Engine}.

Lemma some_all_false {A} (f : A -> result bool) l :
  (forall x, In x l -> f x = Ok false) -> JsArray.some f l = Ok false.
Proof.
  induction l as [|x l IH]; intros Hf; [reflexivity|].
  simpl. rewrite (Hf x) by now left. simpl. apply IH. intros y Hy. apply Hf. now right.
Qed.

Lemma matchesKeyword_blank text keyword entry :
  Str.trim keyword = [] -> matchesKeyword text keyword entry = Ok false.
Proof.
  intros Ht. unfold matchesKeyword. rewrite Ht. simpl.
  by rewrite orb_true_r.
Qed.

Lemma matching_enabled text entry : matching text entry = true -> wi_enabled entry = true.
Proof.
  unfold matching, matchesEntry. destruct (wi_enabled entry); [reflexivity|].
  simpl. discriminate.
Qed.

Lemma constant_matching text entry :
  wi_enabled entry = true -> wi_constant entry = true -> matching text entry = true.
Proof. unfold matching, matchesEntry. by intros -> ->. Qed.

End WorldInfoMore.

(** An entry that is not constant and whose keys are all empty or blank
    matches no text. *)
Theorem matchesEntry_blank_keys (E : Engine) (text : jsstring)
    (entry : Types.WorldInfoEntry) :
  Types.wi_constant entry = false ->
  (forall key, In key (Types.wi_keys entry) -> Str.trim key = []) ->
  WorldInfo.matchesEntry text entry = Ok false.
Proof.
  intros Hc Hkeys. unfold WorldInfo.matchesEntry. rewrite Hc.
  destruct (Types.wi_enabled entry); [|reflexivity]. cbn [negb].
  rewrite some_all_false; [reflexivity|].
  intros key Hin. apply matchesKeyword_blank. by apply Hkeys.
Qed.

Lemma matchesEntry_blank_keys_witness :
  @WorldInfo.matchesEntry ToyEngine.engine (js "a  b")
    (WorldInfo.regex_entry (js "  ") (js "lore") false) = Ok false.
Proof.
  apply matchesEntry_blank_keys; [reflexivity|].
  intros key [<-|[]]. reflexivity.
Defined.

(** Whatever the text, on every engine that compiles the word-boundary
    pattern of an escaped key with the flags ['g'] and ['gi'],
    [scanForMatches] returns every entry that [getConstantEntries]
    returns, and returns only enabled entries of the list it was given. *)
Theorem scanForMatches_constant_and_enabled (E : Engine) (text : jsstring)
    (entries : list Types.WorldInfoEntry) :
  WorldInfo.escaped_patterns_compile E ->
  exists res,
    WorldInfo.scanForMatches text entries = Ok res /\
    (forall e, In e (WorldInfo.getConstantEntries entries) -> In e res) /\
    (forall e, In e res -> Types.wi_enabled e = true /\ In e entries).
Proof.
  intros Hesc.
  destruct (collect_matches_total text entries Hesc) as [matches Hm].
  pose proof (collect_matches_filter _ _ _ Hm) as ->.
  unfold WorldInfo.scanForMatches. rewrite Hm. cbn [rbind].
  eexists. split; [reflexivity|]. split.
  - intros e He. unfold WorldInfo.getConstantEntries in He.
    apply filter_In in He as [Hin Hb]. apply andb_true_iff in Hb as [Hen Hco].
    apply (Permutation_in e (Permutation_sym (sort_perm _ _))).
    apply filter_In. split; [exact Hin|]. by apply constant_matching.
  - intros e He. apply (Permutation_in e (sort_perm _ _)) in He.
    apply filter_In in He as [Hin Hb]. split; [|exact Hin].
    by apply (matching_enabled text).
Qed.

Lemma scanForMatches_constant_and_enabled_witness :
  exists res,
    @WorldInfo.scanForMatches ToyEngine.engine (js "hello")
      [WorldInfo.regex_entry (js "zz") (js "lore") false;
       WorldInfo.constant_entry (js "a") None 0] = Ok res /\
    In (WorldInfo.constant_entry (js "a") None 0) res.
Proof.
  destruct (scanForMatches_constant_and_enabled ToyEngine.engine (js "hello")
              [WorldInfo.regex_entry (js "zz") (js "lore") false;
               WorldInfo.constant_entry (js "a") None 0]
              toy_escaped_patterns_compile) as (res & Hres & Hconst & _).
  exists res. split; [exact Hres|]. apply Hconst. simpl. now left.
Defined.

(** [scanWithDepth] scans the last [scanDepth] messages, joined by line
    feeds, and the whole list when there are fewer; a depth of 0 does not
    scan nothing but every message. *)
Theorem scanWithDepth_window (E : Engine) (messages : list jsstring)
    (entries : list Types.WorldInfoEntry) (scanDepth : Z) :
  0 <= scanDepth ->
  WorldInfo.scanWithDepth messages entries scanDepth =
  WorldInfo.scanForMatches
    (Str.join [10%N]
       (if scanDepth =? 0 then messages
        else skipn (length messages - Z.to_nat scanDepth) messages))
    entries.
Proof.
  intros Hd. unfold WorldInfo.scanWithDepth, JsArray.slice_from.
  destruct (Z.eqb_spec scanDepth 0) as [->|Hne].
  - simpl. rewrite Z.min_l by lia. reflexivity.
  - destruct (Z.ltb_spec (- scanDepth) 0); [|lia].
    do 3 f_equal. lia.
Qed.

Lemma scanWithDepth_window_witness :
  @WorldInfo.scanWithDepth ToyEngine.engine [js "old"; js "new"]
    [WorldInfo.regex_entry (js "old") (js "lore") false] 0 =
  Ok [WorldInfo.regex_entry (js "old") (js "lore") false].
Proof.
  rewrite scanWithDepth_window by lia. reflexivity.
Defined.

(** ** More on the prompt builder *)

Section StringFacts.

Lemma starts_with_app k b : Str.starts_with k (k ++ b) = true.
Proof. induction k as [|c k IH]; simpl; [reflexivity|]. by rewrite N.eqb_refl. Qed.

Lemma includes_unfold s key :
  Str.includes s key =
  (Str.starts_with key s || match s with [] => false | _ :: s' => Str.includes s' key end).
Proof. destruct s; reflexivity. Qed.

Lemma includes_skip a s key :
  Str.starts_with key s = true -> Str.includes (a ++ s) key = true.
Proof.
  intros Hs. induction a as [|c a IH].
  - simpl. rewrite includes_unfold, Hs. reflexivity.
  - rewrite includes_unfold. cbn [app]. rewrite IH. apply orb_true_r.
Qed.

Lemma includes_app a key b : Str.includes (a ++ key ++ b) key = true.
Proof. apply includes_skip, starts_with_app. Qed.

Lemma starts_with_in key : forall s c,
  Str.starts_with key s = true -> In c key -> In c s.
Proof.
  induction key as [|a key IH]; intros s c Hs Hc; [destruct Hc|].
  destruct s as [|b s]; [discriminate|]. simpl in Hs.
  apply andb_true_iff in Hs as [Hab Hs]. apply N.eqb_eq in Hab. subst b.
  destruct Hc as [->|Hc]; [now left|]. right. by apply IH.
Qed.

(** A text that includes a key holds every code unit of the key. *)
Lemma includes_in key s c : Str.includes s key = true -> In c key -> In c s.
Proof.
  induction s as [|b s IH]; intros Hi Hc; rewrite includes_unfold in Hi;
    apply orb_true_iff in Hi as [Hs|Hi].
  - by apply (starts_with_in key).
  - discriminate.
  - by apply (starts_with_in key).
  - right. by apply IH.
Qed.

Lemma join_head {A} (sep : list A) x r : exists tail, Str.join sep (x :: r) = x ++ tail.
Proof.
  destruct r as [|y r]; [exists []; simpl; by rewrite app_nil_r|].
  by exists (sep ++ Str.join sep (y :: r)).
Qed.

Lemma imap_map {A B} (f : A -> B) (l : list A) : imap (fun _ => f) l = List.map f l.
Proof.
  induction l as [|x l IH]; [reflexivity|]. cbn [imap List.map]. f_equal. exact IH.
Qed.

End StringFacts.

Section PromptBuilderMore.
Import Types PromptBuilder.
Context {E : Engine}.

Lemma history_message_turn n note i msg : history_message n note i msg = turn_of msg.
Proof.
  destruct note as [note|]; [rewrite history_message_ignores_note|]; reflexivity.
Qed.

Lemma history_turns n note l : imap (history_message n note) l = List.map turn_of l.
Proof.
  rewrite <- imap_map. apply imap_ext. intros i msg _. apply history_message_turn.
Qed.

(** The messages of [buildPrompt] ahead of the instruct template: some
    system and example messages, then the turns of the history. *)
Lemma buildPrompt_shape context r :
  buildPrompt context = Ok r ->
  exists worldInfoContent examples,
    (if nonempty (cd_mes_example (pc_character context))
     then parseExampleMessages (cd_mes_example (pc_character context))
                               (cd_name (pc_character context))
     else Ok []) = Ok examples /\
    let systemContent :=
      buildSystemMessage (pc_character context) (pc_persona context)
                         (pc_systemPrompt context) in
    let messages1 :=
      if (nonempty systemContent || nonempty worldInfoContent)%bool then
        [{| pm_role := js "system";
            pm_content := if nonempty worldInfoContent
                          then systemContent ++ [10%N; 10%N] ++ worldInfoContent
                          else systemContent |}]
      else [] in
    let characterContext := buildCharacterContext (pc_character context) in
    let messages2 :=
      if nonempty characterContext
      then [{| pm_role := js "system"; pm_content := characterContext |}] else [] in
    let messages :=
      messages1 ++ messages2 ++ examples ++ List.map turn_of (pc_chatHistory context) in
    let finalMessages :=
      match pc_instructTemplate context with
      | Some template => applyInstructTemplate messages template
      | None => messages
      end in
    let totalChars :=
      fold_left (fun sum m => sum + Z.of_nat (length (pm_content m))) finalMessages 0 in
    r = {| res_messages := finalMessages;
           res_tokenCount := (totalChars + 3) / 4;
           res_truncated := pc_maxContextTokens context <? (totalChars + 3) / 4 |}.
Proof.
  unfold buildPrompt. intros Hr.
  destruct (match pc_worldInfo context with
            | Some books => scanAndCollectWorldInfo (pc_chatHistory context) books
            | None => Ok []
            end) as [wic|] eqn:Hw; [|discriminate].
  cbn [rbind] in Hr.
  destruct (if nonempty (cd_mes_example (pc_character context)) then _ else _)
    as [examples|] eqn:He; [|discriminate].
  cbn [rbind] in Hr. injection Hr as <-.
  exists wic, examples. split; [reflexivity|]. cbv zeta.
  rewrite history_turns. reflexivity.
Qed.

Lemma applyInstructTemplate_app l1 l2 template :
  applyInstructTemplate (l1 ++ l2) template =
  applyInstructTemplate l1 template ++ applyInstructTemplate l2 template.
Proof. apply map_app. Qed.

Lemma applyInstructTemplate_role template l m :
  In m (applyInstructTemplate l template) -> exists m0, In m0 l /\ pm_role m = pm_role m0.
Proof.
  unfold applyInstructTemplate. intros Hin. apply in_map_iff in Hin as (m0 & <- & Hin).
  by exists m0.
Qed.

Lemma applyInstructTemplate_content template role content :
  exists pre post,
    applyInstructTemplate [{| pm_role := role; pm_content := content |}] template =
    [{| pm_role := role; pm_content := pre ++ content ++ post |}].
Proof.
  unfold applyInstructTemplate. cbn [List.map pm_role pm_content].
  set (inner :=
         if str_eqb role (js "system")
         then it_systemPromptPrefix template ++ content ++ it_systemPromptSuffix template
         else if str_eqb role (js "user")
         then it_userPrefix template ++ content ++ it_userSuffix template
         else if str_eqb role (js "assistant")
         then it_assistantPrefix template ++ content ++ it_assistantSuffix template
         else content).
  assert (exists a b, inner = a ++ content ++ b) as (a & b & Hinner).
  { subst inner. repeat (destruct (str_eqb role _); [by eexists _, _|]).
    exists [], []. simpl. by rewrite app_nil_r. }
  rewrite Hinner. destruct (it_wrapInNewlines template).
  - exists ([10%N] ++ a), (b ++ [10%N]). by rewrite <- !app_assoc.
  - by exists a, b.
Qed.

End PromptBuilderMore.

(** [buildPrompt] never drops a message for the budget: with another
    [maxContextTokens] it returns the same messages and the same estimate,
    and only the flag [truncated], which says whether the estimate is
    above the budget, follows the budget. *)
Theorem buildPrompt_budget_only_sets_flag (E : Engine) (context : Types.PromptContext)
    (maxContextTokens : Z) (r : Types.PromptResult) :
  PromptBuilder.buildPrompt context = Ok r ->
  Types.res_truncated r = (Types.pc_maxContextTokens context <? Types.res_tokenCount r) /\
  PromptBuilder.buildPrompt (PromptBuilder.with_budget maxContextTokens context) =
  Ok {| Types.res_messages := Types.res_messages r;
        Types.res_tokenCount := Types.res_tokenCount r;
        Types.res_truncated := maxContextTokens <? Types.res_tokenCount r |}.
Proof.
  unfold PromptBuilder.buildPrompt. intros Hr.
  cbn [PromptBuilder.with_budget Types.pc_character Types.pc_chatHistory Types.pc_worldInfo
       Types.pc_persona Types.pc_authorsNote Types.pc_systemPrompt
       Types.pc_instructTemplate Types.pc_maxContextTokens].
  destruct (match Types.pc_worldInfo context with
            | Some books =>
              PromptBuilder.scanAndCollectWorldInfo (Types.pc_chatHistory context) books
            | None => Ok []
            end) as [wic|]; [|discriminate].
  cbn [rbind] in *.
  destruct (if PromptBuilder.nonempty _ then _ else _) as [examples|]; [|discriminate].
  cbn [rbind] in *. injection Hr as <-. split; reflexivity.
Qed.

Lemma buildPrompt_budget_only_sets_flag_witness :
  exists r,
    @PromptBuilder.buildPrompt ToyEngine.engine PromptBuilder.sample_context = Ok r /\
    @PromptBuilder.buildPrompt ToyEngine.engine
      (PromptBuilder.with_budget 1 PromptBuilder.sample_context) =
    Ok {| Types.res_messages := Types.res_messages r;
          Types.res_tokenCount := Types.res_tokenCount r;
          Types.res_truncated := true |}.
Proof.
  eexists. split; [reflexivity|].
  exact (proj2 (buildPrompt_budget_only_sets_flag ToyEngine.engine
                  PromptBuilder.sample_context 1 _ eq_refl)).
Defined.

(** The messages [buildPrompt] returns end with the turns of the chat
    history, one for each message and in the order of the history, with
    the instruct template applied when there is one. A turn has the stored
    content; its role is [user] for a user message and [assistant] for
    every other one, a system message of the history included. *)
Theorem buildPrompt_ends_with_history (E : Engine) (context : Types.PromptContext)
    (r : Types.PromptResult) :
  PromptBuilder.buildPrompt context = Ok r ->
  exists prefix,
    Types.res_messages r =
    prefix ++
    match Types.pc_instructTemplate context with
    | Some template =>
      PromptBuilder.applyInstructTemplate
        (List.map PromptBuilder.turn_of (Types.pc_chatHistory context)) template
    | None => List.map PromptBuilder.turn_of (Types.pc_chatHistory context)
    end.
Proof.
  intros Hr. destruct (buildPrompt_shape context r Hr) as (wic & examples & _ & ->).
  cbv zeta. cbn [Types.res_messages].
  destruct (Types.pc_instructTemplate context) as [template|].
  - rewrite !app_assoc, applyInstructTemplate_app. by eexists.
  - rewrite !app_assoc. by eexists.
Qed.

Lemma buildPrompt_ends_with_history_witness :
  exists r prefix,
    @PromptBuilder.buildPrompt ToyEngine.engine PromptBuilder.sample_context = Ok r /\
    Types.res_messages r =
    prefix ++ [{| Types.pm_role := js "user"; Types.pm_content := js "hi" |}].
Proof.
  eexists.
  destruct (buildPrompt_ends_with_history ToyEngine.engine PromptBuilder.sample_context
              _ eq_refl) as [prefix Hp].
  exists prefix. split; [reflexivity|exact Hp].
Defined.

(** Only the last ten messages of the history are scanned for world
    info: what comes before them changes nothing. *)
Theorem scanAndCollectWorldInfo_last_ten (E : Engine)
    (older recent : list Types.ChatMessage) (books : list Types.WorldInfoBook) :
  length recent = 10%nat ->
  PromptBuilder.scanAndCollectWorldInfo (older ++ recent) books =
  PromptBuilder.scanAndCollectWorldInfo recent books.
Proof.
  intros Hlen. unfold PromptBuilder.scanAndCollectWorldInfo, JsArray.slice_from.
  cbn [Z.ltb Z.compare]. rewrite length_app, Hlen.
  replace (Z.to_nat (Z.max (Z.of_nat (length older + 10) + -10) 0)) with (length older)
    by lia.
  replace (Z.to_nat (Z.max (Z.of_nat 10 + -10) 0)) with 0%nat by lia.
  rewrite skipn_app, skipn_all, Nat.sub_diag. reflexivity.
Qed.

Lemma scanAndCollectWorldInfo_last_ten_witness :
  @PromptBuilder.scanAndCollectWorldInfo ToyEngine.engine
    ([Tokenizer.plain_message (js "m0") Types.RUser (js "dragon")]
     ++ repeat (Tokenizer.plain_message (js "m") Types.RUser (js "hi")) 10)
    [WorldInfo.single_book [WorldInfo.regex_entry (js "dragon") (js "lore") false]] = Ok [].
Proof.
  rewrite scanAndCollectWorldInfo_last_ten by reflexivity. reflexivity.
Defined.

Section CaseFacts.
Import Types PromptBuilder.
Context {E : Engine}.

(** In a lower-cased text, a case-sensitive literal key with a capital
    is not found. *)
Lemma key_matches_capital text entry key c :
  lowercases E ->
  wi_useRegex entry = false -> wi_caseSensitive entry = true ->
  wi_matchWholeWords entry = false ->
  In c key -> (65 <= c <= 90)%N ->
  key_matches (toLowerCase text) entry key = Ok false.
Proof.
  intros Hlow Hre Hcs Hww Hc Hcap. unfold key_matches. rewrite Hre, Hcs, Hww.
  destruct (Str.includes (toLowerCase text) key) eqn:Hi; [|reflexivity].
  exfalso. apply (Hlow text c); [|exact Hcap]. by apply (includes_in key).
Qed.

End CaseFacts.

Lemma toy_lowercases : PromptBuilder.lowercases ToyEngine.engine.
Proof.
  intros s c Hin. cbn [toLowerCase ToyEngine.engine] in Hin.
  apply in_map_iff in Hin as (x & <- & _). unfold Str.ascii_lower.
  destruct (N.leb_spec 65 x); destruct (N.leb_spec x 90); cbn [andb]; lia.
Qed.

(** The scanner of the prompt builder lower-cases the chat text before
    it looks at any entry, so an entry that asks for a case-sensitive
    literal match and whose keys all hold an ASCII capital is never
    injected, whatever the chat says. *)
Theorem scanAndCollectWorldInfo_capital_key (E : Engine)
    (chatHistory : list Types.ChatMessage) (entry : Types.WorldInfoEntry) :
  PromptBuilder.lowercases E ->
  Types.wi_constant entry = false ->
  Types.wi_useRegex entry = false ->
  Types.wi_caseSensitive entry = true ->
  Types.wi_matchWholeWords entry = false ->
  (forall key, In key (Types.wi_keys entry) -> exists c, In c key /\ (65 <= c <= 90)%N) ->
  PromptBuilder.scanAndCollectWorldInfo chatHistory [WorldInfo.single_book [entry]] = Ok [].
Proof.
  intros Hlow Hco Hre Hcs Hww Hkeys.
  unfold PromptBuilder.scanAndCollectWorldInfo.
  cbn [PromptBuilder.collect_books WorldInfo.single_book Types.wb_entries
       PromptBuilder.collect_entries].
  destruct (Types.wi_enabled entry); [|reflexivity]. cbn [negb].
  rewrite some_all_false.
  - rewrite Hco. reflexivity.
  - intros key Hin. destruct (Hkeys key Hin) as (c & Hc & Hcap).
    by apply (key_matches_capital _ _ _ c).
Qed.

Lemma scanAndCollectWorldInfo_capital_key_witness :
  @PromptBuilder.scanAndCollectWorldInfo ToyEngine.engine
    [Tokenizer.plain_message (js "m1") Types.RUser (js "I met Alice today")]
    [WorldInfo.single_book [PromptBuilder.literal_entry [js "Alice"] (js "lore")]] = Ok [].
Proof.
  apply scanAndCollectWorldInfo_capital_key;
    [exact toy_lowercases|reflexivity|reflexivity|reflexivity|reflexivity|].
  intros key [<-|[]]. exists 65%N. split; [now left|lia].
Defined.

Section CompletenessFacts.
Import Types PromptBuilder.
Context {E : Engine}.

Lemma existsb_false {A} (f : A -> bool) l :
  (forall x, In x l -> f x = false) -> existsb f l = false.
Proof.
  intros Hf. destruct (existsb f l) eqn:Hex; [|reflexivity].
  apply existsb_exists in Hex as (x & Hin & Hx). rewrite (Hf x Hin) in Hx. discriminate.
Qed.

(** With a description, the character context names the character. *)
Lemma buildCharacterContext_name character :
  nonempty (cd_description character) = true ->
  nonempty (buildCharacterContext character) = true /\
  exists pre post, buildCharacterContext character = pre ++ cd_name character ++ post.
Proof.
  intros Hd. unfold buildCharacterContext. rewrite Hd. cbn [app].
  match goal with
  | |- context [Str.join ?sep (?x :: ?r)] => destruct (join_head sep x r) as [tail ->]
  end.
  split; [reflexivity|].
  exists (js "Character: "), ([10%N] ++ cd_description character ++ tail).
  by rewrite <- !app_assoc.
Qed.

Lemma turn_role_not_user msg : msg_role msg <> RUser -> pm_role (turn_of msg) <> js "user".
Proof. destruct msg as [? [] ? ? ? ? ? ? ?]; simpl; intros Hr; [done|discriminate..]. Qed.

End CompletenessFacts.

(** For a character with a description, the prompt that [buildPrompt]
    returns passes the check of [validatePromptCompleteness] for the name
    of the character, with or without an instruct template. *)
Theorem validatePromptCompleteness_finds_name (E : Engine)
    (context : Types.PromptContext) (r : Types.PromptResult) :
  PromptBuilder.nonempty (Types.cd_description (Types.pc_character context)) = true ->
  PromptBuilder.buildPrompt context = Ok r ->
  ~ In (js "character_name")
       (PromptBuilder.vc_missing (PromptBuilder.validatePromptCompleteness r context)).
Proof.
  intros Hd Hr. destruct (buildPrompt_shape context r Hr) as (wic & examples & _ & ->).
  cbv zeta. unfold PromptBuilder.validatePromptCompleteness.
  cbn [Types.res_messages PromptBuilder.vc_missing].
  destruct (buildCharacterContext_name _ Hd) as (Hne & pre & post & Hcc).
  rewrite Hne.
  set (name := Types.cd_name (Types.pc_character context)) in *.
  set (m1 := if (_ || _)%bool then _ else _).
  set (rest := examples ++ _).
  match goal with
  | |- context [existsb ?f ?l] => assert (existsb f l = true) as ->
  end.
  { destruct (Types.pc_instructTemplate context) as [template|].
    - rewrite !applyInstructTemplate_app, !existsb_app.
      destruct (applyInstructTemplate_content template (js "system")
                  (PromptBuilder.buildCharacterContext (Types.pc_character context)))
        as (a & b & ->).
      cbn [existsb Types.pm_content]. rewrite Hcc.
      replace (a ++ (pre ++ name ++ post) ++ b) with ((a ++ pre) ++ name ++ (post ++ b))
        by (by rewrite <- !app_assoc).
      rewrite includes_app. cbn [orb]. by rewrite orb_true_r.
    - rewrite !existsb_app. cbn [existsb Types.pm_content]. rewrite Hcc, includes_app.
      cbn [orb]. by rewrite orb_true_r. }
  cbn [negb andb app].
  destruct (0 <? _)%nat; [|intros []].
  destruct (existsb _ _); [intros []|]. intros [Heq|[]]. discriminate Heq.
Qed.

Lemma validatePromptCompleteness_finds_name_witness :
  exists r,
    @PromptBuilder.buildPrompt ToyEngine.engine PromptBuilder.sample_context = Ok r /\
    ~ In (js "character_name")
         (PromptBuilder.vc_missing
            (PromptBuilder.validatePromptCompleteness r PromptBuilder.sample_context)).
Proof.
  eexists. split; [reflexivity|].
  apply (validatePromptCompleteness_finds_name ToyEngine.engine); reflexivity.
Defined.

(** When the history is not empty and holds no user message (a new chat
    that holds the greeting only, say) and the character has no example
    messages, the prompt of [buildPrompt] has no user turn, and
    [validatePromptCompleteness] reports the chat history as missing. *)
Theorem validatePromptCompleteness_without_user_turn (E : Engine)
    (context : Types.PromptContext) (r : Types.PromptResult) :
  Types.pc_chatHistory context <> [] ->
  (forall m, In m (Types.pc_chatHistory context) -> Types.msg_role m <> Types.RUser) ->
  PromptBuilder.nonempty (Types.cd_mes_example (Types.pc_character context)) = false ->
  PromptBuilder.buildPrompt context = Ok r ->
  let c := PromptBuilder.validatePromptCompleteness r context in
  PromptBuilder.vc_valid c = false /\ In (js "chat_history") (PromptBuilder.vc_missing c).
Proof.
  intros Hne Hroles Hex Hr.
  destruct (buildPrompt_shape context r Hr) as (wic & examples & Hexamples & ->).
  rewrite Hex in Hexamples. injection Hexamples as <-. clear Hr.
  cbv zeta. unfold PromptBuilder.validatePromptCompleteness.
  cbn [Types.res_messages PromptBuilder.vc_missing PromptBuilder.vc_valid].
  destruct (Types.pc_chatHistory context) as [|m0 history] eqn:Hh; [done|].
  cbn [length Nat.ltb Nat.leb].
  set (messages := _ ++ _ ++ [] ++ _).
  assert (forall m, In m messages -> Types.pm_role m <> js "user") as Hmsgs.
  { subst messages. intros m Hin.
    apply in_app_or in Hin as [Hin|Hin]; [|apply in_app_or in Hin as [Hin|Hin]].
    - destruct (_ || _)%bool; [|simpl in Hin; contradiction].
      simpl in Hin. destruct Hin as [<-|[]]. simpl. discriminate.
    - destruct (PromptBuilder.nonempty (PromptBuilder.buildCharacterContext _));
        [|simpl in Hin; contradiction].
      simpl in Hin. destruct Hin as [<-|[]]. simpl. discriminate.
    - cbn [app] in Hin. apply in_map_iff in Hin as (m' & <- & Hin).
      apply turn_role_not_user. by apply Hroles. }
  match goal with
  | |- context [existsb (fun m => str_eqb (Types.pm_role m) (js "user")) ?l] =>
    assert (existsb (fun m => str_eqb (Types.pm_role m) (js "user")) l = false) as ->
  end.
  { apply existsb_false. intros m Hin.
    assert (Types.pm_role m <> js "user") as Hrole.
    { destruct (Types.pc_instructTemplate context) as [template|].
      - apply applyInstructTemplate_role in Hin as (m' & Hin & ->). by apply Hmsgs.
      - by apply Hmsgs. }
    unfold str_eqb. by apply bool_decide_eq_false. }
  rewrite length_app. cbn [length]. split.
  - apply Nat.eqb_neq. lia.
  - apply in_or_app. right. now left.
Qed.

Lemma validatePromptCompleteness_without_user_turn_witness :
  exists r,
    @PromptBuilder.buildPrompt ToyEngine.engine PromptBuilder.greeting_context = Ok r /\
    PromptBuilder.vc_valid
      (PromptBuilder.validatePromptCompleteness r PromptBuilder.greeting_context) = false.
Proof.
  eexists. split; [reflexivity|].
  refine (proj1 (validatePromptCompleteness_without_user_turn ToyEngine.engine
                   PromptBuilder.greeting_context _ _ _ eq_refl eq_refl)).
  - discriminate.
  - intros m [<-|[]]. discriminate.
Defined.

Section ExampleFacts.
Import Types PromptBuilder.
Context {E : Engine}.

Let chat_role (r : jsstring) : Prop := r = js "user" \/ r = js "assistant".

Let state_ok (st : list PromptMessage * option jsstring * list jsstring) : Prop :=
  Forall (fun m => chat_role (pm_role m)) (fst (fst st)) /\
  (forall r, snd (fst st) = Some r -> chat_role r).

Lemma flush_roles messages currentRole currentContent :
  state_ok (messages, currentRole, currentContent) ->
  Forall (fun m => chat_role (pm_role m)) (flush messages currentRole currentContent).
Proof.
  intros [Hm Hr]. unfold flush. simpl in *.
  destruct currentRole as [r|]; [|exact Hm].
  destruct currentContent; [exact Hm|].
  apply Forall_app. split; [exact Hm|]. constructor; [|constructor]. by apply Hr.
Qed.

Lemma example_line_roles characterName st line st' :
  example_line characterName st line = Ok st' -> state_ok st -> state_ok st'.
Proof.
  destruct st as [[messages currentRole] currentContent]. unfold example_line.
  destruct (regexp_new _ _) as [re|]; [|discriminate].
  intros Hst Hok. pose proof (flush_roles _ _ _ Hok) as Hflush.
  destruct (_ && _)%bool.
  { injection Hst as <-. split; [exact Hflush|]. simpl. discriminate. }
  destruct (regexp_match0 re line).
  { injection Hst as <-. split; [exact Hflush|]. simpl. intros r [= <-]. now right. }
  destruct (if Str.starts_with_ci _ line then _ else _).
  { injection Hst as <-. split; [exact Hflush|]. simpl. intros r [= <-]. now left. }
  destruct currentRole; injection Hst as <-; exact Hok.
Qed.

Lemma example_lines_roles characterName lines : forall st st',
  example_lines characterName lines st = Ok st' -> state_ok st -> state_ok st'.
Proof.
  induction lines as [|line lines IH]; intros st st' Hst Hok.
  - injection Hst as <-. exact Hok.
  - simpl in Hst. destruct (example_line characterName st line) as [st1|] eqn:H1;
      [|discriminate].
    cbn [rbind] in Hst. apply (IH st1 st' Hst). by apply (example_line_roles _ _ _ _ H1).
Qed.

Lemma parseExampleMessages_roles_aux mesExample characterName messages :
  parseExampleMessages mesExample characterName = Ok messages ->
  Forall (fun m => pm_role m = js "user" \/ pm_role m = js "assistant") messages.
Proof.
  unfold parseExampleMessages. destruct (Nat.eqb _ 0).
  { intros [= <-]. constructor. }
  destruct (example_lines _ _ _) as [[[msgs role] content]|] eqn:Hl; [|discriminate].
  cbn [rbind]. intros [= <-].
  apply flush_roles. apply (example_lines_roles _ _ _ _ Hl).
  split; [constructor|]. simpl. discriminate.
Qed.

End ExampleFacts.

(** The example messages parsed from [mes_example] have the role [user]
    or [assistant], never another one, and there is none when the text is
    empty or blank. *)
Theorem parseExampleMessages_roles (E : Engine) (mesExample characterName : jsstring)
    (messages : list Types.PromptMessage) :
  PromptBuilder.parseExampleMessages mesExample characterName = Ok messages ->
  Forall (fun m => Types.pm_role m = js "user" \/ Types.pm_role m = js "assistant")
         messages /\
  (Str.trim mesExample = [] -> messages = []).
Proof.
  intros Hp. split; [by apply (parseExampleMessages_roles_aux mesExample characterName)|].
  intros Ht. unfold PromptBuilder.parseExampleMessages in Hp. rewrite Ht in Hp.
  simpl in Hp. by injection Hp as <-.
Qed.

Lemma parseExampleMessages_roles_witness :
  exists messages,
    @PromptBuilder.parseExampleMessages ToyEngine.engine PromptBuilder.sample_examples
      (js "Alice") = Ok messages /\
    length messages = 2%nat /\
    Forall (fun m => Types.pm_role m = js "user" \/ Types.pm_role m = js "assistant")
           messages.
Proof.
  eexists. split; [reflexivity|]. split; [reflexivity|].
  exact (proj1 (parseExampleMessages_roles ToyEngine.engine PromptBuilder.sample_examples
                  (js "Alice") _ eq_refl)).
Defined.

(** ** More on the chat manager *)

Section ChatManagerMore.
Import Types Database ChatManager.
Context {O : Oracle}.

Lemma findIndex_Some id l : forall i,
  findIndex id l = Some i ->
  exists m, l !! i = Some m /\ msg_id m = id /\
            forall k m', (k < i)%nat -> l !! k = Some m' -> msg_id m' <> id.
Proof.
  induction l as [|m l IH]; intros i; simpl; [discriminate|].
  unfold str_eqb. destruct (decide (msg_id m = id)) as [Heq|Hne].
  - rewrite bool_decide_eq_true_2 by exact Heq. intros [= <-].
    exists m. split; [reflexivity|]. split; [exact Heq|]. intros k m' Hk. lia.
  - rewrite bool_decide_eq_false_2 by exact Hne.
    destruct (findIndex id l) as [j|]; [|discriminate]. intros [= <-].
    destruct (IH j eq_refl) as (x & Hx & Hid & Hbefore).
    exists x. split; [exact Hx|]. split; [exact Hid|].
    intros [|k] m' Hk Hm'; simpl in Hm'.
    + by injection Hm' as <-.
    + apply (Hbefore k); [lia|exact Hm'].
Qed.

Lemma findIndex_None id l :
  findIndex id l = None -> forall m, In m l -> msg_id m <> id.
Proof.
  induction l as [|x l IH]; simpl; [intros _ m []|].
  unfold str_eqb. destruct (decide (msg_id x = id)) as [Heq|Hne].
  - rewrite bool_decide_eq_true_2 by exact Heq. discriminate.
  - rewrite bool_decide_eq_false_2 by exact Hne.
    destruct (findIndex id l); [discriminate|]. intros _ m [<-|Hin]; [exact Hne|].
    by apply IH.
Qed.

Lemma findIndex_first id l i m :
  l !! i = Some m -> msg_id m = id ->
  (forall k m', (k < i)%nat -> l !! k = Some m' -> msg_id m' <> id) ->
  findIndex id l = Some i.
Proof.
  revert i. induction l as [|x l IH]; intros i Hm Hid Hbefore; [discriminate|].
  simpl. unfold str_eqb. destruct i as [|i]; simpl in Hm.
  - injection Hm as ->. by rewrite bool_decide_eq_true_2.
  - rewrite bool_decide_eq_false_2 by (apply (Hbefore 0%nat); [lia|reflexivity]).
    rewrite (IH i Hm Hid); [reflexivity|].
    intros k m' Hk Hm'. apply (Hbefore (S k)); [lia|exact Hm'].
Qed.

Lemma find_message_findIndex id l i m :
  findIndex id l = Some i -> l !! i = Some m -> find_message id l = Some m.
Proof.
  revert i. induction l as [|x l IH]; intros i; simpl; [discriminate|].
  destruct (str_eqb (msg_id x) id).
  - intros [= <-] [= <-]. reflexivity.
  - destruct (findIndex id l) as [j|]; [|discriminate]. intros [= <-]. simpl.
    by apply IH.
Qed.

Lemma truthy_string_idem o : truthy_string (truthy_string o) = truthy_string o.
Proof. by destruct o as [[|]|]. Qed.

(** One run of the body shared by [updateMessage], [addSwipe] and
    [setSwipeIndex]. *)
Lemma change_message_run sessionId messageId change w row i m m' :
  chat_sessions w !! sessionId = Some row ->
  findIndex messageId (row_messages row) = Some i ->
  row_messages row !! i = Some m ->
  change m = Ok m' ->
  change_message sessionId messageId change w =
  Ok (m', {| chat_sessions :=
               <[sessionId := saved_row (<[i := m']> (row_messages row))
                                        (clock (ticks w)) row]> (chat_sessions w);
             ids_used := ids_used w;
             ticks := S (ticks w) |}).
Proof.
  intros Hrow Hfind Hm Hchange.
  unfold change_message, Database.bind at 1, getChatSession. rewrite Hrow.
  cbn [cs_messages]. rewrite Hfind.
  rewrite (nth_lookup_Some _ _ _ _ Hm), Hchange.
  reflexivity.
Qed.

Lemma change_message_fails sessionId messageId change w row i m e :
  chat_sessions w !! sessionId = Some row ->
  findIndex messageId (row_messages row) = Some i ->
  row_messages row !! i = Some m ->
  change m = Throw e ->
  change_message sessionId messageId change w = Throw e.
Proof.
  intros Hrow Hfind Hm Hchange.
  unfold change_message, Database.bind at 1, getChatSession. rewrite Hrow.
  cbn [cs_messages]. rewrite Hfind.
  by rewrite (nth_lookup_Some _ _ _ _ Hm), Hchange.
Qed.

End ChatManagerMore.

(** Without a row for the session id, every operation of the chat
    manager that changes or forks a session throws "Chat session not
    found", and the two that only read answer with no message and with a
    count of 0. *)
Theorem chat_operations_need_session (O : Oracle) (w : Database.World)
    (sessionId : jsstring) :
  Database.chat_sessions w !! sessionId = None ->
  let not_found (A : Type) : result A :=
    Throw (Error (js "Chat session not found: " ++ sessionId)) in
  (forall messageId, ChatManager.forkChat sessionId messageId w = not_found _) /\
  (forall mu, ChatManager.mutate sessionId mu w = not_found _) /\
  (forall messageId, ChatManager.nextSwipe sessionId messageId w = not_found _) /\
  (forall messageId, ChatManager.prevSwipe sessionId messageId w = not_found _) /\
  ChatManager.getLastMessage sessionId w = Ok (None, w) /\
  ChatManager.getMessageCount sessionId w = Ok (0, w).
Proof.
  intros Hrow. cbv zeta.
  assert (forall A (k : option Types.ChatSession -> Database.M A),
            Database.bind (Database.getChatSession sessionId) k w = k None w) as Hget.
  { intros A k. unfold Database.bind, Database.getChatSession. by rewrite Hrow. }
  repeat split.
  - intros messageId. unfold ChatManager.forkChat. by rewrite Hget.
  - intros [role content|messageId newContent|messageId|messageId content
            |messageId index|metadata|]; cbn [ChatManager.mutate];
      unfold ChatManager.addMessage, ChatManager.updateMessage, ChatManager.deleteMessage,
        ChatManager.addSwipe, ChatManager.setSwipeIndex, ChatManager.updateMetadata,
        ChatManager.clearMessages, ChatManager.change_message;
      try (by rewrite Hget);
      unfold Database.bind at 1; by rewrite Hget.
  - intros messageId. unfold ChatManager.nextSwipe. by rewrite Hget.
  - intros messageId. unfold ChatManager.prevSwipe. by rewrite Hget.
  - unfold ChatManager.getLastMessage. by rewrite Hget.
  - unfold ChatManager.getMessageCount. by rewrite Hget.
Qed.

Lemma chat_operations_need_session_witness :
  @ChatManager.forkChat ChatManager.counting_oracle (js "s9") (js "m1")
    ChatManager.sample_world =
  Throw (Error (js "Chat session not found: s9")).
Proof.
  exact (proj1 (chat_operations_need_session ChatManager.counting_oracle
                  ChatManager.sample_world (js "s9") eq_refl) (js "m1")).
Defined.

(** [addMessage] on a stored session returns a message with the next
    generated id, the given role and content and the time of the call; it
    is stored as the last message of the session, behind the messages that
    were there, and no other session changes. [getLastMessage] then
    returns it and [getMessageCount] is one more than before. *)
Theorem addMessage_appends (O : Oracle) (w : Database.World) (sessionId : jsstring)
    (role : Types.Role) (content : jsstring) (row : Database.Row) :
  Database.chat_sessions w !! sessionId = Some row ->
  let message :=
    {| Types.msg_id := uuid (Database.ids_used w); Types.msg_role := role;
       Types.msg_content := content; Types.msg_timestamp := clock (Database.ticks w);
       Types.msg_swipes := None; Types.msg_swipeIndex := None;
       Types.msg_tokenCount := None; Types.msg_isEdited := None;
       Types.msg_generationConfig := None |} in
  exists w',
    ChatManager.addMessage sessionId role content w = Ok (message, w') /\
    Database.chat_sessions w' !! sessionId =
      Some (ChatManager.saved_row (Database.row_messages row ++ [message])
                                  (clock (S (Database.ticks w))) row) /\
    (forall other, other <> sessionId ->
       Database.chat_sessions w' !! other = Database.chat_sessions w !! other) /\
    ChatManager.getLastMessage sessionId w' = Ok (Some message, w') /\
    ChatManager.getMessageCount sessionId w' =
      Ok (Z.of_nat (length (Database.row_messages row)) + 1, w').
Proof.
  intros Hrow. cbv zeta.
  unfold ChatManager.addMessage, Database.bind at 1, Database.getChatSession.
  rewrite Hrow. eexists. split; [reflexivity|].
  cbn [Database.chat_sessions Types.cs_id]. split; [|split; [|split]].
  - rewrite lookup_insert_eq. reflexivity.
  - intros other Hne. rewrite lookup_insert_ne by (intros Heq; by apply Hne).
    reflexivity.
  - unfold ChatManager.getLastMessage, Database.bind, Database.getChatSession, Database.ret.
    cbn [Database.chat_sessions]. rewrite lookup_insert_eq.
    cbn [Types.cs_messages ChatManager.with_messages Database.row_messages].
    by rewrite last_snoc.
  - unfold ChatManager.getMessageCount, Database.bind, Database.getChatSession,
      Database.ret.
    cbn [Database.chat_sessions]. rewrite lookup_insert_eq.
    cbn [Types.cs_messages ChatManager.with_messages Database.row_messages].
    rewrite length_app. cbn [length]. do 2 f_equal. lia.
Qed.

Lemma addMessage_appends_witness :
  exists message w',
    @ChatManager.addMessage ChatManager.counting_oracle (js "s1") Types.RUser (js "hi")
      ChatManager.sample_world = Ok (message, w') /\
    ChatManager.getMessageCount (js "s1") w' = Ok (4, w').
Proof.
  destruct (addMessage_appends ChatManager.counting_oracle ChatManager.sample_world
              (js "s1") Types.RUser (js "hi") ChatManager.sample_row eq_refl)
    as (w' & Hadd & _ & _ & _ & Hcount).
  eexists _, w'. split; [exact Hadd|exact Hcount].
Defined.

Section MessageFacts.
Import Types Database ChatManager.
Context {O : Oracle}.

Lemma findIndex_absent id l :
  (forall m, In m l -> msg_id m <> id) -> findIndex id l = None.
Proof.
  induction l as [|x l IH]; intros Hl; [reflexivity|]. simpl.
  unfold str_eqb. rewrite bool_decide_eq_false_2 by (apply Hl; now left).
  rewrite IH; [reflexivity|]. intros m Hm. apply Hl. now right.
Qed.

(** Writing a message of the same id at the index that [findIndex] found
    leaves the index of the id where it was. *)
Lemma findIndex_insert id l i m' :
  findIndex id l = Some i -> msg_id m' = id -> findIndex id (<[i := m']> l) = Some i.
Proof.
  intros Hfind Hid. destruct (findIndex_Some _ _ _ Hfind) as (m & Hm & _ & Hbefore).
  apply (findIndex_first id _ i m').
  - apply list_lookup_insert_eq. by apply lookup_lt_Some in Hm.
  - exact Hid.
  - intros k x Hk Hx. rewrite list_lookup_insert_ne in Hx by lia. by apply (Hbefore k).
Qed.

(** With ids that are all different, the id found at an index is nowhere
    else. *)
Lemma findIndex_removed id l i :
  NoDup (List.map msg_id l) -> findIndex id l = Some i ->
  findIndex id (firstn i l ++ skipn (S i) l) = None.
Proof.
  intros Hnd Hfind. destruct (findIndex_Some _ _ _ Hfind) as (m & Hm & Hid & Hbefore).
  apply findIndex_absent. intros x Hx Hxid.
  apply in_app_or in Hx as [Hx|Hx].
  - apply list_elem_of_In, list_elem_of_lookup in Hx as [k Hk].
    apply lookup_take_Some in Hk as [Hk Hlt]. by apply (Hbefore k x).
  - apply list_elem_of_In, list_elem_of_lookup in Hx as [k Hk].
    rewrite lookup_drop in Hk.
    assert (List.map msg_id l !! i = Some id) as H1.
    { rewrite list_lookup_fmap_Some_2 with (x := m); [by rewrite Hid|exact Hm]. }
    assert (List.map msg_id l !! (S i + k)%nat = Some id) as H2.
    { rewrite list_lookup_fmap_Some_2 with (x := x); [by rewrite Hxid|exact Hk]. }
    pose proof (NoDup_lookup _ _ _ _ Hnd H1 H2). lia.
Qed.

End MessageFacts.

(** [updateMessage] changes one message, the first of the session that
    has the id: it gets the new content and the mark [isEdited], all its
    other fields and all other messages stay, and so does the number of
    messages. An id that no message has makes it throw "Message not
    found". *)
Theorem updateMessage_changes_one (O : Oracle) (w : Database.World)
    (sessionId messageId newContent : jsstring) (row : Database.Row) :
  Database.chat_sessions w !! sessionId = Some row ->
  match ChatManager.findIndex messageId (Database.row_messages row) with
  | Some i =>
    exists old w',
      Database.row_messages row !! i = Some old /\
      let message :=
        {| Types.msg_id := messageId; Types.msg_role := Types.msg_role old;
           Types.msg_content := newContent;
           Types.msg_timestamp := Types.msg_timestamp old;
           Types.msg_swipes := Types.msg_swipes old;
           Types.msg_swipeIndex := Types.msg_swipeIndex old;
           Types.msg_tokenCount := Types.msg_tokenCount old;
           Types.msg_isEdited := Some true;
           Types.msg_generationConfig := Types.msg_generationConfig old |} in
      ChatManager.updateMessage sessionId messageId newContent w = Ok (message, w') /\
      Database.chat_sessions w' !! sessionId =
        Some (ChatManager.saved_row (<[i := message]> (Database.row_messages row))
                                    (clock (Database.ticks w)) row) /\
      (forall k, k <> i ->
         <[i := message]> (Database.row_messages row) !! k =
         Database.row_messages row !! k) /\
      length (<[i := message]> (Database.row_messages row)) =
        length (Database.row_messages row)
  | None =>
    ChatManager.updateMessage sessionId messageId newContent w =
    Throw (Error (js "Message not found: " ++ messageId))
  end.
Proof.
  intros Hrow.
  destruct (ChatManager.findIndex messageId (Database.row_messages row)) as [i|] eqn:Hfind.
  - destruct (findIndex_Some _ _ _ Hfind) as (old & Hold & Hid & _). subst messageId.
    exists old. eexists. split; [exact Hold|]. cbv zeta. split; [|split; [|split]].
    + unfold ChatManager.updateMessage.
      erewrite change_message_run; [|exact Hrow|exact Hfind|exact Hold|reflexivity].
      reflexivity.
    + cbn [Database.chat_sessions]. rewrite lookup_insert_eq. reflexivity.
    + intros k Hk. by apply list_lookup_insert_ne.
    + apply length_insert.
  - unfold ChatManager.updateMessage, ChatManager.change_message, Database.bind at 1,
      Database.getChatSession.
    rewrite Hrow. cbn [Types.cs_messages]. by rewrite Hfind.
Qed.

Lemma updateMessage_changes_one_witness :
  exists message w',
    @ChatManager.updateMessage ChatManager.counting_oracle (js "s1") (js "m2") (js "new")
      ChatManager.sample_world = Ok (message, w') /\
    Types.msg_content message = js "new" /\ Types.msg_isEdited message = Some true.
Proof.
  pose proof (updateMessage_changes_one ChatManager.counting_oracle ChatManager.sample_world
                (js "s1") (js "m2") (js "new") ChatManager.sample_row eq_refl) as H.
  change (ChatManager.findIndex (js "m2") (Database.row_messages ChatManager.sample_row))
    with (Some 1%nat) in H.
  destruct H as (old & w' & _ & Hupd & _).
  eexists _, w'. split; [exact Hupd|]. split; reflexivity.
Defined.

(** [deleteMessage] takes out one message, the first of the session that
    has the id, and keeps the others in their order. When the ids of the
    session are all different the id is gone afterwards: deleting it once
    more throws "Message not found", as deleting an id that was never
    there does. *)
Theorem deleteMessage_removes_first (O : Oracle) (w : Database.World)
    (sessionId messageId : jsstring) (row : Database.Row) :
  Database.chat_sessions w !! sessionId = Some row ->
  match ChatManager.findIndex messageId (Database.row_messages row) with
  | Some i =>
    exists w',
      ChatManager.deleteMessage sessionId messageId w = Ok (tt, w') /\
      Database.chat_sessions w' !! sessionId =
        Some (ChatManager.saved_row
                (firstn i (Database.row_messages row)
                 ++ skipn (S i) (Database.row_messages row))
                (clock (Database.ticks w)) row) /\
      S (length (firstn i (Database.row_messages row)
                 ++ skipn (S i) (Database.row_messages row))) =
        length (Database.row_messages row) /\
      (NoDup (List.map Types.msg_id (Database.row_messages row)) ->
       ChatManager.deleteMessage sessionId messageId w' =
       Throw (Error (js "Message not found: " ++ messageId)))
  | None =>
    ChatManager.deleteMessage sessionId messageId w =
    Throw (Error (js "Message not found: " ++ messageId))
  end.
Proof.
  intros Hrow.
  destruct (ChatManager.findIndex messageId (Database.row_messages row)) as [i|] eqn:Hfind.
  - pose proof (findIndex_lt _ _ _ Hfind) as Hlt.
    eexists. split; [|split; [|split]].
    + unfold ChatManager.deleteMessage, Database.bind at 1, Database.getChatSession.
      rewrite Hrow. cbn [Types.cs_messages]. rewrite Hfind. reflexivity.
    + cbn [Database.chat_sessions Types.cs_id ChatManager.with_messages].
      rewrite lookup_insert_eq. reflexivity.
    + rewrite length_app, length_take, length_drop. lia.
    + intros Hnd.
      unfold ChatManager.deleteMessage, Database.bind at 1, Database.getChatSession.
      cbn [Database.chat_sessions Types.cs_id ChatManager.with_messages].
      rewrite lookup_insert_eq.
      cbn [Types.cs_messages ChatManager.with_messages Database.row_messages].
      by rewrite (findIndex_removed _ _ _ Hnd Hfind).
  - unfold ChatManager.deleteMessage, Database.bind at 1, Database.getChatSession.
    rewrite Hrow. cbn [Types.cs_messages]. by rewrite Hfind.
Qed.

Lemma deleteMessage_removes_first_witness :
  exists w',
    @ChatManager.deleteMessage ChatManager.counting_oracle (js "s1") (js "m2")
      ChatManager.sample_world = Ok (tt, w') /\
    @ChatManager.deleteMessage ChatManager.counting_oracle (js "s1") (js "m2") w' =
    Throw (Error (js "Message not found: m2")).
Proof.
  pose proof (deleteMessage_removes_first ChatManager.counting_oracle
                ChatManager.sample_world (js "s1") (js "m2") ChatManager.sample_row
                eq_refl) as H.
  change (ChatManager.findIndex (js "m2") (Database.row_messages ChatManager.sample_row))
    with (Some 1%nat) in H.
  destruct H as (w' & Hdel & _ & _ & Hagain).
  exists w'. split; [exact Hdel|]. apply Hagain.
  apply NoDup_ListNoDup. repeat constructor; simpl; intros H;
    repeat (destruct H as [H|H]; [discriminate H|]); exact H.
Defined.

Section SwipeFacts.
Import Types Database ChatManager.
Context {O : Oracle}.

(** The message that [setSwipeIndex] writes. *)
Lemma setSwipeIndex_run sessionId messageId index w row i m swipes :
  chat_sessions w !! sessionId = Some row ->
  findIndex messageId (row_messages row) = Some i ->
  row_messages row !! i = Some m ->
  msg_swipes m = Some swipes -> swipes <> [] ->
  let clampedIndex := Z.max 0 (Z.min index (Z.of_nat (length swipes) - 1)) in
  let message :=
    {| msg_id := msg_id m; msg_role := msg_role m;
       msg_content := nth (Z.to_nat clampedIndex) swipes [];
       msg_timestamp := msg_timestamp m; msg_swipes := Some swipes;
       msg_swipeIndex := Some clampedIndex; msg_tokenCount := msg_tokenCount m;
       msg_isEdited := msg_isEdited m;
       msg_generationConfig := msg_generationConfig m |} in
  setSwipeIndex sessionId messageId index w =
  Ok (message,
      {| chat_sessions :=
           <[sessionId := saved_row (<[i := message]> (row_messages row))
                                    (clock (ticks w)) row]> (chat_sessions w);
         ids_used := ids_used w;
         ticks := S (ticks w) |}).
Proof.
  intros Hrow Hfind Hm Hsw Hne. cbv zeta. unfold setSwipeIndex.
  erewrite change_message_run; [reflexivity|exact Hrow|exact Hfind|exact Hm|].
  rewrite Hsw. destruct swipes; [done|reflexivity].
Qed.

Lemma nth_lookup_lt {A} (l : list A) (k : nat) d :
  (k < length l)%nat -> l !! k = Some (nth k l d).
Proof.
  intros Hk. destruct (lookup_lt_is_Some_2 l k Hk) as [x Hx].
  by rewrite (nth_lookup_Some _ _ d _ Hx).
Qed.

(** The world after one of the operations on a message: the row of the
    session, and where the id is found in it. *)
Lemma after_change sessionId messageId w row i m' t n k :
  findIndex messageId (row_messages row) = Some i ->
  msg_id m' = messageId ->
  let w' := {| chat_sessions :=
                 <[sessionId := saved_row (<[i := m']> (row_messages row)) t row]>
                   (chat_sessions w);
               ids_used := n; ticks := k |} in
  let row' := saved_row (<[i := m']> (row_messages row)) t row in
  chat_sessions w' !! sessionId = Some row' /\
  findIndex messageId (row_messages row') = Some i /\
  row_messages row' !! i = Some m'.
Proof.
  intros Hfind Hid. cbv zeta. cbn [chat_sessions saved_row row_messages].
  split; [apply lookup_insert_eq|]. split; [by apply findIndex_insert|].
  apply list_lookup_insert_eq. by apply findIndex_lt in Hfind.
Qed.

End SwipeFacts.

(** [setSwipeIndex] never fails for an index out of range: on a message
    with swipes it brings the index into the range (a negative one to 0,
    a large one to the last swipe), makes the swipe at that index the
    content of the message and keeps the swipes; on a message that has no
    swipe it throws "Message has no swipes". *)
Theorem setSwipeIndex_clamps (O : Oracle) (w : Database.World)
    (sessionId messageId : jsstring) (index : Z) (row : Database.Row) (i : nat)
    (m : Types.ChatMessage) :
  Database.chat_sessions w !! sessionId = Some row ->
  ChatManager.findIndex messageId (Database.row_messages row) = Some i ->
  Database.row_messages row !! i = Some m ->
  match Types.msg_swipes m with
  | None | Some [] =>
    ChatManager.setSwipeIndex sessionId messageId index w =
    Throw (Error (js "Message has no swipes"))
  | Some swipes =>
    exists message w' k,
      ChatManager.setSwipeIndex sessionId messageId index w = Ok (message, w') /\
      Z.of_nat k = Z.max 0 (Z.min index (Z.of_nat (length swipes) - 1)) /\
      Types.msg_swipeIndex message = Some (Z.of_nat k) /\
      swipes !! k = Some (Types.msg_content message) /\
      Types.msg_swipes message = Some swipes /\
      exists row',
        Database.chat_sessions w' !! sessionId = Some row' /\
        Database.row_messages row' = <[i := message]> (Database.row_messages row)
  end.
Proof.
  intros Hrow Hfind Hm.
  destruct (Types.msg_swipes m) as [[|s swipes]|] eqn:Hsw.
  - unfold ChatManager.setSwipeIndex.
    erewrite change_message_fails; [reflexivity|exact Hrow|exact Hfind|exact Hm|].
    by rewrite Hsw.
  - pose proof (setSwipeIndex_run sessionId messageId index w row i m (s :: swipes)
                  Hrow Hfind Hm Hsw ltac:(done)) as Hrun.
    cbv zeta in Hrun.
    set (c := Z.max 0 (Z.min index (Z.of_nat (length (s :: swipes)) - 1))) in *.
    assert (0 <= c < Z.of_nat (length (s :: swipes))) as Hc by (subst c; simpl; lia).
    eexists _, _, (Z.to_nat c). split; [exact Hrun|].
    cbn [Types.msg_swipeIndex Types.msg_content Types.msg_swipes].
    split; [lia|]. split; [f_equal; lia|]. split; [apply nth_lookup_lt; lia|].
    split; [reflexivity|]. eexists. split; [apply lookup_insert_eq|reflexivity].
  - unfold ChatManager.setSwipeIndex.
    erewrite change_message_fails; [reflexivity|exact Hrow|exact Hfind|exact Hm|].
    by rewrite Hsw.
Qed.

Lemma setSwipeIndex_clamps_witness :
  exists message w',
    @ChatManager.setSwipeIndex ChatManager.counting_oracle (js "s1") (js "m2") 7
      ChatManager.swiped_world = Ok (message, w') /\
    Types.msg_swipeIndex message = Some 2 /\ Types.msg_content message = js "c".
Proof.
  pose proof (setSwipeIndex_clamps ChatManager.counting_oracle ChatManager.swiped_world
                (js "s1") (js "m2") 7 _ 1%nat
                (ChatManager.swiped_message (js "m2") [js "a"; js "b"; js "c"] 1)
                eq_refl eq_refl eq_refl) as H.
  cbn [Types.msg_swipes ChatManager.swiped_message] in H.
  destruct H as (message & w' & k & Hset & Hk & Hidx & Hcontent & _).
  exists message, w'. split; [exact Hset|].
  assert (k = 2%nat) as -> by (simpl in Hk; lia).
  split; [exact Hidx|]. simpl in Hcontent. by injection Hcontent.
Defined.

(** The first [addSwipe] on a message keeps what the message said as
    swipe 0 and adds the new text as swipe 1, which becomes the content;
    [setSwipeIndex] with 0 then brings the first content back. *)
Theorem addSwipe_keeps_original (O : Oracle) (w : Database.World)
    (sessionId messageId content : jsstring) (row : Database.Row) (i : nat)
    (m : Types.ChatMessage) :
  Database.chat_sessions w !! sessionId = Some row ->
  ChatManager.findIndex messageId (Database.row_messages row) = Some i ->
  Database.row_messages row !! i = Some m ->
  Types.msg_swipes m = None ->
  exists m1 w1 m2 w2,
    ChatManager.addSwipe sessionId messageId content w = Ok (m1, w1) /\
    Types.msg_swipes m1 = Some [Types.msg_content m; content] /\
    Types.msg_swipeIndex m1 = Some 1 /\
    Types.msg_content m1 = content /\
    ChatManager.setSwipeIndex sessionId messageId 0 w1 = Ok (m2, w2) /\
    Types.msg_swipes m2 = Some [Types.msg_content m; content] /\
    Types.msg_swipeIndex m2 = Some 0 /\
    Types.msg_content m2 = Types.msg_content m.
Proof.
  intros Hrow Hfind Hm Hsw.
  destruct (findIndex_Some _ _ _ Hfind) as (m0 & Hm0 & Hid & _).
  rewrite Hm in Hm0. injection Hm0 as <-.
  unfold ChatManager.addSwipe.
  erewrite change_message_run; [|exact Hrow|exact Hfind|exact Hm|reflexivity].
  rewrite Hsw. cbn [app length].
  match goal with
  | |- context [Ok (?m1, ?w1) = _] =>
    destruct (after_change sessionId messageId w row i m1 (clock (Database.ticks w))
                (Database.ids_used w) (S (Database.ticks w)) Hfind Hid)
      as (Hrow1 & Hfind1 & Hm1);
    pose proof (setSwipeIndex_run sessionId messageId 0 w1 _ i m1
                  [Types.msg_content m; content] Hrow1 Hfind1 Hm1 eq_refl ltac:(done))
      as Hset
  end.
  cbv zeta in Hset.
  eexists _, _, _, _. split; [reflexivity|].
  split; [reflexivity|]. split; [reflexivity|]. split; [reflexivity|].
  split; [exact Hset|]. split; [reflexivity|]. split; reflexivity.
Qed.

Lemma addSwipe_keeps_original_witness :
  exists m1 w1 m2 w2,
    @ChatManager.addSwipe ChatManager.counting_oracle (js "s1") (js "m2") (js "again")
      ChatManager.sample_world = Ok (m1, w1) /\
    Types.msg_content m1 = js "again" /\
    @ChatManager.setSwipeIndex ChatManager.counting_oracle (js "s1") (js "m2") 0 w1 =
      Ok (m2, w2) /\
    Types.msg_content m2 = Types.msg_content Tokenizer.sample_long.
Proof.
  destruct (addSwipe_keeps_original ChatManager.counting_oracle ChatManager.sample_world
              (js "s1") (js "m2") (js "again") ChatManager.sample_row 1%nat
              Tokenizer.sample_long eq_refl eq_refl eq_refl eq_refl)
    as (m1 & w1 & m2 & w2 & Hadd & _ & _ & Hc1 & Hset & _ & _ & Hc2).
  exists m1, w1, m2, w2. repeat split; assumption.
Defined.

(** On a message that shows swipe [k] and has a swipe after it,
    [nextSwipe] moves to swipe [k + 1] and [prevSwipe] then gives back the
    message as it was. *)
Theorem nextSwipe_prevSwipe (O : Oracle) (w : Database.World)
    (sessionId messageId : jsstring) (row : Database.Row) (i : nat)
    (m : Types.ChatMessage) (swipes : list jsstring) (k : nat) :
  Database.chat_sessions w !! sessionId = Some row ->
  ChatManager.findIndex messageId (Database.row_messages row) = Some i ->
  Database.row_messages row !! i = Some m ->
  Types.msg_swipes m = Some swipes ->
  Types.msg_swipeIndex m = Some (Z.of_nat k) ->
  swipes !! k = Some (Types.msg_content m) ->
  (S k < length swipes)%nat ->
  exists m1 w1 w2,
    ChatManager.nextSwipe sessionId messageId w = Ok (m1, w1) /\
    Types.msg_swipeIndex m1 = Some (Z.of_nat (S k)) /\
    swipes !! S k = Some (Types.msg_content m1) /\
    ChatManager.prevSwipe sessionId messageId w1 = Ok (m, w2).
Proof.
  intros Hrow Hfind Hm Hsw Hidx Hcontent Hlen.
  destruct (findIndex_Some _ _ _ Hfind) as (m0 & Hm0 & Hid & _).
  rewrite Hm in Hm0. injection Hm0 as <-.
  assert (swipes <> []) as Hne by (intros ->; simpl in Hlen; lia).
  (* nextSwipe *)
  pose proof (setSwipeIndex_run sessionId messageId (Z.of_nat (S k)) w row i m swipes
                Hrow Hfind Hm Hsw Hne) as Hnext.
  cbv zeta in Hnext.
  replace (Z.max 0 (Z.min (Z.of_nat (S k)) (Z.of_nat (length swipes) - 1)))
    with (Z.of_nat (S k)) in Hnext by lia.
  rewrite Nat2Z.id in Hnext.
  match type of Hnext with
  | _ = Ok (?x, ?y) => remember x as m1 eqn:Em1; remember y as w1 eqn:Ew1
  end.
  assert (Types.msg_id m1 = messageId) as Hid1 by (by subst m1).
  destruct (after_change sessionId messageId w row i m1 (clock (Database.ticks w))
              (Database.ids_used w) (S (Database.ticks w)) Hfind Hid1)
    as (Hrow1 & Hfind1 & Hm1).
  rewrite <- Em1 in Ew1. rewrite <- Ew1 in Hrow1, Hnext.
  exists m1, w1. eexists. split; [|split; [by subst m1|split]].
  - unfold ChatManager.nextSwipe, Database.bind at 1, Database.getChatSession.
    rewrite Hrow. cbn [Types.cs_messages].
    rewrite (find_message_findIndex _ _ _ _ Hfind Hm), Hsw, Hidx.
    destruct (Nat.leb_spec (length swipes) 1) as [Hle|_]; [lia|].
    change (default 0 (Some (Z.of_nat k))) with (Z.of_nat k).
    replace (Z.min (Z.of_nat k + 1) (Z.of_nat (length swipes) - 1))
      with (Z.of_nat (S k)) by lia.
    exact Hnext.
  - subst m1. cbn [Types.msg_content]. by apply nth_lookup_lt.
  - (* prevSwipe *)
    assert (Types.msg_swipes m1 = Some swipes) as Hsw1 by (by subst m1).
    assert (Types.msg_swipeIndex m1 = Some (Z.of_nat (S k))) as Hidx1 by (by subst m1).
    pose proof (setSwipeIndex_run sessionId messageId (Z.of_nat k) w1 _ i m1 swipes
                  Hrow1 Hfind1 Hm1 Hsw1 Hne) as Hprev.
    cbv zeta in Hprev.
    replace (Z.max 0 (Z.min (Z.of_nat k) (Z.of_nat (length swipes) - 1)))
      with (Z.of_nat k) in Hprev by lia.
    rewrite Nat2Z.id in Hprev.
    unfold ChatManager.prevSwipe, Database.bind at 1, Database.getChatSession.
    rewrite Hrow1. cbn [Types.cs_messages].
    rewrite (find_message_findIndex _ _ _ _ Hfind1 Hm1), Hsw1, Hidx1.
    destruct (Nat.leb_spec (length swipes) 1) as [Hle|_]; [lia|].
    change (default 0 (Some (Z.of_nat (S k)))) with (Z.of_nat (S k)).
    replace (Z.max (Z.of_nat (S k) - 1) 0) with (Z.of_nat k) by lia.
    rewrite Hprev. f_equal. f_equal.
    subst m1. cbn [Types.msg_id Types.msg_role Types.msg_timestamp Types.msg_tokenCount
                   Types.msg_isEdited Types.msg_generationConfig].
    rewrite (nth_lookup_Some _ _ _ _ Hcontent).
    clear -Hsw Hidx. destruct m. simpl in *. by subst.
Qed.

Lemma nextSwipe_prevSwipe_witness :
  exists m1 w1 w2,
    @ChatManager.nextSwipe ChatManager.counting_oracle (js "s1") (js "m2")
      ChatManager.swiped_world = Ok (m1, w1) /\
    Types.msg_content m1 = js "c" /\
    @ChatManager.prevSwipe ChatManager.counting_oracle (js "s1") (js "m2") w1 =
    Ok (ChatManager.swiped_message (js "m2") [js "a"; js "b"; js "c"] 1, w2).
Proof.
  destruct (nextSwipe_prevSwipe ChatManager.counting_oracle ChatManager.swiped_world
              (js "s1") (js "m2") _ 1%nat
              (ChatManager.swiped_message (js "m2") [js "a"; js "b"; js "c"] 1)
              [js "a"; js "b"; js "c"] 1%nat
              eq_refl eq_refl eq_refl eq_refl eq_refl eq_refl ltac:(simpl; lia))
    as (m1 & w1 & w2 & Hnext & _ & Hc & Hprev).
  exists m1, w1, w2. split; [exact Hnext|]. split; [|exact Hprev].
  simpl in Hc. by injection Hc.
Defined.

(** ** The settings table *)

(** A value read back with [getSetting] is the value given to
    [saveSetting] without what JSON leaves out (properties that are
    [undefined]); the other keys keep their values, and a key read after
    [deleteSetting] gives [null]. *)
Theorem getSetting_saveSetting (key : jsstring) (value : jsval) (t : Settings.Table) :
  JSON.storable value = true -> value <> JUndefined ->
  exists t',
    Settings.saveSetting key value t = Ok t' /\
    Settings.getSetting key t' = Ok (Some (JSON.normalize value)) /\
    (forall other, other <> key ->
       Settings.getSetting other t' = Settings.getSetting other t) /\
    Settings.getSetting key (Settings.deleteSetting key t') = Ok None.
Proof.
  intros Hs Hu.
  destruct (parse_stringify value [] Hs Hu eq_refl) as (text & Htext & Hparse).
  unfold Settings.saveSetting. rewrite Htext. eexists. split; [reflexivity|].
  unfold Settings.getSetting, Settings.deleteSetting. split; [|split].
  - rewrite lookup_insert_eq, Hparse. reflexivity.
  - intros other Hne. rewrite lookup_insert_ne by (intros Heq; by apply Hne). reflexivity.
  - by rewrite lookup_delete_eq.
Qed.

Lemma getSetting_saveSetting_witness :
  exists t',
    Settings.saveSetting (js "theme")
      (JObj [(js "dark", JBool true); (js "font", JUndefined); (js "size", JNum 14)]) ∅
    = Ok t' /\
    Settings.getSetting (js "theme") t' =
    Ok (Some (JObj [(js "dark", JBool true); (js "size", JNum 14)])).
Proof.
  destruct (getSetting_saveSetting (js "theme")
              (JObj [(js "dark", JBool true); (js "font", JUndefined); (js "size", JNum 14)])
              ∅ eq_refl ltac:(discriminate)) as (t' & Hsave & Hget & _).
  exists t'. split; [exact Hsave|exact Hget].
Defined.

(** ** More on the card parser *)

Section ParserMore.
Import JsValue Parser.

Lemma uint_codes_digits d c : In c (JSON.uint_codes d) -> (48 <= c <= 57)%N.
Proof.
  induction d; simpl; intros Hin; try (destruct Hin as [<-|Hin]; [lia|by apply IHd]).
  destruct Hin.
Qed.

Lemma number_to_string_nat_digits n c :
  In c (JSON.number_to_string (Z.of_nat n)) -> (48 <= c <= 57)%N.
Proof.
  unfold JSON.number_to_string. destruct (Z.ltb_spec (Z.of_nat n) 0); [lia|].
  apply uint_codes_digits.
Qed.

(** A key that holds a code unit that is no digit is no index. *)
Lemma index_of_key_letter k len c :
  In c k -> ~ (48 <= c <= 57)%N -> index_of_key k len = None.
Proof.
  intros Hc Hnd. unfold index_of_key.
  destruct (List.find _ _) as [i|] eqn:Hf; [|reflexivity].
  apply find_some in Hf as [_ Heq]. unfold str_eqb in Heq.
  apply bool_decide_eq_true in Heq. subst k.
  by apply number_to_string_nat_digits in Hc.
Qed.

Lemma array_has_no_name l :
  has_prop (js "spec") (JArr l) = false /\ has_prop (js "name") (JArr l) = false /\
  has_prop (js "data") (JArr l) = false.
Proof.
  unfold has_prop.
  rewrite (index_of_key_letter (js "spec") _ 115%N); [|simpl; tauto|lia].
  rewrite (index_of_key_letter (js "name") _ 110%N); [|simpl; tauto|lia].
  rewrite (index_of_key_letter (js "data") _ 100%N); [|simpl; tauto|lia].
  repeat split.
Qed.

End ParserMore.

(** Whatever [parseCharacterCard] accepts comes out as a card of
    generation 2, version "2.0"; a parsed text that is no object (a number,
    a string, a boolean, [null]) or is an array is refused with "Invalid
    character card format". *)
Theorem card_of_value_format (value : jsval) :
  (forall card, Parser.card_of_value value = Ok card ->
     Parser.spec card = js "chara_card_v2" /\ Parser.spec_version card = js "2.0") /\
  (match value with
   | JObj _ => True
   | _ => Parser.card_of_value value = Throw (Error (js "Invalid character card format"))
   end).
Proof.
  split.
  - intros card. unfold Parser.card_of_value, Parser.validateV2Card.
    repeat match goal with
           | |- context [if ?b then _ else _] => destruct b
           | |- context [match ?v with JNull => _ | _ => _ end] => destruct v
           end;
      intros Hc; try discriminate Hc; injection Hc as <-; split; reflexivity.
  - destruct value as [| |[|]| | |l|]; try reflexivity; try exact I.
    destruct (array_has_no_name l) as (Hspec & Hname & Hdata).
    unfold Parser.card_of_value, Parser.isV2Card, Parser.isV1Card.
    rewrite Hspec, Hname, Hdata. reflexivity.
Qed.

(** A JSON object that is no card of generation 2 or 1 and whose [data]
    property is [null] makes the parser throw a TypeError (from
    ['name' in null]), not "Invalid character card format", even when the
    object has a [name] of its own. *)
Theorem card_of_value_null_data (props : list (jsstring * jsval)) :
  JsValue.has_prop (js "spec") (JObj props) = false ->
  Parser.isV1Card (JObj props) = false ->
  JsValue.has_prop (js "data") (JObj props) = true ->
  JsValue.get_prop (js "data") (JObj props) = JNull ->
  Parser.card_of_value (JObj props) = Throw TypeError.
Proof.
  intros Hspec Hv1 Hhas Hdata. unfold Parser.card_of_value, Parser.isV2Card.
  rewrite Hspec, Hv1, Hhas, Hdata. reflexivity.
Qed.

Lemma card_of_value_null_data_witness :
  Parser.parseCharacterCard (jsq "{'name':'Alice','data':null}") = Throw TypeError.
Proof.
  unfold Parser.parseCharacterCard.
  assert (JSON.parse (jsq "{'name':'Alice','data':null}") =
          Ok (JObj [(js "name", JStr (js "Alice")); (js "data", JNull)])) as ->
    by reflexivity.
  cbn [rbind]. apply card_of_value_null_data; reflexivity.
Defined.

(** [validateCharacterData] has no complaint exactly when the name is
    there, is not blank and has at most 100 code units, and the
    description, when there is one, has at most 50000. *)
Theorem validateCharacterData_accepts (name description : option jsstring) :
  Parser.validateCharacterData name description = [] <->
  (exists n, name = Some n /\ Str.trim n <> [] /\ Z.of_nat (length n) <= 100) /\
  (forall d, description = Some d -> Z.of_nat (length d) <= 50000).
Proof.
  unfold Parser.validateCharacterData.
  assert (forall s : jsstring, Nat.eqb (length s) 0 = true <-> s = []) as Hnil.
  { intros [|c s]; simpl; split; congruence. }
  split.
  - intros Hnone. apply app_eq_nil in Hnone as [H1 H23].
    apply app_eq_nil in H23 as [H2 H3]. split.
    + destruct name as [n|]; [|discriminate]. exists n. split; [reflexivity|].
      destruct (Nat.eqb (length n) 0) eqn:Hn; [discriminate|].
      destruct (Nat.eqb (length (Str.trim n)) 0) eqn:Ht; [discriminate|].
      split.
      * intros Heq. rewrite Heq in Ht. discriminate.
      * cbn [negb andb] in H2. destruct (Z.ltb_spec 100 (Z.of_nat (length n)));
          [discriminate|lia].
    + intros d ->. destruct (Nat.eqb (length d) 0) eqn:Hd.
      * apply Hnil in Hd. subst d. simpl. lia.
      * cbn [negb andb] in H3. destruct (Z.ltb_spec 50000 (Z.of_nat (length d)));
          [discriminate|lia].
  - intros [(n & -> & Ht & Hlen) Hdesc].
    assert (Nat.eqb (length (Str.trim n)) 0 = false) as ->.
    { destruct (Nat.eqb _ 0) eqn:E; [|reflexivity]. apply Hnil in E. contradiction. }
    assert (Nat.eqb (length n) 0 = false) as ->.
    { destruct (Nat.eqb _ 0) eqn:E; [|reflexivity]. apply Hnil in E. subst n.
      exfalso. by apply Ht. }
    cbn [orb negb andb app].
    destruct (Z.ltb_spec 100 (Z.of_nat (length n))); [lia|].
    destruct description as [d|]; [|reflexivity].
    specialize (Hdesc d eq_refl).
    destruct (Z.ltb_spec 50000 (Z.of_nat (length d))); [lia|].
    by rewrite andb_false_r.
Qed.

(** A card of generation 2 whose name is blank, some spaces say, is
    accepted by the parser with that name, while [validateCharacterData]
    reports the name of the same data as missing. *)
Theorem blank_name_parsed_but_invalid (n : jsstring) :
  n <> [] -> Str.trim n = [] ->
  (exists card, Parser.card_of_value (Parser.v2_card_named n) = Ok card /\
                Parser.name (Parser.data card) = JStr n) /\
  In (js "Character name is required") (Parser.validateCharacterData (Some n) None).
Proof.
  intros Hne Ht. split.
  - destruct n as [|c n]; [done|]. eexists. split; reflexivity.
  - unfold Parser.validateCharacterData. rewrite Ht. simpl.
    rewrite orb_true_r. now left.
Qed.

Lemma blank_name_parsed_but_invalid_witness :
  exists card,
    Parser.parseCharacterCard
      (jsq "{'spec':'chara_card_v2','spec_version':'2.0','data':{'name':'  '}}") = Ok card /\
    Parser.name (Parser.data card) = JStr (js "  ").
Proof.
  destruct (proj1 (blank_name_parsed_but_invalid (js "  ") ltac:(discriminate) eq_refl))
    as (card & Hcard & Hname).
  exists card. split; [|exact Hname].
  unfold Parser.parseCharacterCard.
  assert (JSON.parse
            (jsq "{'spec':'chara_card_v2','spec_version':'2.0','data':{'name':'  '}}") =
          Ok (Parser.v2_card_named (js "  "))) as -> by reflexivity.
  exact Hcard.
Defined.

(** ** btoa and atob *)

Section Base64Facts.
Import Base64.

Local Ltac ndiv := zify; Z.to_euclidean_division_equations; lia.

Lemma list_ind3 {A} (P : list A -> Prop) :
  P [] -> (forall x, P [x]) -> (forall x y, P [x; y]) ->
  (forall x y z rest, P rest -> P (x :: y :: z :: rest)) ->
  forall l, P l.
Proof.
  intros H0 H1 H2 H3.
  assert (forall n l, (length l <= n)%nat -> P l) as Hall.
  { induction n as [|n IH]; intros l Hl.
    - destruct l; [exact H0|simpl in Hl; lia].
    - destruct l as [|x [|y [|z rest]]]; [exact H0|apply H1|apply H2|].
      apply H3, IH. simpl in Hl. lia. }
  intros l. by apply (Hall (length l)).
Qed.

Lemma b64_val_char i : (i < 64)%N -> b64_val (b64_char i) = Some i.
Proof.
  intros Hi. unfold b64_char, b64_val.
  repeat match goal with
         | |- context [(?a <? ?b)%N] => destruct (N.ltb_spec a b)
         | |- context [(?a <=? ?b)%N] => destruct (N.leb_spec a b)
         | |- context [(?a =? ?b)%N] => destruct (N.eqb_spec a b)
         end; cbn [andb]; try lia; f_equal; lia.
Qed.

(** A character of the alphabet is an ASCII character that is neither
    the padding character nor white space. *)
Lemma b64_char_plain i :
  b64_char i <> 61%N /\ is_ascii_ws (b64_char i) = false /\ (b64_char i < 128)%N /\
  (0 < b64_char i)%N.
Proof.
  unfold b64_char, is_ascii_ws.
  repeat match goal with
         | |- context [(?a <? ?b)%N] => destruct (N.ltb_spec a b)
         | |- context [(?a =? ?b)%N] => destruct (N.eqb_spec a b)
         end; cbn [orb]; repeat split; lia.
Qed.

Lemma encode_alphabet s : Forall in_alphabet (encode s).
Proof.
  induction s as [| |x y|x y z rest IH] using list_ind3; cbn [encode];
    repeat (constructor; [by eexists|]); [constructor..|exact IH].
Qed.

Lemma padding_step n : padding (S (S (S n))) = padding n.
Proof.
  unfold padding. replace (S (S (S n))) with (n + 1 * 3)%nat by lia.
  by rewrite Nat.Div0.mod_add.
Qed.

Lemma padding_cases n : padding n = [] \/ padding n = [61%N] \/ padding n = [61; 61]%N.
Proof. unfold padding. destruct (n mod 3)%nat as [|[|[|]]]; auto. Qed.

Lemma encode_padded_length s : (length (encode s ++ padding (length s)) mod 4 = 0)%nat.
Proof.
  induction s as [| |x y|x y z rest IH] using list_ind3; try reflexivity.
  cbn [encode length]. rewrite padding_step.
  change (b64_char (x / 4) :: ?a :: ?b :: ?c :: encode rest) with
    ([b64_char (x / 4); a; b; c] ++ encode rest).
  rewrite <- app_assoc, (length_app [_; _; _; _]). cbn [length].
  replace (4 + length (encode rest ++ padding (length rest)))%nat
    with (length (encode rest ++ padding (length rest)) + 1 * 4)%nat by lia.
  by rewrite Nat.Div0.mod_add.
Qed.

Lemma encode_length_mod s : (length (encode s) mod 4 <> 1)%nat.
Proof.
  induction s as [| |x y|x y z rest IH] using list_ind3; try (simpl; lia).
  cbn [encode length].
  replace (S (S (S (S (length (encode rest))))))
    with (length (encode rest) + 1 * 4)%nat by lia.
  by rewrite Nat.Div0.mod_add.
Qed.

Lemma encode_nonempty s : padding (length s) <> [] -> encode s <> [].
Proof. destruct s as [|x [|y [|z rest]]]; simpl; [done|discriminate..]. Qed.

Lemma strip_padding_encode s :
  strip_padding (encode s ++ padding (length s)) = encode s.
Proof.
  unfold strip_padding. rewrite encode_padded_length. cbn [Nat.eqb].
  pose proof (encode_alphabet s) as Halpha.
  pose proof (encode_nonempty s) as Hne.
  assert (forall a, In a (rev (encode s)) -> a <> 61%N) as Hlast.
  { intros a Ha. apply in_rev in Ha. rewrite List.Forall_forall in Halpha.
    destruct (Halpha a Ha) as [i ->]. apply b64_char_plain. }
  destruct (padding_cases (length s)) as [Hp|[Hp|Hp]]; rewrite Hp in *.
  - rewrite app_nil_r. destruct (rev (encode s)) as [|a [|b r]] eqn:Hr; try reflexivity.
    destruct (N.eqb_spec a 61) as [->|_]; [|reflexivity].
    exfalso. apply (Hlast 61%N); [now left|reflexivity].
  - rewrite rev_app_distr. cbn [rev app].
    destruct (rev (encode s)) as [|b r] eqn:Hr.
    + exfalso. apply Hne; [discriminate|].
      apply (f_equal (@rev _)) in Hr. by rewrite rev_involutive in Hr.
    + cbn [N.eqb Pos.eqb].
      destruct (N.eqb_spec b 61) as [->|_].
      * exfalso. apply (Hlast 61%N); [now left|reflexivity].
      * change (rev r ++ [b]) with (rev (b :: r)). rewrite <- Hr. apply rev_involutive.
  - rewrite rev_app_distr. cbn [rev app N.eqb Pos.eqb]. apply rev_involutive.
Qed.

Lemma filter_alphabet s :
  List.filter (fun c => negb (is_ascii_ws c)) (encode s ++ padding (length s)) =
  encode s ++ padding (length s).
Proof.
  apply forallb_filter_id. rewrite forallb_app. apply andb_true_iff. split.
  - apply forallb_forall. intros c Hc.
    pose proof (encode_alphabet s) as Halpha. rewrite List.Forall_forall in Halpha.
    destruct (Halpha c Hc) as [i ->]. destruct (b64_char_plain i) as (_ & Hws & _).
    by rewrite Hws.
  - destruct (padding_cases (length s)) as [-> | [-> | ->]]; reflexivity.
Qed.

(** The values of the encoded characters decode to the bytes. *)
Lemma values_encode s :
  Forall (fun c => (c <= 255)%N) s ->
  exists vals, values (encode s) = Some vals /\ decode vals = s.
Proof.
  induction s as [| |x y|x y z rest IH] using list_ind3; intros Hs.
  - by exists [].
  - apply Forall_cons in Hs as [Hx _]. cbn [encode values].
    rewrite !b64_val_char by ndiv. eexists. split; [reflexivity|].
    cbn [decode]. f_equal. ndiv.
  - apply Forall_cons in Hs as [Hx Hs]. apply Forall_cons in Hs as [Hy _].
    cbn [encode values]. rewrite !b64_val_char by ndiv. eexists. split; [reflexivity|].
    cbn [decode]. f_equal; [ndiv|]. f_equal. ndiv.
  - apply Forall_cons in Hs as [Hx Hs]. apply Forall_cons in Hs as [Hy Hs].
    apply Forall_cons in Hs as [Hz Hs]. destruct (IH Hs) as (vals & Hv & Hd).
    cbn [encode values]. rewrite !b64_val_char by ndiv. rewrite Hv.
    eexists. split; [reflexivity|].
    cbn [decode]. rewrite Hd. f_equal; [ndiv|]. f_equal; [ndiv|]. f_equal. ndiv.
Qed.

Lemma encode_length_bound s :
  (length (encode s ++ padding (length s)) <= 2 * length s + 4)%nat.
Proof.
  induction s as [| |x y|x y z rest IH] using list_ind3; try (simpl; lia).
  cbn [encode length]. rewrite padding_step.
  rewrite length_app in *. cbn [length]. lia.
Qed.

(** [atob(btoa(s))] is [s]. *)
Lemma atob_btoa s :
  Forall (fun c => (c <= 255)%N) s ->
  exists text, btoa s = Ok text /\ atob text = Ok s /\
               Forall (fun c => (0 < c < 128)%N) text /\
               (length text <= 2 * length s + 4)%nat.
Proof.
  intros Hs. unfold btoa.
  assert (existsb (fun c => (255 <? c)%N) s = false) as ->.
  { apply existsb_false. intros c Hc. rewrite List.Forall_forall in Hs.
    specialize (Hs c Hc). apply N.ltb_ge. exact Hs. }
  eexists. split; [reflexivity|]. split.
  - unfold atob. rewrite filter_alphabet, strip_padding_encode.
    destruct (Nat.eqb_spec (length (encode s) mod 4) 1) as [H1|_];
      [by apply encode_length_mod in H1|].
    destruct (values_encode s Hs) as (vals & -> & ->). reflexivity.
  - split; [|apply encode_length_bound].
    apply Forall_app. split.
    + eapply Forall_impl; [apply encode_alphabet|].
      intros c [i ->]. destruct (b64_char_plain i) as (_ & _ & ? & ?). lia.
    + destruct (padding_cases (length s)) as [-> | [-> | ->]];
        repeat constructor; lia.
Qed.

End Base64Facts.
(** ** Walking the chunks of an image *)

Section PngBytes.
Import PngEmbed.

Lemma byte_at_app pre l k :
  0 <= k -> byte_at (pre ++ l) (Z.of_nat (length pre) + k) = byte_at l k.
Proof.
  intros Hk. unfold byte_at.
  destruct (Z.ltb_spec (Z.of_nat (length pre) + k) 0); [lia|].
  destruct (Z.ltb_spec k 0); [lia|].
  replace (Z.to_nat (Z.of_nat (length pre) + k)) with (length pre + Z.to_nat k)%nat by lia.
  apply app_nth2_plus.
Qed.

Lemma slice_app pre l post :
  slice (pre ++ l ++ post) (Z.of_nat (length pre))
        (Z.of_nat (length pre) + Z.of_nat (length l)) = l.
Proof.
  unfold slice, clamp_index. rewrite !length_app.
  destruct (Z.ltb_spec (Z.of_nat (length pre)) 0); [lia|].
  destruct (Z.ltb_spec (Z.of_nat (length pre) + Z.of_nat (length l)) 0); [lia|].
  rewrite !Z.min_l by lia.
  replace (Z.to_nat (Z.max (Z.of_nat (length pre) + Z.of_nat (length l)
                            - Z.of_nat (length pre)) 0)) with (length l) by lia.
  rewrite Nat2Z.id, drop_app_length. apply take_app_length.
Qed.

Lemma slice_prefix l post : slice (l ++ post) 0 (Z.of_nat (length l)) = l.
Proof. exact (slice_app [] l post). Qed.

Lemma slice_from_suffix pre l :
  slice_from (pre ++ l) (Z.of_nat (length pre)) = l.
Proof.
  unfold slice_from. rewrite length_app.
  pose proof (slice_app pre l []) as H. rewrite app_nil_r in H.
  rewrite <- H at 3. f_equal. lia.
Qed.

Lemma testbit_255 j : 0 <= j -> Z.testbit 255 j = (j <? 8).
Proof. intros Hj. change 255 with (Z.ones 8). by apply Z.testbit_ones_nonneg. Qed.

Lemma byte_of_testbit n k j :
  0 <= k -> 0 <= j -> Z.testbit (byte_of n k) j = Z.testbit n (j + k) && (j <? 8).
Proof.
  intros Hk Hj. unfold byte_of.
  by rewrite Z.land_spec, Z.shiftr_spec, testbit_255 by lia.
Qed.

Lemma byte_of_range n k : 0 <= byte_of n k < 256.
Proof.
  unfold byte_of. change 255 with (Z.ones 8). rewrite Z.land_ones by lia.
  apply Z.mod_pos_bound. lia.
Qed.

Lemma be32_value n :
  0 <= n < 4294967296 ->
  Z.lor (Z.lor (Z.lor (Z.shiftl (byte_of n 24) 24) (Z.shiftl (byte_of n 16) 16))
               (Z.shiftl (byte_of n 8) 8))
        (byte_of n 0) = n.
Proof.
  intros Hn. apply Z.bits_inj'. intros i Hi.
  rewrite !Z.lor_spec, !Z.shiftl_spec by lia.
  assert (forall k j, 0 <= k -> Z.testbit (byte_of n k) j =
                      (0 <=? j) && (j <? 8) && Z.testbit n (j + k)) as Hbit.
  { intros k j Hk. destruct (Z.leb_spec 0 j) as [Hj|Hj].
    - rewrite byte_of_testbit by lia. cbn [andb]. apply andb_comm.
    - by rewrite Z.testbit_neg_r by lia. }
  rewrite !Hbit by lia.
  replace (i - 24 + 24) with i by lia. replace (i - 16 + 16) with i by lia.
  replace (i - 8 + 8) with i by lia. rewrite Z.add_0_r.
  assert (32 <= i -> Z.testbit n i = false) as Hhigh.
  { intros Hi32. destruct (Z.eq_dec n 0) as [->|Hn0]; [apply Z.bits_0|].
    apply Z.bits_above_log2; [lia|].
    assert (Z.log2 n < 32) by (apply Z.log2_lt_pow2; lia). lia. }
  destruct (Z.leb_spec 0 (i - 24)); destruct (Z.ltb_spec (i - 24) 8);
    destruct (Z.leb_spec 0 (i - 16)); destruct (Z.ltb_spec (i - 16) 8);
    destruct (Z.leb_spec 0 (i - 8)); destruct (Z.ltb_spec (i - 8) 8);
    destruct (Z.leb_spec 0 i); destruct (Z.ltb_spec i 8);
    cbn [andb orb]; try lia; rewrite ?orb_false_r; try reflexivity.
  symmetry. apply Hhigh. lia.
Qed.

(** Four bytes written by [be32] are read back as the number. *)
Lemma read_int32_be32 n rest :
  0 <= n < 2147483648 -> read_int32 (be32 n ++ rest) 0 = n.
Proof.
  intros Hn. unfold read_int32, be32.
  change (byte_at ([byte_of n 24; byte_of n 16; byte_of n 8; Z.land n 255] ++ rest) 0)
    with (byte_of n 24).
  change (byte_at ([byte_of n 24; byte_of n 16; byte_of n 8; Z.land n 255] ++ rest) (0 + 1))
    with (byte_of n 16).
  change (byte_at ([byte_of n 24; byte_of n 16; byte_of n 8; Z.land n 255] ++ rest) (0 + 2))
    with (byte_of n 8).
  change (byte_at ([byte_of n 24; byte_of n 16; byte_of n 8; Z.land n 255] ++ rest) (0 + 3))
    with (byte_of n 0).
  rewrite be32_value by lia.
  destruct (Z.leb_spec 2147483648 n); [lia|reflexivity].
Qed.

Lemma byte_at_app0 pre l : byte_at (pre ++ l) (Z.of_nat (length pre)) = byte_at l 0.
Proof.
  rewrite <- (Z.add_0_r (Z.of_nat (length pre))). by apply byte_at_app.
Qed.

Lemma read_int32_app pre l :
  read_int32 (pre ++ l) (Z.of_nat (length pre)) = read_int32 l 0.
Proof.
  unfold read_int32. rewrite !byte_at_app0, !byte_at_app by lia. reflexivity.
Qed.

Lemma read_type_app pre l :
  read_type (pre ++ l) (Z.of_nat (length pre)) = read_type l 0.
Proof.
  unfold read_type. rewrite !byte_at_app0, !byte_at_app by lia. reflexivity.
Qed.

Lemma read_type_type t rest :
  length t = 4%nat -> read_type (List.map Z.of_N t ++ rest) 0 = t.
Proof.
  destruct t as [|a [|b [|c [|d [|]]]]]; try discriminate. intros _.
  unfold read_type.
  change (byte_at (List.map Z.of_N [a; b; c; d] ++ rest) 0) with (Z.of_N a).
  change (byte_at (List.map Z.of_N [a; b; c; d] ++ rest) (0 + 1)) with (Z.of_N b).
  change (byte_at (List.map Z.of_N [a; b; c; d] ++ rest) (0 + 2)) with (Z.of_N c).
  change (byte_at (List.map Z.of_N [a; b; c; d] ++ rest) (0 + 3)) with (Z.of_N d).
  by rewrite !N2Z.id.
Qed.

Lemma be32_length n : length (be32 n) = 4%nat.
Proof. reflexivity. Qed.

Lemma chunk_bytes_length c :
  chunk_ok c ->
  Z.of_nat (length (chunk_bytes c)) = 12 + Z.of_nat (length (ck_data c)).
Proof.
  intros (Ht & Hc & _). unfold chunk_bytes.
  rewrite !length_app, length_map, be32_length, Ht, Hc. lia.
Qed.

(** What the loops read of a chunk that starts at the offset [length pre]. *)
Lemma chunk_at pre c post :
  chunk_ok c ->
  let bytes := pre ++ chunk_bytes c ++ post in
  let offset := Z.of_nat (length pre) in
  let len := Z.of_nat (length (ck_data c)) in
  read_int32 bytes offset = len /\
  read_type bytes (offset + 4) = ck_type c /\
  slice bytes (offset + 8) (offset + 8 + len) = ck_data c /\
  slice bytes offset (offset + 12 + len) = chunk_bytes c /\
  offset + 12 + len = Z.of_nat (length (pre ++ chunk_bytes c)) /\
  offset < Z.of_nat (length bytes).
Proof.
  intros Hok. pose proof (chunk_bytes_length c Hok) as Hlen.
  destruct Hok as (Ht & Hc & Hn). cbv zeta. repeat split.
  - rewrite read_int32_app. unfold chunk_bytes. rewrite <- !app_assoc.
    apply read_int32_be32. lia.
  - unfold chunk_bytes.
    replace (pre ++ (be32 _ ++ List.map Z.of_N (ck_type c) ++ ck_data c ++ ck_crc c) ++ post)
      with ((pre ++ be32 (Z.of_nat (length (ck_data c))))
            ++ (List.map Z.of_N (ck_type c) ++ ck_data c ++ ck_crc c ++ post))
      by (by rewrite <- !app_assoc).
    replace (Z.of_nat (length pre) + 4)
      with (Z.of_nat (length (pre ++ be32 (Z.of_nat (length (ck_data c))))))
      by (rewrite length_app, be32_length; lia).
    rewrite read_type_app. by apply read_type_type.
  - unfold chunk_bytes.
    replace (pre ++ (be32 _ ++ List.map Z.of_N (ck_type c) ++ ck_data c ++ ck_crc c) ++ post)
      with ((pre ++ be32 (Z.of_nat (length (ck_data c))) ++ List.map Z.of_N (ck_type c))
            ++ ck_data c ++ (ck_crc c ++ post))
      by (by rewrite <- !app_assoc).
    replace (Z.of_nat (length pre) + 8)
      with (Z.of_nat (length (pre ++ be32 (Z.of_nat (length (ck_data c)))
                              ++ List.map Z.of_N (ck_type c))))
      by (rewrite !length_app, be32_length, length_map, Ht; lia).
    apply slice_app.
  - replace (Z.of_nat (length pre) + 12 + Z.of_nat (length (ck_data c)))
      with (Z.of_nat (length pre) + Z.of_nat (length (chunk_bytes c))) by lia.
    apply slice_app.
  - rewrite length_app. lia.
  - rewrite !length_app. lia.
Qed.

End PngBytes.

Section PngLoops.
Import PngEmbed.

Lemma extract_loop_step pre c post fuel :
  chunk_ok c ->
  extract_loop (S fuel) (pre ++ chunk_bytes c ++ post) (Z.of_nat (length pre)) =
  if carries_character c then decode_character c
  else if str_eqb (ck_type c) (js "IEND") then Ok None
  else extract_loop fuel (pre ++ chunk_bytes c ++ post)
                    (Z.of_nat (length (pre ++ chunk_bytes c))).
Proof.
  intros Hok. destruct (chunk_at pre c post Hok) as (H1 & H2 & H3 & H4 & H5 & H6).
  cbv zeta in *. set (bytes := pre ++ chunk_bytes c ++ post) in *.
  cbn [extract_loop]. cbv zeta.
  destruct (Z.ltb_spec (Z.of_nat (length pre)) (Z.of_nat (length bytes))); [|lia].
  rewrite H1.
  replace (Z.of_nat (length pre) + 4 + 4) with (Z.of_nat (length pre) + 8) by lia.
  rewrite H2, H3. unfold carries_character, decode_character.
  destruct (str_eqb (ck_type c) (js "tEXt") && str_eqb (keyword_of (ck_data c)) CHARA_KEYWORD);
    [reflexivity|].
  destruct (str_eqb (ck_type c) (js "IEND")); [reflexivity|].
  f_equal. lia.
Qed.

Lemma remove_loop_step pre c post fuel :
  chunk_ok c ->
  remove_loop (S fuel) (pre ++ chunk_bytes c ++ post) (Z.of_nat (length pre)) =
  let chunks := if carries_character c then [] else [chunk_bytes c] in
  if str_eqb (ck_type c) (js "IEND") then Ok chunks
  else do rest <- remove_loop fuel (pre ++ chunk_bytes c ++ post)
                              (Z.of_nat (length (pre ++ chunk_bytes c)));
       Ok (chunks ++ rest).
Proof.
  intros Hok. destruct (chunk_at pre c post Hok) as (H1 & H2 & H3 & H4 & H5 & H6).
  cbv zeta in *. set (bytes := pre ++ chunk_bytes c ++ post) in *.
  cbn [remove_loop]. cbv zeta.
  destruct (Z.ltb_spec (Z.of_nat (length pre)) (Z.of_nat (length bytes))); [|lia].
  rewrite H1, H2, H3, H4, H5. unfold carries_character.
  destruct (str_eqb (ck_type c) (js "tEXt")); cbn [andb negb];
    [destruct (str_eqb (keyword_of (ck_data c)) CHARA_KEYWORD)|]; reflexivity.
Qed.

Lemma find_iend_step pre c post fuel :
  chunk_ok c ->
  find_iend (S fuel) (pre ++ chunk_bytes c ++ post) (Z.of_nat (length pre)) =
  if str_eqb (ck_type c) (js "IEND") then Ok (Z.of_nat (length pre))
  else find_iend fuel (pre ++ chunk_bytes c ++ post)
                 (Z.of_nat (length (pre ++ chunk_bytes c))).
Proof.
  intros Hok. destruct (chunk_at pre c post Hok) as (H1 & H2 & H3 & H4 & H5 & H6).
  cbv zeta in *. set (bytes := pre ++ chunk_bytes c ++ post) in *.
  cbn [find_iend]. cbv zeta.
  destruct (Z.ltb_spec (Z.of_nat (length pre)) (Z.of_nat (length bytes))); [|lia].
  rewrite H1, H2.
  destruct (str_eqb (ck_type c) (js "IEND")); [reflexivity|].
  f_equal. lia.
Qed.

Lemma not_iend c : ck_type c <> js "IEND" -> str_eqb (ck_type c) (js "IEND") = false.
Proof. intros H. unfold str_eqb. by apply bool_decide_eq_false. Qed.

Lemma iend_carries_nothing c : ck_type c = js "IEND" -> carries_character c = false.
Proof. unfold carries_character. by intros ->. Qed.

Lemma walk_bytes pre c cs post :
  pre ++ flat_map chunk_bytes (c :: cs) ++ post =
  pre ++ chunk_bytes c ++ (flat_map chunk_bytes cs ++ post) /\
  pre ++ flat_map chunk_bytes (c :: cs) ++ post =
  (pre ++ chunk_bytes c) ++ flat_map chunk_bytes cs ++ post.
Proof. cbn [flat_map]. by rewrite <- !app_assoc. Qed.

(** The loop goes past the chunks that hold no character and are not
    the last one, up to a chunk that holds a character or ends the image. *)
Lemma extract_loop_reach cs : forall pre last post fuel,
  Forall chunk_ok cs -> Forall (fun c => ck_type c <> js "IEND") cs ->
  Forall (fun c => carries_character c = false) cs ->
  chunk_ok last -> carries_character last = true \/ ck_type last = js "IEND" ->
  (length cs < fuel)%nat ->
  extract_loop fuel (pre ++ flat_map chunk_bytes cs ++ chunk_bytes last ++ post)
               (Z.of_nat (length pre)) =
  if carries_character last then decode_character last else Ok None.
Proof.
  induction cs as [|c cs IH]; intros pre last post fuel Hok Hne Hnc Hlast Hstop Hfuel;
    (destruct fuel as [|fuel]; [simpl in Hfuel; lia|]).
  - cbn [flat_map app]. rewrite extract_loop_step by exact Hlast.
    destruct (carries_character last); [reflexivity|].
    destruct Hstop as [? | ->]; [discriminate|reflexivity].
  - apply Forall_cons in Hok as [Hc Hok]. apply Forall_cons in Hne as [Hcne Hne].
    apply Forall_cons in Hnc as [Hcnc Hnc].
    destruct (walk_bytes pre c cs (chunk_bytes last ++ post)) as [E1 E2].
    rewrite E1, extract_loop_step by exact Hc.
    rewrite Hcnc, (not_iend c Hcne), <- E1, E2.
    apply IH; try assumption. simpl in Hfuel. lia.
Qed.

Lemma remove_loop_walk cs : forall pre iend post fuel,
  Forall chunk_ok cs -> Forall (fun c => ck_type c <> js "IEND") cs ->
  chunk_ok iend -> ck_type iend = js "IEND" ->
  (length cs < fuel)%nat ->
  remove_loop fuel (pre ++ flat_map chunk_bytes cs ++ chunk_bytes iend ++ post)
              (Z.of_nat (length pre)) =
  Ok (List.map chunk_bytes (List.filter (fun c => negb (carries_character c)) cs)
      ++ [chunk_bytes iend]).
Proof.
  induction cs as [|c cs IH]; intros pre iend post fuel Hok Hne Hiend Htype Hfuel;
    (destruct fuel as [|fuel]; [simpl in Hfuel; lia|]).
  - cbn [flat_map app List.filter List.map]. rewrite remove_loop_step by exact Hiend.
    cbv zeta. by rewrite (iend_carries_nothing _ Htype), Htype.
  - apply Forall_cons in Hok as [Hc Hok]. apply Forall_cons in Hne as [Hcne Hne].
    destruct (walk_bytes pre c cs (chunk_bytes iend ++ post)) as [E1 E2].
    rewrite E1, remove_loop_step by exact Hc. cbv zeta.
    rewrite (not_iend c Hcne), <- E1, E2.
    rewrite IH by (try assumption; simpl in Hfuel; lia).
    cbn [rbind List.filter]. destruct (carries_character c); reflexivity.
Qed.

Lemma find_iend_walk cs : forall pre iend post fuel,
  Forall chunk_ok cs -> Forall (fun c => ck_type c <> js "IEND") cs ->
  chunk_ok iend -> ck_type iend = js "IEND" ->
  (length cs < fuel)%nat ->
  find_iend fuel (pre ++ flat_map chunk_bytes cs ++ chunk_bytes iend ++ post)
            (Z.of_nat (length pre)) =
  Ok (Z.of_nat (length (pre ++ flat_map chunk_bytes cs))).
Proof.
  induction cs as [|c cs IH]; intros pre iend post fuel Hok Hne Hiend Htype Hfuel;
    (destruct fuel as [|fuel]; [simpl in Hfuel; lia|]).
  - cbn [flat_map app]. rewrite find_iend_step by exact Hiend.
    by rewrite Htype, app_nil_r.
  - apply Forall_cons in Hok as [Hc Hok]. apply Forall_cons in Hne as [Hcne Hne].
    destruct (walk_bytes pre c cs (chunk_bytes iend ++ post)) as [E1 E2].
    rewrite E1, find_iend_step by exact Hc.
    rewrite (not_iend c Hcne), <- E1, E2.
    rewrite IH by (try assumption; simpl in Hfuel; lia).
    cbn [flat_map]. by rewrite <- !app_assoc.
Qed.

(** There are fewer chunks than bytes. *)
Lemma chunks_fewer cs : (length cs <= length (flat_map chunk_bytes cs))%nat.
Proof.
  induction cs as [|c cs IH]; [reflexivity|].
  cbn [flat_map length]. rewrite length_app. unfold chunk_bytes at 1.
  rewrite length_app, be32_length. lia.
Qed.

End PngLoops.

Section PngImages.
Import PngEmbed.

Lemma bytes_of_binary_range s : Forall (fun b => 0 <= b < 256) (bytes_of_binary s).
Proof.
  unfold bytes_of_binary. apply List.Forall_forall. intros b Hb.
  apply in_map_iff in Hb as (c & <- & _). apply Z.mod_pos_bound. lia.
Qed.

Lemma bytes_of_binary_of_bytes l :
  Forall (fun b => 0 <= b < 256) l -> bytes_of_binary (binary_of_bytes l) = l.
Proof.
  unfold bytes_of_binary, binary_of_bytes. induction 1 as [|b l Hb Hl IH]; [reflexivity|].
  cbn [List.map]. rewrite IH, Z2N.id by lia. f_equal. apply Z.mod_small. lia.
Qed.

Lemma binary_of_bytes_latin1 l :
  Forall (fun b => 0 <= b < 256) l -> Forall (fun c => (c <= 255)%N) (binary_of_bytes l).
Proof.
  unfold binary_of_bytes. induction 1 as [|b l Hb Hl IH]; constructor; [lia|exact IH].
Qed.

(** The UTF-8 bytes of ASCII text are its code units. *)
Lemma utf8_encode_ascii s :
  Forall (fun c => (c < 128)%N) s -> utf8_encode s = List.map Z.of_N s.
Proof.
  induction 1 as [|c s Hc Hs IH]; [reflexivity|]. cbn [utf8_encode List.map].
  unfold JSON.is_high_surrogate, JSON.is_low_surrogate.
  destruct (N.leb_spec 55296 c); [lia|]. destruct (N.leb_spec 56320 c); [lia|].
  cbn [andb]. unfold utf8_of_code_point.
  destruct (Z.ltb_spec (Z.of_N c) 128); [|lia]. by rewrite IH.
Qed.

Lemma binary_of_bytes_of_N s : binary_of_bytes (List.map Z.of_N s) = s.
Proof.
  unfold binary_of_bytes. induction s as [|c s IH]; [reflexivity|].
  cbn [List.map]. by rewrite N2Z.id, IH.
Qed.

Lemma createTextChunk_chunk text :
  createTextChunk CHARA_KEYWORD text = chunk_bytes (character_chunk text).
Proof.
  unfold createTextChunk, chunk_bytes, character_chunk.
  cbn [ck_type ck_data ck_crc]. rewrite !length_app. cbn [length].
  rewrite <- !app_assoc. reflexivity.
Qed.

Lemma character_chunk_carries text : carries_character (character_chunk text) = true.
Proof. reflexivity. Qed.

Lemma character_chunk_decode text :
  Forall (fun c => (c < 128)%N) text ->
  decode_character (character_chunk text) =
  (do jsonString <- Base64.atob text;
   do card <- Parser.parseCharacterCard jsonString;
   Ok (Some card)).
Proof.
  intros Hascii. unfold decode_character, character_chunk. cbn [ck_data].
  change (null_index (utf8_encode CHARA_KEYWORD ++ [0] ++ utf8_encode text)) with 5%nat.
  change (utf8_encode CHARA_KEYWORD ++ [0] ++ utf8_encode text)
    with ([99; 104; 97; 114; 97; 0] ++ utf8_encode text).
  change (Z.of_nat 5 + 1) with (Z.of_nat (length [99; 104; 97; 114; 97; 0])).
  rewrite slice_from_suffix, utf8_encode_ascii, binary_of_bytes_of_N by exact Hascii.
  reflexivity.
Qed.

Lemma character_chunk_ok text :
  Forall (fun c => (c < 128)%N) text ->
  Z.of_nat (length text) + 6 < 2147483648 ->
  chunk_ok (character_chunk text).
Proof.
  intros Hascii Hlen. unfold chunk_ok, character_chunk. cbn [ck_type ck_data ck_crc].
  split; [reflexivity|]. split; [reflexivity|].
  rewrite (utf8_encode_ascii text) by exact Hascii.
  rewrite !length_app, length_map. cbn [length utf8_encode]. simpl. lia.
Qed.

Lemma character_chunk_range text :
  Forall (fun c => (c < 128)%N) text ->
  Z.of_nat (length text) + 6 < 2147483648 ->
  Forall (fun b => 0 <= b < 256) (chunk_bytes (character_chunk text)).
Proof.
  intros Hascii Hlen. unfold chunk_bytes, character_chunk. cbn [ck_type ck_data ck_crc].
  rewrite (utf8_encode_ascii text) by exact Hascii.
  change (utf8_encode CHARA_KEYWORD) with [99; 104; 97; 114; 97].
  change (List.map Z.of_N (js "tEXt")) with [116; 69; 88; 116].
  repeat apply Forall_app_2.
  - unfold be32. change (Z.land ?n 255) with (byte_of n 0).
    repeat constructor; apply byte_of_range.
  - repeat constructor; lia.
  - repeat constructor; lia.
  - repeat constructor; lia.
  - apply List.Forall_forall. intros b Hb. apply in_map_iff in Hb as (c & <- & Hc).
    rewrite List.Forall_forall in Hascii. specialize (Hascii c Hc). lia.
  - set (crc := calculateCRC32 _). change (Z.land crc 255) with (byte_of crc 0).
    repeat constructor; apply byte_of_range.
Qed.

Lemma check_signature_image cs iend : check_signature (image cs iend) = Ok tt.
Proof. reflexivity. Qed.

Lemma image_fuel cs iend : (length cs < S (length (image cs iend)))%nat.
Proof.
  unfold image. rewrite !length_app. pose proof (chunks_fewer cs). lia.
Qed.

Lemma find_iend_image cs iend :
  well_formed cs iend ->
  find_iend (S (length (image cs iend))) (image cs iend) 8 =
  Ok (Z.of_nat (length (PNG_SIGNATURE ++ flat_map chunk_bytes cs))).
Proof.
  intros (Hok & Hne & Hiend & Htype).
  pose proof (find_iend_walk cs PNG_SIGNATURE iend [] (S (length (image cs iend)))
                Hok Hne Hiend Htype (image_fuel cs iend)) as H.
  rewrite app_nil_r in H. exact H.
Qed.

Lemma removeExistingCharaChunk_image cs iend :
  well_formed cs iend ->
  removeExistingCharaChunk (image cs iend) =
  Ok (image (List.filter (fun c => negb (carries_character c)) cs) iend).
Proof.
  intros (Hok & Hne & Hiend & Htype). unfold removeExistingCharaChunk.
  pose proof (remove_loop_walk cs PNG_SIGNATURE iend [] (S (length (image cs iend)))
                Hok Hne Hiend Htype (image_fuel cs iend)) as H.
  rewrite app_nil_r in H.
  change (remove_loop (S (length (image cs iend))) (image cs iend) 8 =
          Ok (List.map chunk_bytes (List.filter (fun c => negb (carries_character c)) cs)
              ++ [chunk_bytes iend])) in H.
  rewrite H. cbn [rbind].
  f_equal. unfold image.
  change (slice (PNG_SIGNATURE ++ flat_map chunk_bytes cs ++ chunk_bytes iend) 0 8)
    with (slice (PNG_SIGNATURE ++ flat_map chunk_bytes cs ++ chunk_bytes iend) 0
                (Z.of_nat (length PNG_SIGNATURE))).
  rewrite slice_prefix. cbn [concat]. f_equal.
  rewrite concat_app, flat_map_concat_map. cbn [concat]. by rewrite app_nil_r.
Qed.

Lemma well_formed_filter cs iend :
  well_formed cs iend ->
  well_formed (List.filter (fun c => negb (carries_character c)) cs) iend.
Proof.
  intros (Hok & Hne & Hiend & Htype). split; [|split; [|split; assumption]].
  - apply List.Forall_forall. intros c Hc. apply filter_In in Hc as [Hc _].
    rewrite List.Forall_forall in Hok. by apply Hok.
  - apply List.Forall_forall. intros c Hc. apply filter_In in Hc as [Hc _].
    rewrite List.Forall_forall in Hne. by apply Hne.
Qed.

Lemma image_snoc cs t iend :
  image (cs ++ [t]) iend =
  PNG_SIGNATURE ++ flat_map chunk_bytes cs ++ chunk_bytes t ++ chunk_bytes iend ++ [].
Proof.
  unfold image. rewrite flat_map_app. cbn [flat_map]. by rewrite !app_nil_r, <- !app_assoc.
Qed.

(** The loop of [extractCharacterFromPng] over an image whose last chunk
    ahead of IEND is the first that carries a character. *)
Lemma extract_loop_image cs t iend :
  well_formed cs iend -> Forall (fun c => carries_character c = false) cs ->
  chunk_ok t -> carries_character t = true ->
  extract_loop (S (length (image (cs ++ [t]) iend))) (image (cs ++ [t]) iend) 8 =
  decode_character t.
Proof.
  intros (Hok & Hne & Hiend & Htype) Hnc Ht Hcarries.
  rewrite image_snoc.
  pose proof (extract_loop_reach cs PNG_SIGNATURE t (chunk_bytes iend ++ [])
                (S (length (PNG_SIGNATURE ++ flat_map chunk_bytes cs ++ chunk_bytes t
                                ++ chunk_bytes iend ++ [])))
                Hok Hne Hnc Ht (or_introl Hcarries)) as H.
  rewrite Hcarries in H. apply H.
  rewrite !length_app. pose proof (chunks_fewer cs). lia.
Qed.

Lemma image_range_filter cs iend :
  Forall (fun b => 0 <= b < 256) (image cs iend) ->
  Forall (fun b => 0 <= b < 256)
         (PNG_SIGNATURE ++ flat_map chunk_bytes
            (List.filter (fun c => negb (carries_character c)) cs)) /\
  Forall (fun b => 0 <= b < 256) (chunk_bytes iend).
Proof.
  unfold image. intros H. apply Forall_app in H as [Hsig H].
  apply Forall_app in H as [Hcs Hiend]. split; [|exact Hiend].
  apply Forall_app_2; [exact Hsig|].
  apply List.Forall_forall. intros b Hb. apply in_flat_map in Hb as (c & Hc & Hb).
  apply filter_In in Hc as [Hc _]. rewrite List.Forall_forall in Hcs. apply Hcs.
  apply in_flat_map. by exists c.
Qed.

Lemma filter_carries_none cs :
  Forall (fun c => carries_character c = false)
         (List.filter (fun c => negb (carries_character c)) cs).
Proof.
  apply List.Forall_forall. intros c Hc. apply filter_In in Hc as [_ Hc].
  by apply negb_true_iff in Hc.
Qed.

(** Parsing the compact JSON text of an exported character. *)
Lemma parse_exported character :
  Parser.valid_data (Types.ch_data character) = true ->
  Parser.parseCharacterCard
    (Parser.stringify_card (Parser.exportToV2Card character) []) =
  Ok {| Parser.spec := js "chara_card_v2"; Parser.spec_version := js "2.0";
        Parser.data := Parser.data_fields (Types.ch_data character) |}.
Proof.
  intros Hvalid. unfold Parser.valid_data in Hvalid.
  apply andb_true_iff in Hvalid as [Hname Hext]. unfold Parser.exportToV2Card.
  apply card_round_trip; try reflexivity; cbn [Parser.data_fields
    Parser.name Parser.description Parser.personality Parser.scenario Parser.first_mes
    Parser.mes_example Parser.creator_notes Parser.system_prompt
    Parser.post_history_instructions Parser.alternate_greetings Parser.tags
    Parser.creator Parser.character_version Parser.extensions];
    try apply field_ok_string; try apply field_ok_opt_string;
    try apply field_ok_opt_strings; try apply or_empty_string.
  - exact Hname.
  - destruct (Types.cd_extensions (Types.ch_data character)) as [v|]; [|by split].
    split; [by apply is_json_storable|by apply normalize_is_json].
Qed.

Lemma filter_none {A} (f : A -> bool) l :
  Forall (fun x => f x = false) l -> List.filter f l = [].
Proof.
  induction 1 as [|x l Hx Hl IH]; [reflexivity|]. cbn [List.filter]. by rewrite Hx.
Qed.

Lemma well_formed_snoc cs t iend :
  well_formed cs iend -> chunk_ok t -> ck_type t <> js "IEND" ->
  well_formed (cs ++ [t]) iend.
Proof.
  intros (Hok & Hne & Hiend & Htype) Ht Htne.
  split; [|split; [|split; assumption]]; apply Forall_app_2; try assumption;
    (apply Forall_cons_2; [assumption|apply Forall_nil_2]).
Qed.

(** Embedding into a well-formed image: the text written and the image
    that comes out. *)
Lemma embed_image png bin chunks iend character :
  Base64.atob png = Ok bin ->
  bytes_of_binary bin = image chunks iend ->
  well_formed chunks iend ->
  forallb (fun c => (c <=? 255)%N) (Parser.exportCharacterToJson character false) = true ->
  Z.of_nat (length (Parser.exportCharacterToJson character false)) < 1000000000 ->
  exists text png',
    Base64.btoa (Parser.exportCharacterToJson character false) = Ok text /\
    Base64.atob text = Ok (Parser.exportCharacterToJson character false) /\
    Forall (fun c => (c < 128)%N) text /\
    chunk_ok (character_chunk text) /\
    embedCharacterIntoPng png character = Ok png' /\
    Base64.atob png' =
      Ok (binary_of_bytes
            (image (List.filter (fun c => negb (carries_character c)) chunks
                    ++ [character_chunk text]) iend)) /\
    Forall (fun b => 0 <= b < 256)
           (image (List.filter (fun c => negb (carries_character c)) chunks
                   ++ [character_chunk text]) iend).
Proof.
  intros Hatob Hbytes Hwf Hlatin Hsize.
  set (json := Parser.exportCharacterToJson character false) in *.
  assert (Forall (fun c => (c <= 255)%N) json) as Hjson.
  { apply List.Forall_forall. intros c Hc.
    rewrite forallb_forall in Hlatin. by apply N.leb_le, Hlatin. }
  destruct (atob_btoa json Hjson) as (text & Hbtoa & Hback & Hplain & Hlen).
  assert (Forall (fun c => (c < 128)%N) text) as Hascii.
  { eapply Forall_impl; [exact Hplain|]. intros c Hc. simpl in Hc. lia. }
  assert (chunk_ok (character_chunk text)) as Hcc.
  { apply character_chunk_ok; [exact Hascii|]. lia. }
  set (kept := List.filter (fun c => negb (carries_character c)) chunks).
  assert (Forall (fun b => 0 <= b < 256) (image (kept ++ [character_chunk text]) iend))
    as Hrange.
  { pose proof (bytes_of_binary_range bin) as Himg. rewrite Hbytes in Himg.
    destruct (image_range_filter _ _ Himg) as [Hpre Hiend].
    rewrite image_snoc, app_nil_r.
    rewrite app_assoc. apply Forall_app_2; [exact Hpre|].
    apply Forall_app_2; [|exact Hiend].
    apply character_chunk_range; [exact Hascii|lia]. }
  destruct (atob_btoa _ (binary_of_bytes_latin1 _ Hrange))
    as (png' & Hpng' & Hatob' & _ & _).
  exists text, png'. split; [exact Hbtoa|]. split; [exact Hback|].
  split; [exact Hascii|]. split; [exact Hcc|]. split; [|split; [exact Hatob'|exact Hrange]].
  unfold embedCharacterIntoPng. rewrite Hatob. cbn [rbind]. cbv zeta.
  rewrite Hbytes, check_signature_image. cbn [rbind].
  change (Parser.stringify_card (Parser.exportToV2Card character) []) with json.
  rewrite Hbtoa. cbn [rbind].
  rewrite (find_iend_image _ _ Hwf). cbn [rbind].
  rewrite (removeExistingCharaChunk_image _ _ Hwf). cbn [rbind]. fold kept.
  rewrite (find_iend_image kept iend (well_formed_filter _ _ Hwf)). cbn [rbind].
  rewrite <- Hpng'. do 2 f_equal.
  unfold image at 1 2. rewrite (app_assoc PNG_SIGNATURE).
  rewrite slice_prefix, slice_from_suffix, createTextChunk_chunk.
  rewrite image_snoc, app_nil_r. by rewrite <- !app_assoc.
Qed.

End PngImages.

(** For every image that is the signature, chunks and a final IEND
    chunk, and every character data with a non-empty name whose compact
    JSON text holds no code unit above 255 (and is shorter than 10^9),
    embedding succeeds and extracting from the result returns the card of
    generation 2 with exactly the data fields of the character, whether or
    not the image carried a character before. *)
Theorem embed_then_extract (png bin : jsstring) (chunks : list PngEmbed.Chunk)
    (iend : PngEmbed.Chunk) (character : Types.Character) :
  Base64.atob png = Ok bin ->
  PngEmbed.bytes_of_binary bin = PngEmbed.image chunks iend ->
  PngEmbed.well_formed chunks iend ->
  Parser.valid_data (Types.ch_data character) = true ->
  forallb (fun c => (c <=? 255)%N) (Parser.exportCharacterToJson character false) = true ->
  Z.of_nat (length (Parser.exportCharacterToJson character false)) < 1000000000 ->
  exists png',
    PngEmbed.embedCharacterIntoPng png character = Ok png' /\
    PngEmbed.extractCharacterFromPng png' =
      Ok (Some {| Parser.spec := js "chara_card_v2"; Parser.spec_version := js "2.0";
                  Parser.data := Parser.data_fields (Types.ch_data character) |}) /\
    PngEmbed.pngHasCharacterData png' = Ok true.
Proof.
  intros Hatob Hbytes Hwf Hvalid Hlatin Hsize.
  destruct (embed_image png bin chunks iend character Hatob Hbytes Hwf Hlatin Hsize)
    as (text & png' & Hbtoa & Hback & Hascii & Hcc & Hembed & Hatob' & Hrange).
  exists png'. split; [exact Hembed|].
  assert (PngEmbed.extractCharacterFromPng png' =
          Ok (Some {| Parser.spec := js "chara_card_v2"; Parser.spec_version := js "2.0";
                      Parser.data := Parser.data_fields (Types.ch_data character) |}))
    as Hextract.
  { unfold PngEmbed.extractCharacterFromPng. rewrite Hatob'. cbn [rbind]. cbv zeta.
    rewrite (bytes_of_binary_of_bytes _ Hrange), check_signature_image. cbn [rbind].
    rewrite extract_loop_image;
      [|by apply well_formed_filter|apply filter_carries_none|exact Hcc
       |apply character_chunk_carries].
    rewrite (character_chunk_decode _ Hascii), Hback. cbn [rbind].
    change (Parser.exportCharacterToJson character false)
      with (Parser.stringify_card (Parser.exportToV2Card character) []).
    by rewrite (parse_exported character Hvalid). }
  split; [exact Hextract|].
  unfold PngEmbed.pngHasCharacterData. by rewrite Hextract.
Qed.

Lemma embed_then_extract_witness :
  exists png',
    PngEmbed.embedCharacterIntoPng PngEmbed.MINIMAL_PNG_BASE64
      (PngEmbed.sample_character (js "Alice")) = Ok png' /\
    PngEmbed.extractCharacterFromPng png' =
      Ok (Some {| Parser.spec := js "chara_card_v2"; Parser.spec_version := js "2.0";
                  Parser.data := Parser.data_fields (Parser.sample_data (js "Alice")) |}).
Proof.
  destruct (embed_then_extract PngEmbed.MINIMAL_PNG_BASE64
              (PngEmbed.binary_of_bytes
                 (PngEmbed.image PngEmbed.minimal_chunks PngEmbed.minimal_iend))
              PngEmbed.minimal_chunks PngEmbed.minimal_iend
              (PngEmbed.sample_character (js "Alice")))
    as (png' & Hembed & Hextract & _).
  - vm_compute. reflexivity.
  - vm_compute. reflexivity.
  - unfold PngEmbed.well_formed, PngEmbed.chunk_ok.
    repeat split; repeat constructor; simpl; try lia; try discriminate.
  - vm_compute. reflexivity.
  - vm_compute. reflexivity.
  - vm_compute. reflexivity.
  - exists png'. split; [exact Hembed|exact Hextract].
Defined.

(** What embedding makes of such an image: the chunks that carried no
    character, in their order, then one text chunk with the keyword
    [chara] and the base64 text of the character's JSON, then IEND. The
    chunks that carried a character before are gone, so that exactly one
    chunk carries a character, and the image is again one that can be
    embedded into. *)
Theorem embed_leaves_one_character_chunk (png bin : jsstring)
    (chunks : list PngEmbed.Chunk) (iend : PngEmbed.Chunk) (character : Types.Character) :
  Base64.atob png = Ok bin ->
  PngEmbed.bytes_of_binary bin = PngEmbed.image chunks iend ->
  PngEmbed.well_formed chunks iend ->
  forallb (fun c => (c <=? 255)%N) (Parser.exportCharacterToJson character false) = true ->
  Z.of_nat (length (Parser.exportCharacterToJson character false)) < 1000000000 ->
  exists png' bin' text,
    let chunks' :=
      List.filter (fun c => negb (PngEmbed.carries_character c)) chunks
      ++ [PngEmbed.character_chunk text] in
    PngEmbed.embedCharacterIntoPng png character = Ok png' /\
    Base64.atob png' = Ok bin' /\
    PngEmbed.bytes_of_binary bin' = PngEmbed.image chunks' iend /\
    Base64.atob text = Ok (Parser.exportCharacterToJson character false) /\
    List.filter PngEmbed.carries_character chunks' = [PngEmbed.character_chunk text] /\
    PngEmbed.well_formed chunks' iend.
Proof.
  intros Hatob Hbytes Hwf Hlatin Hsize.
  destruct (embed_image png bin chunks iend character Hatob Hbytes Hwf Hlatin Hsize)
    as (text & png' & Hbtoa & Hback & Hascii & Hcc & Hembed & Hatob' & Hrange).
  eexists png', _, text. cbv zeta.
  split; [exact Hembed|]. split; [exact Hatob'|].
  split; [by apply bytes_of_binary_of_bytes|]. split; [exact Hback|]. split.
  - rewrite List.filter_app, (filter_none _ _ (filter_carries_none chunks)).
    cbn [List.filter app]. by rewrite character_chunk_carries.
  - apply well_formed_snoc; [by apply well_formed_filter|exact Hcc|discriminate].
Qed.

Lemma embed_leaves_one_character_chunk_witness :
  exists png1 png2 bin2 text,
    PngEmbed.embedCharacterIntoPng PngEmbed.MINIMAL_PNG_BASE64
      (PngEmbed.sample_character (js "Alice")) = Ok png1 /\
    PngEmbed.embedCharacterIntoPng png1 (PngEmbed.sample_character (js "Bob")) = Ok png2 /\
    Base64.atob png2 = Ok bin2 /\
    PngEmbed.bytes_of_binary bin2 =
      PngEmbed.image (PngEmbed.minimal_chunks ++ [PngEmbed.character_chunk text])
                     PngEmbed.minimal_iend /\
    Base64.atob text =
      Ok (Parser.exportCharacterToJson (PngEmbed.sample_character (js "Bob")) false).
Proof.
  destruct (embed_leaves_one_character_chunk PngEmbed.MINIMAL_PNG_BASE64
              (PngEmbed.binary_of_bytes
                 (PngEmbed.image PngEmbed.minimal_chunks PngEmbed.minimal_iend))
              PngEmbed.minimal_chunks PngEmbed.minimal_iend
              (PngEmbed.sample_character (js "Alice")))
    as (png1 & bin1 & text1 & Hembed1 & Hatob1 & Hbytes1 & _ & _ & Hwf1).
  - vm_compute. reflexivity.
  - vm_compute. reflexivity.
  - unfold PngEmbed.well_formed, PngEmbed.chunk_ok.
    repeat split; repeat constructor; simpl; try lia; try discriminate.
  - vm_compute. reflexivity.
  - vm_compute. reflexivity.
  - cbv zeta in *.
    destruct (embed_leaves_one_character_chunk png1 bin1 _ PngEmbed.minimal_iend
                (PngEmbed.sample_character (js "Bob")) Hatob1 Hbytes1 Hwf1)
      as (png2 & bin2 & text2 & Hembed2 & Hatob2 & Hbytes2 & Hback2 & _ & _).
    + vm_compute. reflexivity.
    + vm_compute. reflexivity.
    + cbv zeta in *. exists png1, png2, bin2, text2.
      split; [exact Hembed1|]. split; [exact Hembed2|]. split; [exact Hatob2|].
      split; [|exact Hback2].
      rewrite Hbytes2. reflexivity.
Defined.

(** A name with a code unit above 255 that is no surrogate (a CJK or a
    Cyrillic letter, say) makes [embedCharacterIntoPng] throw the
    InvalidCharacterError of [btoa], for every image that decodes and has
    the signature: the JSON text is handed to [btoa] as it is. *)
Theorem embed_rejects_wide_name (png bin : jsstring) (character : Types.Character) (c : N) :
  Base64.atob png = Ok bin ->
  PngEmbed.check_signature (PngEmbed.bytes_of_binary bin) = Ok tt ->
  In c (Types.cd_name (Types.ch_data character)) ->
  (255 < c)%N -> ~ (55296 <= c <= 57343)%N ->
  PngEmbed.embedCharacterIntoPng png character = Throw InvalidCharacterError.
Proof.
  intros Hatob Hsig Hin Hwide Hsur.
  unfold PngEmbed.embedCharacterIntoPng. rewrite Hatob. cbn [rbind]. cbv zeta.
  rewrite Hsig. cbn [rbind]. unfold Base64.btoa at 1.
  assert (existsb (fun c => (255 <? c)%N)
            (Parser.stringify_card (Parser.exportToV2Card character) []) = true) as ->.
  { apply existsb_exists. exists c. split; [|by apply N.ltb_lt].
    apply stringify_card_keeps_name; [exact Hwide| | |exact Hin].
    - unfold JSON.is_high_surrogate.
      destruct (N.leb_spec 55296 c); destruct (N.leb_spec c 56319); cbn [andb]; try reflexivity.
      lia.
    - unfold JSON.is_low_surrogate.
      destruct (N.leb_spec 56320 c); destruct (N.leb_spec c 57343); cbn [andb]; try reflexivity.
      lia. }
  reflexivity.
Qed.

Lemma embed_rejects_wide_name_witness :
  Parser.valid_data (Parser.sample_data PngEmbed.nihon) = true /\
  PngEmbed.embedCharacterIntoPng PngEmbed.MINIMAL_PNG_BASE64
    (PngEmbed.sample_character PngEmbed.nihon) = Throw InvalidCharacterError.
Proof.
  split; [reflexivity|].
  apply (embed_rejects_wide_name PngEmbed.MINIMAL_PNG_BASE64
           (PngEmbed.binary_of_bytes
              (PngEmbed.image PngEmbed.minimal_chunks PngEmbed.minimal_iend))
           _ 26085%N).
  - vm_compute. reflexivity.
  - vm_compute. reflexivity.
  - simpl. now left.
  - lia.
  - lia.
Defined.

(** C1 (the code departs from the claim). A character whose name is the
    two code units U+65E5 U+672C is valid character data, yet embedding it
    into the 1x1 image of the test suite throws the InvalidCharacterError
    of [btoa]: the JSON text goes to [btoa] as it is, and [btoa] takes
    code units up to 255 only. No image is produced, so there is nothing
    to extract the data from. *)
Theorem C1_embed_throws_outside_latin1 :
  Parser.valid_data (Parser.sample_data PngEmbed.nihon) = true /\
  (exists bin, Base64.atob PngEmbed.MINIMAL_PNG_BASE64 = Ok bin /\
               PngEmbed.check_signature (PngEmbed.bytes_of_binary bin) = Ok tt) /\
  PngEmbed.embedCharacterIntoPng PngEmbed.MINIMAL_PNG_BASE64
    (PngEmbed.sample_character PngEmbed.nihon) = Throw InvalidCharacterError.
Proof.
  split; [reflexivity|]. split.
  - exists (PngEmbed.binary_of_bytes
              (PngEmbed.image PngEmbed.minimal_chunks PngEmbed.minimal_iend)).
    split; vm_compute; reflexivity.
  - vm_compute. reflexivity.
Qed.
